(** * Gophermart: the accrual pipeline and its bookkeeping transactions

    A shallow embedding of the loyalty-points gateway: order-number
    validation ([service/order.go]), the PostgreSQL repositories
    ([repo/order_pg.go], the withdraw repository), the in-memory order
    repository used by the worker tests, the scoring client's rate-limit
    deadline ([service/accrual.go]), the worker pool ([service/worker.go])
    and the order-creation handler.

    Conventions.
    - A Go [string] is a sequence of bytes: Rocq's [string]; a byte is read
      as a [Z] in [0, 256).
    - Money in the schema ([NUMERIC(18,2)]) is an exact integer number of
      hundredths, a [Z]; the sum of a withdrawal, a [float64] nothing has
      rounded yet, is a rational number of hundredths, a [Q], which the
      store rounds when it writes it.
    - A [time.Time] is a [Z]: nanoseconds relative to the Unix epoch, so
      pre-epoch instants are negative.
    - Every SQL statement runs to completion: connection failures are not
      modelled, only the errors the repositories raise themselves. *)

From stdpp Require Import gmap strings list fin_maps sorting.
From Stdlib Require Import ZArith Lia ZifyBool QArith Qround Lqa.

Local Open Scope Z_scope.

(** ** Go strings, UTF-8 and the [unicode] predicates *)

Module GoString.

Definition bytes_of (s : string) : list Z :=
  map (fun c => Z.of_N (Ascii.N_of_ascii c)) (String.list_ascii_of_string s).

Definition of_bytes (l : list Z) : string :=
  String.string_of_list_ascii (map (fun b => Ascii.ascii_of_N (Z.to_N b)) l).

Definition RuneError : Z := 65533.
Definition RuneSelf : Z := 128.
Definition MaxLatin1 : Z := 255.

Definition between (lo hi b : Z) : bool := (lo <=? b) && (b <=? hi).

(** [utf8.DecodeRuneInString]: the first rune of [p] and its width. An
    ill-formed or truncated sequence yields [RuneError] with width 1. *)
Definition DecodeRune (p : list Z) : Z * nat :=
  match p with
  | [] => (RuneError, 0%nat)
  | b0 :: t =>
      if b0 <? RuneSelf then (b0, 1%nat)
      else if between 194 223 b0 then
        match t with
        | b1 :: _ =>
            if between 128 191 b1
            then (Z.lor (Z.shiftl (Z.land b0 31) 6) (Z.land b1 63), 2%nat)
            else (RuneError, 1%nat)
        | _ => (RuneError, 1%nat)
        end
      else if between 224 239 b0 then
        let lo := if b0 =? 224 then 160 else 128 in
        let hi := if b0 =? 237 then 159 else 191 in
        match t with
        | b1 :: b2 :: _ =>
            if between lo hi b1 && between 128 191 b2
            then (Z.lor (Z.shiftl (Z.land b0 15) 12)
                    (Z.lor (Z.shiftl (Z.land b1 63) 6) (Z.land b2 63)), 3%nat)
            else (RuneError, 1%nat)
        | _ => (RuneError, 1%nat)
        end
      else if between 240 244 b0 then
        let lo := if b0 =? 240 then 144 else 128 in
        let hi := if b0 =? 244 then 143 else 191 in
        match t with
        | b1 :: b2 :: b3 :: _ =>
            if between lo hi b1 && between 128 191 b2 && between 128 191 b3
            then (Z.lor (Z.shiftl (Z.land b0 7) 18)
                    (Z.lor (Z.shiftl (Z.land b1 63) 12)
                       (Z.lor (Z.shiftl (Z.land b2 63) 6) (Z.land b3 63))), 4%nat)
            else (RuneError, 1%nat)
        | _ => (RuneError, 1%nat)
        end
      else (RuneError, 1%nat)
  end.

(** The runes of a string paired with the bytes that encode them, in the
    order a [for ... range] loop visits them. *)
Fixpoint decode_aux (fuel : nat) (p : list Z) : list (Z * list Z) :=
  match fuel, p with
  | S fuel', _ :: _ =>
      let '(r, w) := DecodeRune p in
      (r, take w p) :: decode_aux fuel' (drop w p)
  | _, _ => []
  end.

Definition decode (p : list Z) : list (Z * list Z) := decode_aux (length p) p.

Definition runes (s : string) : list Z := map fst (decode (bytes_of s)).

Definition in_ranges (tbl : list (Z * Z)) (r : Z) : bool :=
  existsb (fun '(lo, hi) => between lo hi r) tbl.

(** [unicode.White_Space] above Latin-1. *)
Definition White_Space : list (Z * Z) :=
  [(0x1680, 0x1680); (0x2000, 0x200a); (0x2028, 0x2029);
   (0x202f, 0x202f); (0x205f, 0x205f); (0x3000, 0x3000)].

Definition IsSpace (r : Z) : bool :=
  if between 0 MaxLatin1 r then
    (r =? 9) || (r =? 10) || (r =? 11) || (r =? 12) || (r =? 13)
    || (r =? 32) || (r =? 0x85) || (r =? 0xA0)
  else in_ranges White_Space r.

(** [unicode.Digit], the decimal-digit category Nd, above Latin-1. *)
Definition Nd : list (Z * Z) :=
  [(0x0660, 0x0669); (0x06f0, 0x06f9); (0x07c0, 0x07c9); (0x0966, 0x096f);
   (0x09e6, 0x09ef); (0x0a66, 0x0a6f); (0x0ae6, 0x0aef); (0x0b66, 0x0b6f);
   (0x0be6, 0x0bef); (0x0c66, 0x0c6f); (0x0ce6, 0x0cef); (0x0d66, 0x0d6f);
   (0x0de6, 0x0def); (0x0e50, 0x0e59); (0x0ed0, 0x0ed9); (0x0f20, 0x0f29);
   (0x1040, 0x1049); (0x1090, 0x1099); (0x17e0, 0x17e9); (0x1810, 0x1819);
   (0x1946, 0x194f); (0x19d0, 0x19d9); (0x1a80, 0x1a89); (0x1a90, 0x1a99);
   (0x1b50, 0x1b59); (0x1bb0, 0x1bb9); (0x1c40, 0x1c49); (0x1c50, 0x1c59);
   (0xa620, 0xa629); (0xa8d0, 0xa8d9); (0xa900, 0xa909); (0xa9d0, 0xa9d9);
   (0xa9f0, 0xa9f9); (0xaa50, 0xaa59); (0xabf0, 0xabf9); (0xff10, 0xff19);
   (0x104a0, 0x104a9); (0x10d30, 0x10d39); (0x11066, 0x1106f);
   (0x110f0, 0x110f9); (0x11136, 0x1113f); (0x111d0, 0x111d9);
   (0x112f0, 0x112f9); (0x11450, 0x11459); (0x114d0, 0x114d9);
   (0x11650, 0x11659); (0x116c0, 0x116c9); (0x11730, 0x11739);
   (0x118e0, 0x118e9); (0x11950, 0x11959); (0x11c50, 0x11c59);
   (0x11d50, 0x11d59); (0x11da0, 0x11da9); (0x11f50, 0x11f59);
   (0x16a60, 0x16a69); (0x16ac0, 0x16ac9); (0x16b50, 0x16b59);
   (0x1d7ce, 0x1d7ff); (0x1e140, 0x1e149); (0x1e2f0, 0x1e2f9);
   (0x1e4f0, 0x1e4f9); (0x1e950, 0x1e959); (0x1fbf0, 0x1fbf9)].

(** [unicode.IsDigit]: below [MaxLatin1] only ['0'..'9'], above it the
    Nd table. *)
Definition IsDigit (r : Z) : bool :=
  if r <=? MaxLatin1 then between 48 57 r else in_ranges Nd r.

(** [strings.TrimSpace]: drop the leading and the trailing runes that
    satisfy [unicode.IsSpace]; the bytes in between are kept as they are. *)
Fixpoint drop_while {A} (f : A -> bool) (l : list A) : list A :=
  match l with
  | x :: l' => if f x then drop_while f l' else l
  | [] => []
  end.

Definition trim_chunks (cs : list (Z * list Z)) : list (Z * list Z) :=
  let is_space (c : Z * list Z) := IsSpace (fst c) in
  rev (drop_while is_space (rev (drop_while is_space cs))).

Definition TrimSpace (s : string) : string :=
  of_bytes (concat (map snd (trim_chunks (decode (bytes_of s))))).

End GoString.

(** ** Order numbers ([service/order.go]) *)

Inductive Err : Type :=
| ErrUserExists
| ErrUserNotFound
| ErrOrderNotFound
| ErrOrderExists
| ErrNoQueueItems
| ErrInsufficientFunds
| ErrOrderOwnedByAnother
| ErrInvalidOrderNumber
| ErrInvalidWithdrawAmount
| ErrTransport
| ErrDecode.

Global Instance Err_eq_dec : EqDecision Err.
Proof. solve_decision. Defined.

Module OrderNumber.
Import GoString.

(** One iteration of the loop of [Luhn], for the byte [b = number[i]]:
    [d := int(number[i] - '0')] is a byte subtraction, hence modulo 256.
    The running [sum] is a Go [int]; each step adds at most 501, so it
    stays far from the 64-bit bound for any string that fits in memory. *)
Definition luhn_step (b : Z) (acc : Z * bool) : Z * bool :=
  let '(sum, double) := acc in
  let d := (b - 48) mod 256 in
  let d := if double then (let d2 := d * 2 in if d2 >? 9 then d2 - 9 else d2) else d in
  (sum + d, negb double).

(** The loop runs [i] from [len(number) - 1] down to [0]. *)
Fixpoint luhn_loop (rev_bytes : list Z) (acc : Z * bool) : Z * bool :=
  match rev_bytes with
  | [] => acc
  | b :: rest => luhn_loop rest (luhn_step b acc)
  end.

Definition Luhn (number : string) : bool :=
  Z.rem (fst (luhn_loop (rev (bytes_of number)) (0, false))) 10 =? 0.

(** [ValidateOrderNumber]; [None] is Go's [nil] error. *)
Definition ValidateOrderNumber (number : string) : option Err :=
  let trimmed := TrimSpace number in
  if decide (trimmed = "") then Some ErrInvalidOrderNumber
  else if negb (forallb IsDigit (runes trimmed)) then Some ErrInvalidOrderNumber
  else if negb (Luhn trimmed) then Some ErrInvalidOrderNumber
  else None.

End OrderNumber.

(** ** The persisted schema ([repo/repo.go] and the migration) *)

Record User : Type := mkUser {
  Login : string;
  PasswordHash : string;
  Balance : Z;
  Withdrawn : Z }.

(** A row of [orders]; the primary key [number] is the key of the table. *)
Record Order : Type := mkOrder {
  UserID : Z;
  Status : string;
  Accrual : option Z;
  UploadedAt : Z;
  AccrualApplied : bool }.

Record Withdrawal : Type := mkWithdrawal {
  WUserID : Z;
  OrderNumber : string;
  Sum : Z;
  ProcessedAt : Z }.

(** A row of [processing_queue]; [last_check] is nullable. *)
Record QueueRow : Type := mkQueueRow {
  last_check : option Z;
  qstatus : string }.

Record Store : Type := mkStore {
  users : gmap Z User;
  next_user_id : Z;
  orders : gmap string Order;
  withdrawals : list Withdrawal;
  queue : gmap string QueueRow }.

Definition empty_store : Store := mkStore ∅ 1 ∅ [] ∅.

Definition set_users (f : gmap Z User -> gmap Z User) (s : Store) : Store :=
  mkStore (f (users s)) (next_user_id s) (orders s) (withdrawals s) (queue s).
Definition set_orders (f : gmap string Order -> gmap string Order) (s : Store) : Store :=
  mkStore (users s) (next_user_id s) (f (orders s)) (withdrawals s) (queue s).
Definition set_withdrawals (f : list Withdrawal -> list Withdrawal) (s : Store) : Store :=
  mkStore (users s) (next_user_id s) (orders s) (f (withdrawals s)) (queue s).
Definition set_queue (f : gmap string QueueRow -> gmap string QueueRow) (s : Store) : Store :=
  mkStore (users s) (next_user_id s) (orders s) (withdrawals s) (f (queue s)).

(** *** Money

    A column of type [NUMERIC(18,2)] holds hundredths: a [Z]. An amount the
    code has as a [float64] and has not stored yet is the decimal number
    the [float64] stands for, counted in hundredths and not necessarily
    whole: a rational, [1 # 2] for 0.005. Go compares and the server
    computes with these numbers as they are (the rounding error of
    [float64] arithmetic is left out); writing a value to a column rounds
    it to the nearest hundredth, a tie away from zero. *)
Coercion inject_Z : Z >-> Q.

Definition Qltb (x y : Q) : bool := negb (Qle_bool y x).

Definition round_half_away (q : Q) : Z :=
  if Qle_bool 0 q then Qfloor (q + (1 # 2)) else Qceiling (q - (1 # 2)).

Definition statusNew : string := "NEW".
Definition statusProcessing : string := "PROCESSING".
Definition statusInvalid : string := "INVALID".
Definition statusProcessed : string := "PROCESSED".

(** The outcome of a repository call: Go's [(value, error)] pair. *)
Definition Res (A : Type) : Type := Err + A.
Definition Op (A : Type) : Type := Store -> Res A * Store.

(** ** The PostgreSQL repositories *)

Module PG.

(** [PGUserRepository.CreateUser]: [login] is [UNIQUE]; [id] is [SERIAL],
    and a sequence value once drawn is not given back. *)
Definition CreateUser (login hash : string) : Op Z := fun s =>
  let id := next_user_id s in
  let s1 := mkStore (users s) (id + 1) (orders s) (withdrawals s) (queue s) in
  if decide (map_Exists (fun _ u => Login u = login) (users s))
  then (inl ErrUserExists, s1)
  else (inr id, set_users (insert id (mkUser login hash 0 0)) s1).

Definition GetBalance (userID : Z) : Op (Z * Z) := fun s =>
  match users s !! userID with
  | Some u => (inr (Balance u, Withdrawn u), s)
  | None => (inl ErrUserNotFound, s)
  end.

Definition GetByNumber (number : string) : Op Order := fun s =>
  match orders s !! number with
  | Some o => (inr o, s)
  | None => (inl ErrOrderNotFound, s)
  end.

(** [INSERT INTO orders]: a primary-key collision is [ErrOrderExists]. *)
Definition CreateOrder (number : string) (order : Order) : Op unit := fun s =>
  match orders s !! number with
  | Some _ => (inl ErrOrderExists, s)
  | None => (inr (), set_orders (insert number order) s)
  end.

(** [INSERT ... ON CONFLICT (number) DO UPDATE SET status = EXCLUDED.status]. *)
Definition UpsertProcessing (number status : string) : Op unit := fun s =>
  let row :=
    match queue s !! number with
    | Some e => mkQueueRow (last_check e) status
    | None => mkQueueRow None status
    end in
  (inr (), set_queue (insert number row) s).

Definition eligible (e : QueueRow) : bool :=
  bool_decide (qstatus e = statusNew) || bool_decide (qstatus e = statusProcessing).

(** [COALESCE(last_check, 'epoch'::timestamptz)]. *)
Definition coalesce_epoch (e : QueueRow) : Z := default 0 (last_check e).

Definition key_le (x y : string * QueueRow) : Prop :=
  coalesce_epoch (snd x) <= coalesce_epoch (snd y).

Global Instance key_le_dec x y : Decision (key_le x y).
Proof. unfold key_le. apply _. Defined.

(** [SELECT number ... WHERE status IN ('NEW','PROCESSING')
    ORDER BY COALESCE(last_check,'epoch') ASC LIMIT 1], evaluated over the
    rows in the order [scan] in which the table happens to be read. *)
Definition select_next (scan : list (string * QueueRow)) : option string :=
  fst <$> head (merge_sort key_le (filter (fun r => eligible (snd r) = true) scan)).

(** [ClaimNextForProcessing]: the select and the update run in one
    transaction. Transactions are taken one at a time, so no row is locked
    by another claimer and [SKIP LOCKED] skips nothing. *)
Definition ClaimNextForProcessing_in
    (scan : list (string * QueueRow)) (checkedAt : Z) : Op string := fun s =>
  match select_next scan with
  | None => (inl ErrNoQueueItems, s)
  | Some number =>
      (inr number,
       set_queue (alter (fun _ => mkQueueRow (Some checkedAt) statusProcessing) number) s)
  end.

Definition ClaimNextForProcessing (checkedAt : Z) : Op string := fun s =>
  ClaimNextForProcessing_in (map_to_list (queue s)) checkedAt s.

(** [UpdateOrderStatus]: both statements set [accrual_applied = false];
    [accrual] is written only when one is passed. An [UPDATE] that matches
    no row is not an error. *)
Definition UpdateOrderStatus (number status : string) (accrual : option Z) : Op unit :=
  fun s =>
    let upd (o : Order) :=
      match accrual with
      | Some a => mkOrder (UserID o) status (Some a) (UploadedAt o) false
      | None => mkOrder (UserID o) status (Accrual o) (UploadedAt o) false
      end in
    (inr (), set_orders (alter upd number) s).

Definition UpdateProcessingStatus (number status : string) (checkedAt : Z) : Op unit :=
  fun s => (inr (), set_queue (alter (fun _ => mkQueueRow (Some checkedAt) status) number) s).

Definition DeleteProcessingEntry (number : string) : Op unit :=
  fun s => (inr (), set_queue (delete number) s).

Definition credit (a : Z) (u : User) : User :=
  mkUser (Login u) (PasswordHash u) (Balance u + a) (Withdrawn u).

(** [ApplyOrderAccrual], one transaction. *)
Definition ApplyOrderAccrual (number : string) (accrual : Z) : Op bool := fun s =>
  match orders s !! number with
  | None => (inl ErrOrderNotFound, s)
  | Some o =>
      if AccrualApplied o then (inr false, set_queue (delete number) s)
      else
        let s1 := set_orders (insert number
                    (mkOrder (UserID o) statusProcessed (Some accrual) (UploadedAt o) true)) s in
        let s2 := set_users (alter (credit accrual) (UserID o)) s1 in
        (inr true, set_queue (delete number) s2)
  end.

(** [SET balance = balance - $2, withdrawn = withdrawn + $2]: the two
    results are written to [NUMERIC(18,2)] columns. *)
Definition debit (a : Q) (u : User) : User :=
  mkUser (Login u) (PasswordHash u)
    (round_half_away (Balance u - a)) (round_half_away (Withdrawn u + a)).

(** [PGWithdrawRepository.Withdraw], one transaction; every error path
    rolls it back. The amount is the [float64] of the caller, which nothing
    has rounded; the row of [withdrawals] gets it in a [NUMERIC(18,2)]
    column. *)
Definition Withdraw (userID : Z) (order : string) (amount : Q) (now : Z) : Op unit :=
  fun s =>
    match users s !! userID with
    | None => (inl ErrUserNotFound, s)
    | Some u =>
        if Qltb (Balance u) amount then (inl ErrInsufficientFunds, s)
        else
          let s1 := set_users (insert userID (debit amount u)) s in
          (inr (),
           set_withdrawals
             (fun l => l ++ [mkWithdrawal userID order (round_half_away amount) now]) s1)
    end.

End PG.

(** ** The in-memory order repository of the worker tests *)

Module Mem.

(** Go's zero [time.Time] (January 1 of year 1, UTC), in nanoseconds
    relative to the Unix epoch. *)
Definition zeroTime : Z := -62135596800 * 1000000000.
Definition IsZero (t : Z) : bool := t =? zeroTime.

Record queueEntry : Type := mkEntry {
  status : string;
  lastCheck : Z }.

Record memoryOrderRepo : Type := mkRepo {
  m_orders : gmap string Order;
  m_queue : gmap string queueEntry;
  balances : gmap Z Z }.

Definition MRes (A : Type) : Type := Res A * memoryOrderRepo.

(** The body of the [for number, entry := range m.queue] loop. *)
Definition claim_step (acc : string * Z * bool) (item : string * queueEntry)
  : string * Z * bool :=
  let '(selected, selectedTS, hasSelection) := acc in
  let '(number, entry) := item in
  if bool_decide (status entry ≠ "NEW") && bool_decide (status entry ≠ "PROCESSING")
  then acc
  else
    let candidate := lastCheck entry in
    let candidate := if IsZero candidate then 0 else candidate in
    if negb hasSelection || (candidate <? selectedTS)
    then (number, candidate, true)
    else acc.

(** [ClaimNextForProcessing]; [iter] is the order in which [range]
    happens to visit the map. *)
Definition ClaimNextForProcessing_in
    (iter : list (string * queueEntry)) (now : Z) (m : memoryOrderRepo) : MRes string :=
  let '(selected, _, hasSelection) := foldl claim_step ("", zeroTime, false) iter in
  if negb hasSelection then (inl ErrNoQueueItems, m)
  else
    (inr selected,
     mkRepo (m_orders m)
       (alter (fun _ => mkEntry "PROCESSING" now) selected (m_queue m))
       (balances m)).

Definition UpdateOrderStatus (number status : string) (accrual : option Z)
    (m : memoryOrderRepo) : MRes unit :=
  match m_orders m !! number with
  | None => (inl ErrOrderNotFound, m)
  | Some order =>
      let applied :=
        if bool_decide (status ≠ statusProcessed) then false else AccrualApplied order in
      (inr (),
       mkRepo (<[number := mkOrder (UserID order) status accrual (UploadedAt order) applied]>
                 (m_orders m))
         (m_queue m) (balances m))
  end.

End Mem.

(** ** Services over the store

    A service call is a sequence of repository calls. Other tasks observe the
    store between two of them, so a call records the store it leaves behind
    in [points]. *)

Record World : Type := mkWorld {
  store : Store;
  rateLimitUntil : Z;
  points : list Store }.

Definition init_world : World := mkWorld empty_store Mem.zeroTime [empty_store].

Definition M (A : Type) : Type := World -> Res A * World.

Definition ret {A} (a : A) : M A := fun w => (inr a, w).
Definition fail {A} (e : Err) : M A := fun w => (inl e, w).
Definition bind {A B} (m : M A) (k : A -> M B) : M B := fun w =>
  match m w with
  | (inl e, w') => (inl e, w')
  | (inr a, w') => k a w'
  end.

(** One repository call. *)
Definition call {A} (op : Op A) : M A := fun w =>
  let '(r, s') := op (store w) in
  (r, mkWorld s' (rateLimitUntil w) (points w ++ [s'])).

(** A call whose error the caller inspects instead of returning it. *)
Definition try {A} (m : M A) : M (Res A) := fun w =>
  let '(r, w') := m w in (inr r, w').

Declare Scope go_scope.
Delimit Scope go_scope with go.
Notation "'do' x <- m ; k" := (bind m (fun x => k))
  (at level 10, x name, m at level 100, k at level 200) : go_scope.
Notation "m ;; k" := (bind m (fun _ => k))
  (at level 100, k at level 200, right associativity) : go_scope.
Local Open Scope go_scope.

Import GoString OrderNumber.

(** *** [service/order.go]: [OrderManager.SubmitOrder] *)

Definition resolve_owner (existing : Order) (userID : Z) : M bool :=
  if decide (UserID existing = userID) then ret false else fail ErrOrderOwnedByAnother.

Definition SubmitOrder (userID : Z) (number : string) (now : Z) : M bool :=
  let number := TrimSpace number in
  match ValidateOrderNumber number with
  | Some err => fail err
  | None =>
      do existing <- try (call (PG.GetByNumber number));
      match existing with
      | inl err =>
          if decide (err = ErrOrderNotFound) then
            let order := mkOrder userID statusNew None now false in
            do created <- try (call (PG.CreateOrder number order));
            match created with
            | inl err =>
                if decide (err = ErrOrderExists) then
                  do existing <- call (PG.GetByNumber number);
                  resolve_owner existing userID
                else fail err
            | inr _ =>
                call (PG.UpsertProcessing number statusNew);;
                ret true
            end
          else fail err
      | inr existing => resolve_owner existing userID
      end
  end.

(** *** [WithdrawManager.Withdraw] *)

Definition WithdrawManager_Withdraw (userID : Z) (order : string) (amount : Q) (now : Z)
  : M unit :=
  let order := TrimSpace order in
  match ValidateOrderNumber order with
  | Some _ => fail ErrInvalidOrderNumber
  | None =>
      if Qle_bool amount 0 then fail ErrInvalidWithdrawAmount
      else call (PG.Withdraw userID order amount now)
  end.

(** *** [service/accrual.go]: the shared rate-limit deadline *)

Definition SetRateLimitUntil (t : Z) (until : Z) : Z :=
  if t >? until then t else until.

Definition client_SetRateLimitUntil (t : Z) : M unit := fun w =>
  (inr (), mkWorld (store w) (SetRateLimitUntil t (rateLimitUntil w)) (points w)).

(** *** The order-creation handler

    [handleCreateOrder] as a function from the request to the status code
    it writes; reading the body always succeeds. *)

Record Request : Type := mkRequest {
  Method : string;
  ContentType : string;
  Body : option string;
  ctxUserID : option Z }.

Definition StatusOK : Z := 200.
Definition StatusAccepted : Z := 202.
Definition StatusNoContent : Z := 204.
Definition StatusBadRequest : Z := 400.
Definition StatusUnauthorized : Z := 401.
Definition StatusMethodNotAllowed : Z := 405.
Definition StatusConflict : Z := 409.
Definition StatusUnprocessableEntity : Z := 422.
Definition StatusTooManyRequests : Z := 429.
Definition StatusInternalServerError : Z := 500.

Definition handleCreateOrder (r : Request) (now : Z) (w : World) : Z * World :=
  if decide (Method r ≠ "POST") then (StatusMethodNotAllowed, w)
  else if bool_decide (ContentType r = "") || negb (String.prefix "text/plain" (ContentType r))
  then (StatusBadRequest, w)
  else
    match Body r with
    | None => (StatusBadRequest, w)
    | Some body =>
        let number := TrimSpace body in
        match ValidateOrderNumber number with
        | Some _ => (StatusUnprocessableEntity, w)
        | None =>
            match ctxUserID r with
            | None => (StatusUnauthorized, w)
            | Some userID =>
                match SubmitOrder userID number now w with
                | (inl err, w') =>
                    if decide (err = ErrInvalidOrderNumber) then (StatusUnprocessableEntity, w')
                    else if decide (err = ErrOrderOwnedByAnother) then (StatusConflict, w')
                    else (StatusInternalServerError, w')
                | (inr created, w') =>
                    if created then (StatusAccepted, w') else (StatusOK, w')
                end
            end
        end
    end.

(** *** [service/worker.go] *)

Record Payload : Type := mkPayload {
  p_Order : string;
  p_Status : string;
  p_Accrual : option Z }.

(** What [DoGet] hands to [processNumber]: a transport error, or a response
    with its status code, its [Retry-After] header and its body, [None] when
    the body is not the expected JSON. *)
Inductive Reply : Type :=
| DoGetError
| Response (StatusCode : Z) (RetryAfter : string) (body : option Payload).

Definition Second : Z := 1000000000.

(** [int64] arithmetic on [time.Duration]. *)
Definition wrap64 (z : Z) : Z := (z + 2 ^ 63) mod 2 ^ 64 - 2 ^ 63.

(** [strconv.Atoi], [None] when it returns an error: an optional sign, then
    one or more ASCII digits, and a value that fits in an [int]. *)
Definition Atoi (s : string) : option Z :=
  match bytes_of s with
  | [] => None
  | c :: rest =>
      let neg := c =? 45 in
      let digits := if (c =? 45) || (c =? 43) then rest else c :: rest in
      if bool_decide (digits = []) then None
      else if negb (forallb (between 48 57) digits) then None
      else
        let n := foldl (fun n ch => n * 10 + (ch - 48)) 0 digits in
        let n := if neg then - n else n in
        if between (- 2 ^ 63) (2 ^ 63 - 1) n then Some n else None
  end.

(** [strings.ToUpper] on a string without lower-case letters or without
    non-ASCII bytes: the byte-wise mapping of ['a'..'z'] to ['A'..'Z']. *)
Definition ToUpper_ASCII (s : string) : string :=
  of_bytes (map (fun c => if between 97 122 c then c - 32 else c) (bytes_of s)).

Section Worker.

(** [strings.ToUpper] is taken as it comes from Go's library. *)
Variable ToUpper : string -> string.

Definition parseRetryAfter (value : string) : Z :=
  let v := TrimSpace value in
  if decide (v = "") then 60 * Second
  else
    match Atoi v with
    | None => 60 * Second
    | Some sec => if sec <=? 0 then 60 * Second else wrap64 (sec * Second)
    end.

Definition release (number : string) (now : Z) : M unit :=
  call (PG.UpdateProcessingStatus number statusProcessing now).

Definition processNumber (number : string) (reply : Reply) (now : Z) : M unit :=
  match reply with
  | DoGetError =>
      try (release number now);;
      fail ErrTransport
  | Response code retryAfter body =>
      if code =? StatusOK then
        match body with
        | None =>
            try (release number now);;
            fail ErrDecode
        | Some payload =>
            let status := ToUpper (p_Status payload) in
            let status := if decide (status = "") then statusProcessing else status in
            if decide (status = statusProcessed) then
              do applied <-
                match p_Accrual payload with
                | Some accrual =>
                    call (PG.ApplyOrderAccrual number accrual);;
                    ret true
                | None =>
                    call (PG.UpdateOrderStatus number status None);;
                    ret false
                end;
              if negb applied then call (PG.DeleteProcessingEntry number) else ret ()
            else if decide (status = statusInvalid) then
              call (PG.UpdateOrderStatus number status None);;
              call (PG.DeleteProcessingEntry number)
            else
              call (PG.UpdateOrderStatus number status (p_Accrual payload));;
              release number now
        end
      else if code =? StatusNoContent then release number now
      else if code =? StatusTooManyRequests then
        let retryAfter := parseRetryAfter retryAfter in
        client_SetRateLimitUntil (now + retryAfter);;
        release number now
      else if code =? StatusInternalServerError then release number now
      else release number now
  end.

End Worker.

(** *** The pool: [NewWorkerPool], [Start], [Wait] *)

Record WorkerPool : Type := mkPool {
  interval : Z;
  workers : Z;
  wg : Z }.

Definition NewWorkerPool (workers interval : Z) : WorkerPool := mkPool interval workers 0.

(** The process: the pool, the world it shares with the handlers, and the
    number of goroutines that execute [runWorker]. *)
Record System : Type := mkSystem {
  pool : WorkerPool;
  world : World;
  running : nat }.

(** The body of the loop of [Start]: [w.wg.Add(1); go w.runWorker(ctx)]. *)
Definition spawn (sys : System) : System :=
  mkSystem (mkPool (interval (pool sys)) (workers (pool sys)) (wg (pool sys) + 1))
    (world sys) (S (running sys)).

(** [for i := 0; i < w.workers; i++]: [remaining] iterations are left. *)
Fixpoint start_loop (remaining : nat) (sys : System) : System :=
  match remaining with
  | O => sys
  | S n => start_loop n (spawn sys)
  end.

Definition Start (sys : System) : System :=
  if workers (pool sys) <=? 0 then sys
  else start_loop (Z.to_nat (workers (pool sys))) sys.

(** [Wait] is [wg.Wait()]: it returns once the counter is zero. *)
Definition Wait_returns (sys : System) : Prop := wg (pool sys) = 0.

Inductive Event : Type :=
| QueueClaim
| HttpGet (path : string)
| StoreUpdate.

Section Pool.

Variable ToUpper : string -> string.

Definition with_world (sys : System) (w : World) : System :=
  mkSystem (pool sys) w (running sys).

(** What the pool does: only a goroutine started by [Start] takes a step.
    A step is one turn of the loop of [runWorker], or its return when the
    context is cancelled ([defer w.wg.Done()]). *)
Inductive pool_step : System -> list Event -> System -> Prop :=
| worker_exit sys n :
    running sys = S n ->
    pool_step sys []
      (mkSystem (mkPool (interval (pool sys)) (workers (pool sys)) (wg (pool sys) - 1))
         (world sys) n)
| worker_idle sys n scan now err w' :
    running sys = S n ->
    scan ≡ₚ map_to_list (queue (store (world sys))) ->
    call (PG.ClaimNextForProcessing_in scan now) (world sys) = (inl err, w') ->
    pool_step sys [QueueClaim] (with_world sys w')
| worker_turn sys n scan now number w1 reply r w2 :
    running sys = S n ->
    scan ≡ₚ map_to_list (queue (store (world sys))) ->
    call (PG.ClaimNextForProcessing_in scan now) (world sys) = (inr number, w1) ->
    processNumber ToUpper number reply now w1 = (r, w2) ->
    pool_step sys
      ([QueueClaim; HttpGet ("/api/orders/" +:+ number)]
         ++ replicate (length (points w2) - length (points w1)) StoreUpdate)
      (with_world sys w2).

Inductive pool_run : System -> list Event -> System -> Prop :=
| run_nil sys : pool_run sys [] sys
| run_cons sys1 evs sys2 evs' sys3 :
    pool_step sys1 evs sys2 -> pool_run sys2 evs' sys3 ->
    pool_run sys1 (evs ++ evs') sys3.

End Pool.

(** ** Vocabulary of the properties *)

(** *** The Luhn rule, as the design states it

    Doubling every second digit from the right, a doubled digit above 9
    reduced by 9; the total is a multiple of 10. *)

Definition luhn_digit (second : bool) (d : Z) : Z :=
  if second then (if 2 * d >? 9 then 2 * d - 9 else 2 * d) else d.

Fixpoint luhn_sum (from_right : list Z) (second : bool) : Z :=
  match from_right with
  | [] => 0
  | d :: rest => luhn_digit second d + luhn_sum rest (negb second)
  end.

Definition luhn_valid (digits : list Z) : Prop :=
  luhn_sum (rev digits) false mod 10 = 0.

Definition ascii_digit (b : Z) : Prop := 48 <= b <= 57.

Definition digit_value (b : Z) : Z := b - 48.

(** Two range tables without a common element. *)
Definition ranges_apart (t1 t2 : list (Z * Z)) : bool :=
  forallb (fun '(lo, hi) => forallb (fun '(lo', hi') => (hi <? lo') || (hi' <? lo)) t2) t1.

(** The string [U+0660 '6'] (bytes D9 A0 36): ARABIC-INDIC DIGIT ZERO
    followed by an ASCII digit. *)
Definition arabic_zero_six : string := of_bytes [217; 160; 54].

(** *** Store transactions *)

Inductive Txn : Type :=
| TxCreateUser (login hash : string)
| TxCreateOrder (number : string) (order : Order)
| TxUpsertProcessing (number status : string)
| TxClaimNext (scan : list (string * QueueRow)) (checkedAt : Z)
| TxUpdateOrderStatus (number status : string) (accrual : option Z)
| TxUpdateProcessingStatus (number status : string) (checkedAt : Z)
| TxDeleteProcessingEntry (number : string)
| TxApplyOrderAccrual (number : string) (accrual : Z)
| TxWithdraw (userID : Z) (order : string) (amount : Q) (now : Z).

(** The store a transaction leaves behind; a failed transaction is rolled
    back by the operation itself. *)
Definition commit (t : Txn) (s : Store) : Store :=
  match t with
  | TxCreateUser login hash => snd (PG.CreateUser login hash s)
  | TxCreateOrder number order => snd (PG.CreateOrder number order s)
  | TxUpsertProcessing number status => snd (PG.UpsertProcessing number status s)
  | TxClaimNext scan checkedAt => snd (PG.ClaimNextForProcessing_in scan checkedAt s)
  | TxUpdateOrderStatus number status accrual =>
      snd (PG.UpdateOrderStatus number status accrual s)
  | TxUpdateProcessingStatus number status checkedAt =>
      snd (PG.UpdateProcessingStatus number status checkedAt s)
  | TxDeleteProcessingEntry number => snd (PG.DeleteProcessingEntry number s)
  | TxApplyOrderAccrual number accrual => snd (PG.ApplyOrderAccrual number accrual s)
  | TxWithdraw userID order amount now => snd (PG.Withdraw userID order amount now s)
  end.

(** The stores after each transaction of a sequence, in order. *)
Fixpoint history (ts : list Txn) (s : Store) : list Store :=
  match ts with
  | [] => []
  | t :: ts' => commit t s :: history ts' (commit t s)
  end.

Definition balances_nonneg (s : Store) : Prop :=
  forall id u, users s !! id = Some u -> 0 <= Balance u.

Definition accrual_nonneg (t : Txn) : Prop :=
  match t with
  | TxApplyOrderAccrual _ accrual => 0 <= accrual
  | _ => True
  end.

(** *** Terminal orders and the queue *)

Definition terminal (o : Order) : Prop :=
  Status o = statusInvalid \/ (Status o = statusProcessed /\ AccrualApplied o = true).

Definition queue_clean (s : Store) : Prop :=
  forall number o, orders s !! number = Some o -> terminal o -> queue s !! number = None.

(** [last_check] values compared with NULL as the oldest of all. *)
Definition null_oldest_le (a b : option Z) : Prop :=
  match a, b with
  | None, _ => True
  | Some _, None => False
  | Some x, Some y => x <= y
  end.

(** Every [last_check] in the queue is after the Unix epoch, as every
    value of [time.Now()] and of the server's [NOW()] is; nothing else is
    ever written to the column. *)
Definition queue_after_epoch (s : Store) : Prop :=
  forall number e t, queue s !! number = Some e -> last_check e = Some t -> 0 < t.

Definition clock_after_epoch (t : Txn) : Prop :=
  match t with
  | TxClaimNext _ checkedAt => 0 < checkedAt
  | TxUpdateProcessingStatus _ _ checkedAt => 0 < checkedAt
  | _ => True
  end.

(** A queue with an entry checked before and an entry never checked. *)
Definition checked_store : Store :=
  mkStore ∅ 1 ∅ []
    {["18" := mkQueueRow (Some 100) statusProcessing; "26" := mkQueueRow None statusNew]}.

Section Reachable.

Variable ToUpper : string -> string.

(** The calls the handlers and the workers make, each taken as a whole. *)
Inductive service_step : World -> World -> Prop :=
| step_register login hash w :
    service_step w (snd (call (PG.CreateUser login hash) w))
| step_submit userID number now w :
    service_step w (snd (SubmitOrder userID number now w))
| step_withdraw userID order amount now w :
    service_step w (snd (WithdrawManager_Withdraw userID order amount now w))
| step_claim scan now w :
    scan ≡ₚ map_to_list (queue (store w)) ->
    service_step w (snd (call (PG.ClaimNextForProcessing_in scan now) w))
| step_process number reply now w :
    service_step w (snd (processNumber ToUpper number reply now w)).

Inductive reachable : World -> Prop :=
| reach_init : reachable init_world
| reach_step w w' : reachable w -> service_step w w' -> reachable w'.

End Reachable.

(** Repeated [ApplyOrderAccrual] calls for one order, with the results. *)
Fixpoint apply_all (number : string) (amounts : list Z) (s : Store) : list (Res bool) * Store :=
  match amounts with
  | [] => ([], s)
  | a :: rest =>
      let '(r, s1) := PG.ApplyOrderAccrual number a s in
      let '(rs, s2) := apply_all number rest s1 in
      (r :: rs, s2)
  end.

Definition balance_of (s : Store) (id : Z) : option Z := Balance <$> users s !! id.

(** *** Sample stores *)

Definition fresh_order : Order := mkOrder 1 statusNew None 7 false.
Definition fresh_store : Store :=
  mkStore {[1 := mkUser "foo" "h" 0 0]} 2 {["18" := fresh_order]} []
    {["18" := mkQueueRow None statusNew]}.

Definition applied_order : Order := mkOrder 1 statusProcessed (Some 500) 7 true.
Definition applied_store : Store :=
  mkStore {[1 := mkUser "foo" "h" 500 0]} 2 {["18" := applied_order]} [] ∅.

(** An account with a balance of 0.01. *)
Definition cent_store : Store := mkStore {[1 := mkUser "foo" "h" 1 0]} 2 ∅ [] ∅.

Definition funded_user : User := mkUser "foo" "h" 10000 0.
Definition funded_store : Store := mkStore {[1 := funded_user]} 2 ∅ [] ∅.

(** A well-formed order-creation request of user [userID]. *)
Definition create_request (userID : Z) (body : string) : Request :=
  mkRequest "POST" "text/plain" (Some body) (Some userID).

(** A queue with an entry checked one second before the Unix epoch and an
    entry that was never checked. *)
Definition pre_epoch_queue : gmap string QueueRow :=
  {["18" := mkQueueRow (Some (- Second)) statusProcessing;
    "26" := mkQueueRow None statusNew]}.
Definition pre_epoch_store : Store := mkStore ∅ 1 ∅ [] pre_epoch_queue.

(** A monadic computation that keeps a property of the store from its
    start to its end. *)
Definition preserves {A} (P : Store -> Prop) (m : M A) : Prop :=
  forall w, P (store w) -> P (store (snd (m w))).

(** A scoring reply that declares the order invalid, and the run in which
    user 1 submits order 18, a worker claims it and processes that reply. *)
Definition invalid_reply : Reply :=
  Response StatusOK "" (Some (mkPayload "18" "INVALID" None)).

Definition invalid_run : World :=
  let w1 := snd (SubmitOrder 1 "18" 100 init_world) in
  let w2 :=
    snd (call (PG.ClaimNextForProcessing_in (map_to_list (queue (store w1))) 200) w1) in
  snd (processNumber ToUpper_ASCII "18" invalid_reply 300 w2).

(** *** The in-memory queue *)

Definition mem_eligible (e : Mem.queueEntry) : Prop :=
  Mem.status e = "NEW" \/ Mem.status e = "PROCESSING".

(** The timestamp the claim loop compares: an unset [lastCheck] counts as
    [time.Unix(0, 0)]. *)
Definition mem_key (e : Mem.queueEntry) : Z :=
  if Mem.IsZero (Mem.lastCheck e) then 0 else Mem.lastCheck e.

(** *** Replies fed to the worker one after the other *)

Definition processed_reply (accrual : Z) : Reply :=
  Response StatusOK "" (Some (mkPayload "" "PROCESSED" (Some accrual))).

Fixpoint feed (ToUpper : string -> string) (number : string) (replies : list Reply)
    (now : Z) (w : World) : World :=
  match replies with
  | [] => w
  | reply :: rest => feed ToUpper number rest now (snd (processNumber ToUpper number reply now w))
  end.

(** The accrual a reply carries, if any, is not negative. *)
Definition reply_accrual_nonneg (reply : Reply) : Prop :=
  match reply with
  | Response _ _ (Some payload) =>
      match p_Accrual payload with
      | Some accrual => 0 <= accrual
      | None => True
      end
  | _ => True
  end.

(** *** Accounts and the withdrawal ledger *)

(** Every user id was drawn from the sequence. *)
Definition ids_fresh (s : Store) : Prop :=
  forall id u, users s !! id = Some u -> id < next_user_id s.

Definition logins_unique (s : Store) : Prop :=
  forall i j u v, users s !! i = Some u -> users s !! j = Some v ->
    Login u = Login v -> i = j.

Definition login_taken (s : Store) (login : string) : Prop :=
  exists id u, users s !! id = Some u /\ Login u = login.

(** The sum of the withdrawal rows of one user. *)
Fixpoint withdrawn_total (id : Z) (rows : list Withdrawal) : Z :=
  match rows with
  | [] => 0
  | r :: rest => (if decide (WUserID r = id) then Sum r else 0) + withdrawn_total id rest
  end.

(** No withdrawal is of a negative sum: the services make no other. *)
Definition withdrawal_nonneg (t : Txn) : Prop :=
  match t with
  | TxWithdraw _ _ amount _ => (0 <= amount)%Q
  | _ => True
  end.

Definition withdrawn_nonneg (s : Store) : Prop :=
  forall id u, users s !! id = Some u -> 0 <= Withdrawn u.

(** A withdrawn total of 0.01 with its row. *)
Definition ledger_store : Store :=
  mkStore {[1 := mkUser "foo" "h" 0 1]} 2 ∅ [mkWithdrawal 1 "18" 1 9] ∅.

Definition ledger_ok (s : Store) : Prop :=
  ids_fresh s
  /\ (forall r, r ∈ withdrawals s -> is_Some (users s !! WUserID r))
  /\ (forall id u, users s !! id = Some u -> Withdrawn u = withdrawn_total id (withdrawals s)).

(** *** Orders and queue entries over time *)

(** An order row as a later store holds it: same owner and upload time. *)
Definition same_order (o o' : Order) : Prop :=
  UserID o' = UserID o /\ UploadedAt o' = UploadedAt o.

(** *** Replies, as [processNumber] reads them *)

(** The status [processNumber] switches on. *)
Definition normalized_status (ToUpper : string -> string) (payload : Payload) : string :=
  if decide (ToUpper (p_Status payload) = "") then statusProcessing
  else ToUpper (p_Status payload).

(** A reply that ends the processing of an order: [200] with status
    PROCESSED or INVALID. *)
Definition final_reply (ToUpper : string -> string) (reply : Reply) : Prop :=
  match reply with
  | Response code _ (Some payload) =>
      code = StatusOK
      /\ (normalized_status ToUpper payload = statusProcessed
          \/ normalized_status ToUpper payload = statusInvalid)
  | _ => False
  end.

(** A reply that carries a decoded [200] body. *)
Definition decoded_ok (reply : Reply) : Prop :=
  match reply with
  | Response code _ (Some _) => code = StatusOK
  | _ => False
  end.

Definition release_row (now : Z) : QueueRow := mkQueueRow (Some now) statusProcessing.

(** Every queue entry has its order row. *)
Definition queue_has_order (s : Store) : Prop :=
  forall number e, queue s !! number = Some e -> is_Some (orders s !! number).

(** At every point a computation goes through. *)
Definition preserves_points {A} (P : Store -> Prop) (m : M A) : Prop :=
  forall w, P (store w) -> Forall P (points w) ->
    P (store (snd (m w))) /\ Forall P (points (snd (m w))).

(** ** More of the handlers and of the repositories *)

(** *** [handleWithdraw]

    The request as the handler sees it: the method, the user id the cookie
    middleware put in the context, and the JSON body, [None] when it does
    not decode to [{order, sum}]; the sum is any number a [float64]
    holds, in hundredths. *)
Record WithdrawCall : Type := mkWithdrawCall {
  wc_Method : string;
  wc_UserID : option Z;
  wc_JSON : option (string * Q) }.

Definition StatusPaymentRequired : Z := 402.

Definition handleWithdraw (r : WithdrawCall) (now : Z) (w : World) : Z * World :=
  if decide (wc_Method r ≠ "POST") then (StatusMethodNotAllowed, w)
  else
    match wc_UserID r with
    | None => (StatusUnauthorized, w)
    | Some userID =>
        match wc_JSON r with
        | None => (StatusBadRequest, w)
        | Some (order, sum) =>
            let order := TrimSpace order in
            match ValidateOrderNumber order with
            | Some _ => (StatusUnprocessableEntity, w)
            | None =>
                if Qle_bool sum 0 then (StatusBadRequest, w)
                else
                  match WithdrawManager_Withdraw userID order sum now w with
                  | (inl err, w') =>
                      if decide (err = ErrInvalidOrderNumber)
                      then (StatusUnprocessableEntity, w')
                      else if decide (err = ErrInvalidWithdrawAmount)
                      then (StatusBadRequest, w')
                      else if decide (err = ErrInsufficientFunds)
                      then (StatusPaymentRequired, w')
                      else (StatusInternalServerError, w')
                  | (inr _, w') => (StatusOK, w')
                  end
            end
        end
    end.

(** *** [ListUserOrders] and [handleListOrders] *)

Definition newer_first (x y : string * Order) : Prop :=
  UploadedAt (snd y) <= UploadedAt (snd x).

Global Instance newer_first_dec x y : Decision (newer_first x y).
Proof. unfold newer_first. apply _. Defined.

(** [SELECT ... FROM orders WHERE user_id = $1 ORDER BY uploaded_at DESC],
    over the rows in the order [scan] in which the table happens to be
    read. *)
Definition ListUserOrders_in (scan : list (string * Order)) (userID : Z)
  : list (string * Order) :=
  merge_sort newer_first (filter (fun r => UserID (snd r) = userID) scan).

Record orderResponse : Type := mkOrderResponse {
  r_Number : string;
  r_Status : string;
  r_Accrual : option Z;
  r_UploadedAt : Z }.

(** The body of the loop of [handleListOrders]. *)
Definition order_item (row : string * Order) : orderResponse :=
  let '(number, order) := row in
  mkOrderResponse number (Status order)
    (if decide (Status order = statusProcessed) then Accrual order else None)
    (UploadedAt order).

(** [handleListOrders]: the status code and the items it encodes. *)
Definition handleListOrders (method : string) (ctxUser : option Z)
    (scan : list (string * Order)) : Z * list orderResponse :=
  if decide (method ≠ "GET") then (StatusMethodNotAllowed, [])
  else
    match ctxUser with
    | None => (StatusUnauthorized, [])
    | Some userID =>
        let orders := ListUserOrders_in scan userID in
        if decide (length orders = 0%nat) then (StatusNoContent, [])
        else (StatusOK, map order_item orders)
    end.

(** *** [ListWithdrawals], [handleWithdrawals] and [handleBalance] *)

Definition later_first (x y : Withdrawal) : Prop := ProcessedAt y <= ProcessedAt x.

Global Instance later_first_dec x y : Decision (later_first x y).
Proof. unfold later_first. apply _. Defined.

(** [SELECT ... FROM withdrawals WHERE user_id = $1 ORDER BY processed_at
    DESC], over the rows in the order [scan] in which the table happens to
    be read. *)
Definition ListWithdrawals_in (scan : list Withdrawal) (userID : Z) : list Withdrawal :=
  merge_sort later_first (filter (fun r => WUserID r = userID) scan).

Record withdrawalResponse : Type := mkWithdrawalResponse {
  wr_Order : string;
  wr_Sum : Z;
  wr_ProcessedAt : Z }.

Definition withdrawal_item (wdr : Withdrawal) : withdrawalResponse :=
  mkWithdrawalResponse (OrderNumber wdr) (Sum wdr) (ProcessedAt wdr).

(** [handleWithdrawals]: the status code and the items it encodes. *)
Definition handleWithdrawals (method : string) (ctxUser : option Z)
    (scan : list Withdrawal) : Z * list withdrawalResponse :=
  if decide (method ≠ "GET") then (StatusMethodNotAllowed, [])
  else
    match ctxUser with
    | None => (StatusUnauthorized, [])
    | Some userID =>
        let withdrawals := ListWithdrawals_in scan userID in
        if decide (length withdrawals = 0%nat) then (StatusNoContent, [])
        else (StatusOK, map withdrawal_item withdrawals)
    end.

(** [handleBalance]: the status code and the pair [(current, withdrawn)] it
    encodes. *)
Definition handleBalance (method : string) (ctxUser : option Z) (s : Store)
  : Z * option (Z * Z) :=
  if decide (method ≠ "GET") then (StatusMethodNotAllowed, None)
  else
    match ctxUser with
    | None => (StatusUnauthorized, None)
    | Some userID =>
        match fst (PG.GetBalance userID s) with
        | inl _ => (StatusInternalServerError, None)
        | inr resp => (StatusOK, Some resp)
        end
    end.

(** The total of the sums a response lists. *)
Definition listed_total (items : list withdrawalResponse) : Z :=
  foldr Z.add 0 (map wr_Sum items).

(** The store after a registration, an order, its accrual and a withdrawal. *)
Definition funded_after_withdraw : Store :=
  commit (TxWithdraw 1 "26" 4000 9)
    (commit (TxApplyOrderAccrual "18" 4250)
       (commit (TxCreateOrder "18" fresh_order)
          (commit (TxCreateUser "foo" "h") empty_store))).

(** ** [handlers/gzip.go]: the compressing response writer

    [gzipResponseWriter] wraps an [http.ResponseWriter] and a lazily made
    [gzip.Writer] over it. What it does is the sequence of calls it makes on
    the two, kept here as a log. *)
Inductive Out : Type :=
| HeaderSet (key value : string)
| HeaderDel (key : string)
| RWWriteHeader (status : Z)
| RWWrite (b : list Z)
| RWFlush
| GzWrite (b : list Z)
| GzFlush
| GzClose.

Global Instance Out_eq_dec : EqDecision Out.
Proof. solve_decision. Defined.

Record gzipResponseWriter : Type := mkGzipResponseWriter {
  gzipWriter : bool;      (* [gzipWriter != nil] *)
  useGzip : bool;
  wroteHeader : bool;
  out : list Out }.

Definition emit (o : list Out) (g : gzipResponseWriter) : gzipResponseWriter :=
  mkGzipResponseWriter (gzipWriter g) (useGzip g) (wroteHeader g) (out g ++ o).

Definition newGzipResponseWriter : gzipResponseWriter :=
  mkGzipResponseWriter false true false [].

Definition gz_WriteHeader (status : Z) (g : gzipResponseWriter) : gzipResponseWriter :=
  if wroteHeader g then g
  else
    let g := mkGzipResponseWriter (gzipWriter g) (useGzip g) true (out g) in
    let g :=
      if status =? StatusNoContent
      then mkGzipResponseWriter (gzipWriter g) false (wroteHeader g) (out g)
      else if useGzip g
      then emit [HeaderDel "Content-Length"; HeaderSet "Content-Encoding" "gzip"] g
      else g in
    emit [RWWriteHeader status] g.

Definition ensureWriter (g : gzipResponseWriter) : gzipResponseWriter :=
  if negb (useGzip g) || gzipWriter g then g
  else mkGzipResponseWriter true (useGzip g) (wroteHeader g) (out g).

Definition gz_Write (b : list Z) (g : gzipResponseWriter) : gzipResponseWriter :=
  let g := if negb (wroteHeader g) then gz_WriteHeader StatusOK g else g in
  if negb (useGzip g) then emit [RWWrite b] g
  else emit [GzWrite b] (ensureWriter g).

(** The wrapped writer of the server is an [http.Flusher]. *)
Definition gz_Flush (g : gzipResponseWriter) : gzipResponseWriter :=
  let g := if useGzip g && gzipWriter g then emit [GzFlush] g else g in
  emit [RWFlush] g.

Definition gz_Close (g : gzipResponseWriter) : gzipResponseWriter :=
  if useGzip g && gzipWriter g then emit [GzClose] g else g.

(** What a handler does with the [http.ResponseWriter] it is given. *)
Inductive Call : Type :=
| CHeaderSet (key value : string)
| CWriteHeader (status : Z)
| CWrite (b : list Z)
| CFlush.

Definition gz_call (g : gzipResponseWriter) (c : Call) : gzipResponseWriter :=
  match c with
  | CHeaderSet key value => emit [HeaderSet key value] g
  | CWriteHeader status => gz_WriteHeader status g
  | CWrite b => gz_Write b g
  | CFlush => gz_Flush g
  end.

(** The branch of [wrapHandlerForGzip] that compresses: [next] runs on a
    new [gzipResponseWriter], which is closed when [next] returns. *)
Definition wrapHandlerForGzip (next : list Call) : list Out :=
  out (gz_Close (foldl gz_call newGzipResponseWriter next)).

(** Reading a log: the statuses sent, the bytes written as they are, the
    bytes given to the compressor, and the header map as it is when the
    status line goes out, which [net/http] sends at the first
    [WriteHeader], [Write] or [Flush]. *)
Definition statuses (log : list Out) : list Z :=
  flat_map (fun o => match o with RWWriteHeader st => [st] | _ => [] end) log.

Definition raw_bytes (log : list Out) : list Z :=
  flat_map (fun o => match o with RWWrite b => b | _ => [] end) log.

Definition gz_bytes (log : list Out) : list Z :=
  flat_map (fun o => match o with GzWrite b => b | _ => [] end) log.

Fixpoint header_sent (h : gmap string string) (log : list Out)
  : option (gmap string string) :=
  match log with
  | [] => None
  | HeaderSet k v :: log => header_sent (<[k := v]> h) log
  | HeaderDel k :: log => header_sent (delete k h) log
  | RWWriteHeader _ :: _ | RWWrite _ :: _ | RWFlush :: _ => Some h
  | _ :: log => header_sent h log
  end.

(** Reading the calls of a handler: the status it sends first, explicitly
    or by writing, and the bytes it writes. *)
Fixpoint first_status (calls : list Call) : option Z :=
  match calls with
  | [] => None
  | CWriteHeader st :: _ => Some st
  | CWrite _ :: _ => Some StatusOK
  | _ :: calls => first_status calls
  end.

Definition written (calls : list Call) : list Z :=
  flat_map (fun c => match c with CWrite b => b | _ => [] end) calls.

Definition closes (log : list Out) : nat :=
  length (filter (fun o => o = GzClose) log).


Definition has_write (calls : list Call) : bool :=
  existsb (fun c => match c with CWrite _ => true | _ => false end) calls.

(** The header map a handler has built when it sends its first status. *)
Fixpoint user_header (h : gmap string string) (calls : list Call) : gmap string string :=
  match calls with
  | CHeaderSet k v :: calls => user_header (<[k := v]> h) calls
  | CFlush :: calls => user_header h calls
  | _ => h
  end.

(** No [Flush] before the first status: a flush makes [net/http] send the
    header as it is. *)
Fixpoint no_early_flush (calls : list Call) : bool :=
  match calls with
  | CHeaderSet _ _ :: calls => no_early_flush calls
  | CFlush :: _ => false
  | _ => true
  end.

(** The header the writer leaves for a compressed response. *)
Definition gzip_header (h : gmap string string) : gmap string string :=
  <["Content-Encoding" := "gzip"]> (delete "Content-Length" h).

(** ** [LoadConfig] *)

Record Config : Type := mkConfig {
  RunAddress : string;
  DatabaseURI : string;
  AccrualSystemAddress : string;
  AccrualPollInterval : Z;          (* a [time.Duration], in nanoseconds *)
  AccrualWorkers : Z;
  TokenSecret : string }.

Definition defaultTokenSecret : string := "gofirmart-secret".

(** The environment, as [os.LookupEnv] reads it. *)
Definition Env : Type := string -> option string.

(** The command line after [flag.Parse]: for each flag the value given, if
    any; the [int] flags hold an [int]. *)
Record Flags : Type := mkFlags {
  flag_a : option string;
  flag_d : option string;
  flag_r : option string;
  flag_p : option Z;
  flag_w : option Z }.

(** [if v, ok := os.LookupEnv(key); ok && v != ""]. *)
Definition env_value (env : Env) (key : string) : option string :=
  match env key with
  | Some v => if decide (v = "") then None else Some v
  | None => None
  end.

(** [strconv.Atoi(v)] without error and positive. *)
Definition positive_int (v : string) : option Z :=
  match Atoi v with
  | Some n => if 0 <? n then Some n else None
  | None => None
  end.

Definition applyEnv (env : Env) (cfg : Config) : Config :=
  let cfg :=
    match env_value env "RUN_ADDRESS" with
    | Some v => mkConfig v (DatabaseURI cfg) (AccrualSystemAddress cfg)
                  (AccrualPollInterval cfg) (AccrualWorkers cfg) (TokenSecret cfg)
    | None => cfg
    end in
  let cfg :=
    match env_value env "DATABASE_URI" with
    | Some v => mkConfig (RunAddress cfg) v (AccrualSystemAddress cfg)
                  (AccrualPollInterval cfg) (AccrualWorkers cfg) (TokenSecret cfg)
    | None => cfg
    end in
  let cfg :=
    match env_value env "ACCRUAL_SYSTEM_ADDRESS" with
    | Some v => mkConfig (RunAddress cfg) (DatabaseURI cfg) v
                  (AccrualPollInterval cfg) (AccrualWorkers cfg) (TokenSecret cfg)
    | None => cfg
    end in
  let cfg :=
    match env_value env "ACCRUAL_POLL_INTERVAL" ≫= positive_int with
    | Some seconds =>
        mkConfig (RunAddress cfg) (DatabaseURI cfg) (AccrualSystemAddress cfg)
          (wrap64 (seconds * Second)) (AccrualWorkers cfg) (TokenSecret cfg)
    | None => cfg
    end in
  match env_value env "ACCRUAL_WORKERS" ≫= positive_int with
  | Some workers =>
      mkConfig (RunAddress cfg) (DatabaseURI cfg) (AccrualSystemAddress cfg)
        (AccrualPollInterval cfg) workers (TokenSecret cfg)
  | None => cfg
  end.

Definition applyFlags (flags : Flags) (cfg : Config) : Config :=
  let pollDefault := Z.quot (AccrualPollInterval cfg) Second in
  let pollDefault := if pollDefault <=? 0 then 2 else pollDefault in
  let runAddress := default (RunAddress cfg) (flag_a flags) in
  let databaseURI := default (DatabaseURI cfg) (flag_d flags) in
  let accrualAddress := default (AccrualSystemAddress cfg) (flag_r flags) in
  let accrualPoll := default pollDefault (flag_p flags) in
  let accrualWorkers := default (AccrualWorkers cfg) (flag_w flags) in
  mkConfig runAddress databaseURI accrualAddress
    (if 0 <? accrualPoll then wrap64 (accrualPoll * Second) else AccrualPollInterval cfg)
    (if 0 <? accrualWorkers then accrualWorkers else AccrualWorkers cfg)
    (TokenSecret cfg).

Definition LoadConfig (env : Env) (flags : Flags) : Config :=
  applyFlags flags
    (applyEnv env (mkConfig ":8080" "" "" (2 * Second) 3 defaultTokenSecret)).

(** A setting of the three kinds: the flag when given, or else the variable
    when set and not empty, or else the default. *)
Definition setting (flag : option string) (env : Env) (key default_ : string) : string :=
  match flag with
  | Some v => v
  | None => default default_ (env_value env key)
  end.

(** An environment of one variable; no flags. *)
Definition env_of (key value : string) : Env :=
  fun k => if decide (k = key) then Some value else None.

Definition no_flags : Flags := mkFlags None None None None None.

(** ** [NewAccrualClient] and the address of a request *)

(** [strings.TrimRight(s, "/")]: a cutset of one ASCII character takes the
    trailing bytes equal to it. *)
Definition TrimRight_slash (s : string) : string :=
  of_bytes (rev (drop_while (fun b => b =? 47) (rev (bytes_of s)))).

(** The [baseURL] of the client [NewAccrualClient] makes. *)
Definition NewAccrualClient (baseURL : string) : string :=
  let trimmed := TrimRight_slash baseURL in
  if decide (trimmed = "") then baseURL else trimmed.

(** The address [DoGet] asks, [fmt.Sprintf("%s%s", c.baseURL, path)], for
    the path of [processNumber]. *)
Definition DoGet_url (baseURL path : string) : string := baseURL +:+ path.

Definition order_path (number : string) : string := "/api/orders/" +:+ number.

Fixpoint slashes (n : nat) : string :=
  match n with
  | O => ""
  | S n => "/" +:+ slashes n
  end.

(** A string with a byte other than ['/']. *)
Definition not_only_slashes (s : string) : Prop :=
  Exists (fun b => b <> 47) (bytes_of s).

(** ** The authentication service: tokens

    The library functions the tokens are made with, on byte strings. *)

Module Base64.

(** [encoding/base64], [StdEncoding]: the alphabet, [=] for padding. *)
Definition encodeStd : list Z :=
  bytes_of "ABCDEFGHIJKLMNOPQRSTUVWXYZabcdefghijklmnopqrstuvwxyz0123456789+/".

Definition padChar : Z := 61.

Definition encode (v : Z) : Z := nth (Z.to_nat v) encodeStd 0.

(** [decodeMap]: the index of a character of the alphabet. *)
Fixpoint index_of (c : Z) (l : list Z) (i : Z) : option Z :=
  match l with
  | [] => None
  | x :: l => if x =? c then Some i else index_of c l (i + 1)
  end.

Definition decodeMap (c : Z) : option Z := index_of c encodeStd 0.

(** [Encode]: three bytes give four characters; one or two bytes left give
    two or three characters and padding. *)
Fixpoint Encode (src : list Z) : list Z :=
  match src with
  | [] => []
  | [b0] =>
      let val := Z.shiftl b0 16 in
      [encode (Z.land (Z.shiftr val 18) 63); encode (Z.land (Z.shiftr val 12) 63);
       padChar; padChar]
  | [b0; b1] =>
      let val := Z.lor (Z.shiftl b0 16) (Z.shiftl b1 8) in
      [encode (Z.land (Z.shiftr val 18) 63); encode (Z.land (Z.shiftr val 12) 63);
       encode (Z.land (Z.shiftr val 6) 63); padChar]
  | b0 :: b1 :: b2 :: rest =>
      let val := Z.lor (Z.lor (Z.shiftl b0 16) (Z.shiftl b1 8)) b2 in
      encode (Z.land (Z.shiftr val 18) 63) :: encode (Z.land (Z.shiftr val 12) 63)
      :: encode (Z.land (Z.shiftr val 6) 63) :: encode (Z.land val 63) :: Encode rest
  end.

(** The bytes of a quantum of [dlen] characters, [dlen - 1] of them. *)
Definition quantum (d0 d1 d2 d3 : Z) (dlen : nat) : list Z :=
  let val := Z.lor (Z.lor (Z.lor (Z.shiftl d0 18) (Z.shiftl d1 12)) (Z.shiftl d2 6)) d3 in
  take (dlen - 1) [Z.land (Z.shiftr val 16) 255; Z.land (Z.shiftr val 8) 255;
                   Z.land val 255].

(** [Decode] on input without line breaks: quanta of four characters; the
    last one may end in one or two padding characters, after which nothing
    may follow. [None] is a [CorruptInputError]. *)
Fixpoint decodeQuanta (src : list Z) : option (list Z) :=
  match src with
  | [] => Some []
  | c0 :: c1 :: c2 :: c3 :: rest =>
      match decodeMap c0, decodeMap c1 with
      | Some d0, Some d1 =>
          match decodeMap c2 with
          | Some d2 =>
              match decodeMap c3 with
              | Some d3 =>
                  match decodeQuanta rest with
                  | Some out => Some (quantum d0 d1 d2 d3 4 ++ out)
                  | None => None
                  end
              | None =>
                  if (c3 =? padChar) && bool_decide (rest = [])
                  then Some (quantum d0 d1 d2 0 3) else None
              end
          | None =>
              if (c2 =? padChar) && (c3 =? padChar) && bool_decide (rest = [])
              then Some (quantum d0 d1 0 0 2) else None
          end
      | _, _ => None
      end
  | _ => None
  end.

(** [Decode] skips ['\r'] and ['\n'] wherever they are. *)
Definition Decode (src : list Z) : option (list Z) :=
  decodeQuanta (filter (fun c => c <> 10 /\ c <> 13) src).

Definition EncodeToString (src : string) : string := of_bytes (Encode (bytes_of src)).

Definition DecodeString (s : string) : option string :=
  of_bytes <$> Decode (bytes_of s).

End Base64.

(** [fmt.Sprintf("%d", id)] for an [int64]; twenty digits are enough. *)
Fixpoint digits_of (fuel : nat) (n : Z) (acc : list Z) : list Z :=
  match fuel with
  | O => acc
  | S fuel =>
      let acc := (48 + n mod 10) :: acc in
      if n <? 10 then acc else digits_of fuel (n / 10) acc
  end.

Definition FormatInt (i : Z) : string :=
  of_bytes (if i <? 0 then 45 :: digits_of 20 (- i) [] else digits_of 20 i []).

(** [strconv.ParseInt(s, 10, 64)]: what [strconv.Atoi] does on a 64-bit
    platform. *)
Definition ParseInt (s : string) : option Z := Atoi s.

(** [fmt.Sprintf("%x", b)] for a byte slice: two lower-case digits a byte. *)
Definition hex_digit (v : Z) : Z := if v <? 10 then 48 + v else 87 + v.

Definition hex (b : string) : string :=
  of_bytes (flat_map (fun x => [hex_digit (Z.shiftr x 4); hex_digit (Z.land x 15)])
              (bytes_of b)).

(** [strings.SplitN(s, ":", 2)] when it gives two parts. *)
Fixpoint cut_colon (l : list Z) : option (list Z * list Z) :=
  match l with
  | [] => None
  | b :: l =>
      if b =? 58 then Some ([], l)
      else match cut_colon l with
           | Some (before, after) => Some (b :: before, after)
           | None => None
           end
  end.

Definition SplitN2 (s : string) : option (string * string) :=
  match cut_colon (bytes_of s) with
  | Some (before, after) => Some (of_bytes before, of_bytes after)
  | None => None
  end.

Section Auth.

(** [sha256.Sum256], from a byte string to the 32 bytes of its digest, is
    taken as it comes from Go's library. *)
Variable Sum256 : string -> string.

(** [m.secret]. *)
Variable secret : string.

Definition signatureForID (id : Z) : string :=
  hex (Sum256 (FormatInt id +:+ "|" +:+ secret)).

Definition tokenForUser (id : Z) : string :=
  Base64.EncodeToString (FormatInt id +:+ ":" +:+ signatureForID id).

(** [ValidateToken]; [None] is [ErrInvalidToken]. *)
Definition ValidateToken (token : string) : option Z :=
  if decide (token = "") then None
  else
    match Base64.DecodeString token with
    | None => None
    | Some decoded =>
        match SplitN2 decoded with
        | None => None
        | Some (part0, part1) =>
            match ParseInt part0 with
            | None => None
            | Some id =>
                if decide (part1 ≠ signatureForID id) then None else Some id
            end
        end
    end.

End Auth.

(** ** The authentication service: accounts *)

(** [PGUserRepository.GetByLogin]: the row with the login, which is
    [UNIQUE], and its id. *)
Definition GetByLogin (login : string) : Op (Z * User) := fun s =>
  match filter (fun row => Login (snd row) = login) (map_to_list (users s)) with
  | [] => (inl ErrUserNotFound, s)
  | row :: _ => (inr row, s)
  end.

Inductive AuthErr : Type :=
| ErrLoginTaken
| ErrInvalidCredentials
| ErrHashPassword                 (* ["hash password: %w"] *)
| ErrUsers (err : Err).           (* an error of the repository, passed on *)

Global Instance AuthErr_eq_dec : EqDecision AuthErr.
Proof. solve_decision. Defined.

(** [decodeAuthRequest]: the body is [None] when it is missing or is not a
    JSON object of a login and a password and nothing else. *)
Definition decodeAuthRequest (body : option (string * string)) : option (string * string) :=
  match body with
  | None => None
  | Some (login, password) =>
      if decide (TrimSpace login = "" \/ TrimSpace password = "") then None
      else Some (login, password)
  end.

(** [authFromCookie]: the cookie named [token], if any; [next] gets the
    user id in the context of the request. *)
Definition authFromCookie {A} (validate : string -> option Z) (cookie : option string)
    (unauthorized : A) (next : option Z -> A) : A :=
  match cookie with
  | None => unauthorized
  | Some value =>
      match validate value with
      | None => unauthorized
      | Some userID => next (Some userID)
      end
  end.

Section Accounts.

Variable Sum256 : string -> string.
Variable secret : string.

(** [bcrypt.GenerateFromPassword] at the default cost, from the password
    and the random salt it draws, [None] when it fails; and
    [bcrypt.CompareHashAndPassword], [true] when it returns no error. Both
    are taken as they come from the library. *)
Variable GenerateFromPassword : string -> string -> option string.
Variable CompareHashAndPassword : string -> string -> bool.

Definition AuthManager_Register (login password salt : string) : Store -> (AuthErr + string) * Store :=
  fun s =>
    if decide (TrimSpace login = "" \/ TrimSpace password = "")
    then (inl ErrInvalidCredentials, s)
    else
      match GenerateFromPassword password salt with
      | None => (inl ErrHashPassword, s)
      | Some hash =>
          match PG.CreateUser login hash s with
          | (inl err, s') =>
              (inl (if decide (err = ErrUserExists) then ErrLoginTaken else ErrUsers err), s')
          | (inr id, s') => (inr (tokenForUser Sum256 secret id), s')
          end
      end.

Definition AuthManager_Login (login password : string) : Store -> AuthErr + string := fun s =>
  if decide (TrimSpace login = "" \/ TrimSpace password = "")
  then inl ErrInvalidCredentials
  else
    match fst (GetByLogin login s) with
    | inl err =>
        inl (if decide (err = ErrUserNotFound) then ErrInvalidCredentials else ErrUsers err)
    | inr (id, user) =>
        if CompareHashAndPassword (PasswordHash user) password
        then inr (tokenForUser Sum256 secret id)
        else inl ErrInvalidCredentials
    end.

(** [handleRegister] and [handleLogin]: the status code and the value of
    the [token] cookie they set. *)
Definition handleRegister (method : string) (body : option (string * string))
    (salt : string) (s : Store) : (Z * option string) * Store :=
  if decide (method ≠ "POST") then ((StatusMethodNotAllowed, None), s)
  else
    match decodeAuthRequest body with
    | None => ((StatusBadRequest, None), s)
    | Some (login, password) =>
        match AuthManager_Register login password salt s with
        | (inl err, s') =>
            ((if decide (err = ErrLoginTaken) then StatusConflict
              else if decide (err = ErrInvalidCredentials) then StatusBadRequest
              else StatusInternalServerError, None), s')
        | (inr token, s') => ((StatusOK, Some token), s')
        end
    end.

Definition handleLogin (method : string) (body : option (string * string))
    (s : Store) : Z * option string :=
  if decide (method ≠ "POST") then (StatusMethodNotAllowed, None)
  else
    match decodeAuthRequest body with
    | None => (StatusBadRequest, None)
    | Some (login, password) =>
        match AuthManager_Login login password s with
        | inl err =>
            (if decide (err = ErrInvalidCredentials) then StatusUnauthorized
             else StatusInternalServerError, None)
        | inr token => (StatusOK, Some token)
        end
    end.

End Accounts.

(** ** The route [/api/user/orders] for a [GET] *)

(** [strings.Contains]. *)
Fixpoint Contains (s substr : string) : bool :=
  String.prefix substr s
  || match s with
     | EmptyString => false
     | String _ s' => Contains s' substr
     end.

(** [strings.ToLower] on a string without non-ASCII bytes. *)
Definition ToLower_ASCII (s : string) : string :=
  of_bytes (map (fun c => if between 65 90 c then c + 32 else c) (bytes_of s)).

(** Without the compressing writer a handler's calls reach the writer of
    the server as they are. *)
Definition direct (calls : list Call) : list Out :=
  map (fun c => match c with
                | CHeaderSet k v => HeaderSet k v
                | CWriteHeader st => RWWriteHeader st
                | CWrite b => RWWrite b
                | CFlush => RWFlush
                end) calls.

Section OrdersRoute.

(** [strings.ToLower], [json.NewEncoder(w).Encode] on the list of orders,
    which writes the document in one piece, and the token check of the
    authentication service. *)
Variable ToLower : string -> string.
Variable encode_orders : list orderResponse -> list Z.
Variable validate : string -> option Z.

Definition shouldUseGzip (method path acceptEncoding : string) : bool :=
  if decide (method ≠ "GET") then false
  else if decide (path ≠ "/api/user/orders" /\ path ≠ "/api/user/withdrawals") then false
  else Contains (ToLower acceptEncoding) "gzip".

(** [handleListOrders], as the calls it makes on its writer. *)
Definition handleListOrders_calls (method : string) (ctxUser : option Z)
    (scan : list (string * Order)) : list Call :=
  if decide (method ≠ "GET") then [CWriteHeader StatusMethodNotAllowed]
  else
    match ctxUser with
    | None => [CWriteHeader StatusUnauthorized]
    | Some userID =>
        let orders := ListUserOrders_in scan userID in
        if decide (length orders = 0%nat) then [CWriteHeader StatusNoContent]
        else [CHeaderSet "Content-Type" "application/json"; CWriteHeader StatusOK;
              CWrite (encode_orders (map order_item orders))]
    end.

(** [handleOrders] for a request that is not a [POST]. *)
Definition handleOrders_calls (method : string) (ctxUser : option Z)
    (scan : list (string * Order)) : list Call :=
  if decide (method = "GET") then handleListOrders_calls method ctxUser scan
  else [CWriteHeader StatusMethodNotAllowed].

(** The handler [NewRouter] registers for the path, on a [GET]:
    [decompressGzip] passes a request that is not a [POST] on;
    [wrapHandlerForGzip] wraps the writer when [shouldUseGzip] says so;
    [authFromCookie] runs inside. *)
Definition orders_route_get (acceptEncoding : string) (cookie : option string)
    (scan : list (string * Order)) : list Out :=
  let next :=
    authFromCookie validate cookie [CWriteHeader StatusUnauthorized]
      (fun ctxUser => handleOrders_calls "GET" ctxUser scan) in
  if shouldUseGzip "GET" "/api/user/orders" acceptEncoding
  then wrapHandlerForGzip next
  else direct next.

End OrdersRoute.

(** ** The token check of the server

    [main] makes the authentication service with the secret of the
    configuration: [service.NewAuthManager(userRepo, cfg.TokenSecret)]. *)
Definition server_ValidateToken (Sum256 : string -> string) (env : Env) (flags : Flags)
  : string -> option Z :=
  ValidateToken Sum256 (TokenSecret (LoadConfig env flags)).

(** * Properties *)

(** ** Strings *)

Lemma of_bytes_bytes_of s : of_bytes (bytes_of s) = s.
Proof.
  unfold of_bytes, bytes_of. rewrite map_map.
  rewrite (map_ext _ id), map_id; [apply String.string_of_list_ascii_of_string|].
  intros c. simpl. rewrite N2Z.id. apply Ascii.ascii_N_embedding.
Qed.

Lemma bytes_of_range s : Forall (fun b => 0 <= b < 256) (bytes_of s).
Proof.
  unfold bytes_of. apply Forall_map, Forall_forall. intros c _. simpl.
  pose proof (Ascii.N_ascii_bounded c). lia.
Qed.

Lemma DecodeRune_width p :
  p ≠ [] -> (1 <= snd (DecodeRune p) <= length p)%nat.
Proof.
  intros Hp. destruct p as [|b0 t]; [done|].
  unfold DecodeRune. repeat case_match; simpl; lia.
Qed.

Lemma decode_aux_concat fuel p :
  (length p <= fuel)%nat -> concat (map snd (decode_aux fuel p)) = p.
Proof.
  revert p. induction fuel as [|fuel IH]; intros p Hlen.
  - destruct p; [done | simpl in Hlen; lia].
  - destruct p as [|b t]; [done|].
    cbn [decode_aux]. destruct (DecodeRune (b :: t)) as [r w] eqn:Hd.
    pose proof (DecodeRune_width (b :: t) ltac:(done)) as Hw. rewrite Hd in Hw. simpl snd in Hw.
    cbn [map snd concat]. rewrite IH.
    + apply take_drop.
    + rewrite length_drop. simpl in *. lia.
Qed.

Lemma decode_concat p : concat (map snd (decode p)) = p.
Proof. apply decode_aux_concat. done. Qed.

Lemma decode_aux_ascii fuel p :
  (length p <= fuel)%nat -> Forall (fun b => b < 128) p ->
  decode_aux fuel p = map (fun b => (b, [b])) p.
Proof.
  revert p. induction fuel as [|fuel IH]; intros p Hlen Hp.
  - destruct p; [done | simpl in Hlen; lia].
  - destruct p as [|b t]; [done|].
    inversion Hp as [|? ? Hb Ht]; subst.
    cbn [decode_aux DecodeRune]. unfold RuneSelf.
    replace (b <? 128) with true by lia.
    simpl. rewrite drop_0. f_equal. apply IH; [simpl in Hlen; lia | done].
Qed.

Lemma runes_ascii s :
  Forall (fun b => b < 128) (bytes_of s) -> runes s = bytes_of s.
Proof.
  intros H. unfold runes, decode. rewrite decode_aux_ascii by done.
  rewrite map_map. simpl. apply map_id.
Qed.

Lemma in_ranges_apart t1 t2 r :
  ranges_apart t1 t2 = true -> in_ranges t1 r = true -> in_ranges t2 r = false.
Proof.
  unfold ranges_apart, in_ranges. intros Ha H1.
  apply existsb_exists in H1 as [[lo hi] [Hin Hb]].
  rewrite forallb_forall in Ha. specialize (Ha _ Hin). simpl in Ha.
  rewrite forallb_forall in Ha.
  apply not_true_is_false. intros H2.
  apply existsb_exists in H2 as [[lo' hi'] [Hin' Hb']].
  specialize (Ha _ Hin'). simpl in Ha. unfold between in *. lia.
Qed.

Lemma IsDigit_not_space r : IsDigit r = true -> IsSpace r = false.
Proof.
  unfold IsDigit, IsSpace, MaxLatin1.
  destruct (r <=? 255) eqn:Hr.
  - unfold between. intros H. replace ((0 <=? r) && (r <=? 255)) with true by lia. lia.
  - intros H. replace (between 0 255 r) with false by (unfold between; lia).
    revert H. apply in_ranges_apart. vm_compute. reflexivity.
Qed.

Lemma drop_while_none {A} (f : A -> bool) l :
  Forall (fun x => f x = false) l -> drop_while f l = l.
Proof. destruct 1 as [|x l Hx _]; [done|]. simpl. by rewrite Hx. Qed.

Lemma trim_chunks_none cs :
  Forall (fun c => IsSpace (fst c) = false) cs -> trim_chunks cs = cs.
Proof.
  intros H. unfold trim_chunks.
  rewrite (drop_while_none _ cs) by done.
  rewrite drop_while_none; [apply rev_involutive|].
  by apply Forall_rev.
Qed.

(** A string of digits has nothing to trim. *)
Lemma TrimSpace_digits t :
  forallb IsDigit (runes t) = true -> TrimSpace t = t.
Proof.
  intros H. unfold TrimSpace. rewrite trim_chunks_none.
  - by rewrite decode_concat, of_bytes_bytes_of.
  - unfold runes in H. rewrite forallb_forall in H.
    apply Forall_forall. intros c Hc. apply IsDigit_not_space, H.
    apply in_map, list_elem_of_In, Hc.
Qed.

Lemma ValidateOrderNumber_None s :
  ValidateOrderNumber s = None <->
  TrimSpace s ≠ "" /\ forallb IsDigit (runes (TrimSpace s)) = true /\ Luhn (TrimSpace s) = true.
Proof.
  unfold ValidateOrderNumber.
  destruct (decide (TrimSpace s = "")) as [Heq|Hne].
  { split; [discriminate | intros [? _]; contradiction]. }
  destruct (forallb IsDigit _); simpl.
  2: { split; [discriminate | intros (_ & ? & _); discriminate]. }
  destruct (Luhn _); simpl.
  - split; [by intros _ | done].
  - split; [discriminate | intros (_ & _ & ?); discriminate].
Qed.

Lemma ValidateOrderNumber_trimmed s :
  ValidateOrderNumber s = None ->
  TrimSpace (TrimSpace s) = TrimSpace s /\ ValidateOrderNumber (TrimSpace s) = None.
Proof.
  intros H. apply ValidateOrderNumber_None in H as (Hne & Hd & Hl).
  assert (Ht : TrimSpace (TrimSpace s) = TrimSpace s) by by apply TrimSpace_digits.
  split; [done|]. apply ValidateOrderNumber_None. by rewrite Ht.
Qed.

(** ** The Luhn loop computes the Luhn sum *)

Lemma luhn_loop_sum bs sum double :
  Forall ascii_digit bs ->
  fst (luhn_loop bs (sum, double)) = sum + luhn_sum (map digit_value bs) double.
Proof.
  intros H. revert sum double. induction H as [|b bs Hb _ IH]; intros sum double.
  - simpl. lia.
  - cbn [luhn_loop map luhn_sum]. unfold luhn_step. 
    unfold ascii_digit in Hb.
    replace ((b - 48) mod 256) with (b - 48) by (symmetry; apply Z.mod_small; lia).
    rewrite IH. unfold luhn_digit, digit_value.
    destruct double; simpl; repeat case_match; lia.
Qed.

Lemma luhn_sum_nonneg ds second :
  Forall (fun d => 0 <= d) ds -> 0 <= luhn_sum ds second.
Proof.
  intros H. revert second. induction H as [|d ds Hd _ IH]; intros second; simpl; [lia|].
  specialize (IH (negb second)). unfold luhn_digit. repeat case_match; lia.
Qed.

Lemma Luhn_digits t :
  Forall ascii_digit (bytes_of t) ->
  Luhn t = true <-> luhn_valid (map digit_value (bytes_of t)).
Proof.
  intros H. unfold Luhn, luhn_valid.
  rewrite luhn_loop_sum by by apply Forall_rev.
  rewrite Z.add_0_l, <- map_rev.
  assert (0 <= luhn_sum (map digit_value (rev (bytes_of t))) false).
  { apply luhn_sum_nonneg, Forall_map, Forall_rev.
    eapply Forall_impl; [exact H|]. unfold ascii_digit, digit_value. simpl. lia. }
  rewrite Z.rem_mod_nonneg by lia. lia.
Qed.

(** On ASCII input [ValidateOrderNumber] is the check of the design:
    non-empty after trimming, decimal digits only, Luhn-valid. *)
Lemma ValidateOrderNumber_ascii s :
  Forall (fun b => b < 128) (bytes_of (TrimSpace s)) ->
  ValidateOrderNumber s = None <->
  TrimSpace s ≠ "" /\ Forall ascii_digit (bytes_of (TrimSpace s))
  /\ luhn_valid (map digit_value (bytes_of (TrimSpace s))).
Proof.
  intros Hascii. rewrite ValidateOrderNumber_None, runes_ascii by done.
  assert (Hd : forallb IsDigit (bytes_of (TrimSpace s)) = true
               <-> Forall ascii_digit (bytes_of (TrimSpace s))).
  { rewrite forallb_forall, Forall_forall. 
    split; intros H b Hb.
    - apply list_elem_of_In in Hb. pose proof (H b Hb) as Hx.
      rewrite Forall_forall in Hascii. apply list_elem_of_In in Hb. specialize (Hascii b Hb). simpl in Hascii.
      unfold IsDigit, MaxLatin1, between, ascii_digit in *. 
      replace (b <=? 255) with true in Hx by lia. lia.
    - apply list_elem_of_In in Hb. specialize (H b Hb).
      unfold IsDigit, MaxLatin1, between, ascii_digit in *.
      replace (b <=? 255) with true by lia. lia. }
  split.
  - intros (Hne & Hdig & Hl). apply Hd in Hdig. split; [done|]. split; [done|]. by apply Luhn_digits.
  - intros (Hne & Hdig & Hl). split; [done|]. split; [by apply Hd|]. by apply Luhn_digits.
Qed.

(** A string of ASCII digits that passes the Luhn rule is accepted, with or
    without the ASCII restriction on the rest of the input. *)
Lemma ValidateOrderNumber_complete s :
  TrimSpace s ≠ "" -> Forall ascii_digit (bytes_of (TrimSpace s)) ->
  luhn_valid (map digit_value (bytes_of (TrimSpace s))) ->
  ValidateOrderNumber s = None.
Proof.
  intros Hne Hd Hl. apply ValidateOrderNumber_ascii; [|done].
  eapply Forall_impl; [exact Hd|]. unfold ascii_digit. simpl. lia.
Qed.

Example ValidateOrderNumber_zero : ValidateOrderNumber "0" = None.
Proof. reflexivity. Qed.

(** C6, where the code departs from it: [ValidateOrderNumber] accepts a
    string that is not made of ASCII digits. The digit test is
    [unicode.IsDigit] on runes, which holds for U+0660, and [Luhn] then
    takes the three bytes for digits: 169 + 215 + 6 = 390. *)
Theorem ValidateOrderNumber_accepts_non_ascii_digit :
  runes arabic_zero_six = [0x660; 54]
  /\ ~ Forall ascii_digit (bytes_of (TrimSpace arabic_zero_six))
  /\ ValidateOrderNumber arabic_zero_six = None.
Proof.
  split; [reflexivity|]. split; [|reflexivity].
  intros H.
  assert (Hb : bytes_of (TrimSpace arabic_zero_six) = [217; 160; 54]) by (vm_compute; reflexivity).
  rewrite Hb in H. apply Forall_inv in H. unfold ascii_digit in H. lia.
Qed.

(** ** The rate-limit deadline *)

(** C9. [SetRateLimitUntil t] leaves the deadline at the later of the old
    deadline and [t]: it takes the value [t] exactly when [t] is after the
    old deadline, and it never moves the deadline back. *)
Theorem SetRateLimitUntil_max t until :
  SetRateLimitUntil t until = Z.max until t
  /\ (SetRateLimitUntil t until = t /\ SetRateLimitUntil t until ≠ until <-> t > until)
  /\ until <= SetRateLimitUntil t until.
Proof.
  unfold SetRateLimitUntil. destruct (t >? until) eqn:E; lia.
Qed.

(** ** [ApplyOrderAccrual] *)

Lemma ApplyOrderAccrual_applied s number a o :
  orders s !! number = Some o -> AccrualApplied o = true ->
  PG.ApplyOrderAccrual number a s = (inr false, set_queue (delete number) s).
Proof. intros Ho Ha. unfold PG.ApplyOrderAccrual. by rewrite Ho, Ha. Qed.

Lemma ApplyOrderAccrual_fresh s number a o :
  orders s !! number = Some o -> AccrualApplied o = false ->
  PG.ApplyOrderAccrual number a s =
    (inr true,
     set_queue (delete number)
       (set_users (alter (PG.credit a) (UserID o))
          (set_orders (insert number
             (mkOrder (UserID o) statusProcessed (Some a) (UploadedAt o) true)) s))).
Proof. intros Ho Ha. unfold PG.ApplyOrderAccrual. by rewrite Ho, Ha. Qed.

Lemma apply_all_applied number amounts s o :
  orders s !! number = Some o -> AccrualApplied o = true ->
  fst (apply_all number amounts s) = map (fun _ => inr false) amounts
  /\ orders (snd (apply_all number amounts s)) = orders s
  /\ users (snd (apply_all number amounts s)) = users s
  /\ withdrawals (snd (apply_all number amounts s)) = withdrawals s.
Proof.
  intros Ho Ha. revert s Ho. induction amounts as [|a rest IH]; intros s Ho; [done|].
  cbn [apply_all]. rewrite (ApplyOrderAccrual_applied _ _ _ _ Ho Ha).
  destruct (apply_all number rest (set_queue (delete number) s)) as [rs s2] eqn:E.
  specialize (IH (set_queue (delete number) s) Ho). rewrite E in IH. simpl in *.
  destruct IH as (-> & -> & -> & ->). done.
Qed.



(** ** [UpdateOrderStatus] *)

(** C3, where the PostgreSQL repository departs from it: [UpdateOrderStatus]
    with status PROCESSED lowers [accrual_applied] of an order whose accrual
    was applied. Before the call [ApplyOrderAccrual] refuses to credit the
    order again; after it, it credits the owner a second time. *)
Theorem PG_UpdateOrderStatus_processed_resets_applied s number accrual o a :
  orders s !! number = Some o -> AccrualApplied o = true ->
  let s1 := snd (PG.UpdateOrderStatus number statusProcessed accrual s) in
  (exists o1, orders s1 !! number = Some o1
     /\ Status o1 = statusProcessed /\ AccrualApplied o1 = false)
  /\ fst (PG.ApplyOrderAccrual number a s) = inr false
  /\ fst (PG.ApplyOrderAccrual number a s1) = inr true
  /\ (forall u, users s !! UserID o = Some u ->
        balance_of (snd (PG.ApplyOrderAccrual number a s)) (UserID o) = Some (Balance u)
        /\ balance_of (snd (PG.ApplyOrderAccrual number a s1)) (UserID o)
           = Some (Balance u + a)).
Proof.
  intros Ho Ha s1.
  set (o1 := mkOrder (UserID o) statusProcessed
               (match accrual with Some x => Some x | None => Accrual o end)
               (UploadedAt o) false).
  assert (Ho1 : orders s1 !! number = Some o1).
  { subst s1. simpl. rewrite lookup_alter_eq, Ho. by destruct accrual. }
  split; [by exists o1|].
  rewrite (ApplyOrderAccrual_applied s number a o Ho Ha).
  rewrite (ApplyOrderAccrual_fresh s1 number a o1 Ho1 eq_refl).
  split; [done|]. split; [done|].
  intros u Hu. unfold balance_of. simpl. rewrite Hu.
  split; [done|]. by rewrite lookup_alter_eq, Hu.
Qed.

Lemma PG_UpdateOrderStatus_processed_resets_applied_witness :
  orders applied_store !! "18" = Some applied_order
  /\ AccrualApplied applied_order = true
  /\ fst (PG.ApplyOrderAccrual "18" 500 applied_store) = inr false
  /\ fst (PG.ApplyOrderAccrual "18" 500
            (snd (PG.UpdateOrderStatus "18" statusProcessed None applied_store))) = inr true.
Proof.
  assert (H1 : orders applied_store !! "18" = Some applied_order) by (vm_compute; reflexivity).
  assert (H2 : AccrualApplied applied_order = true) by reflexivity.
  split; [exact H1|]. split; [exact H2|].
  destruct (PG_UpdateOrderStatus_processed_resets_applied
              applied_store "18" None applied_order 500 H1 H2) as (_ & Hb & Ha & _).
  split; [exact Hb | exact Ha].
Defined.

(** On the store of order 18, applied with 5.00: the flag falls and the
    balance goes from 5.00 to 10.00. *)
Example PG_UpdateOrderStatus_double_credit :
  let s1 := snd (PG.UpdateOrderStatus "18" statusProcessed None applied_store) in
  orders s1 !! "18" = Some (mkOrder 1 statusProcessed (Some 500) 7 false)
  /\ balance_of applied_store 1 = Some 500
  /\ balance_of (snd (PG.ApplyOrderAccrual "18" 500 s1)) 1 = Some 1000.
Proof. vm_compute. done. Qed.

Lemma PG_UpdateOrderStatus_spec s number status accrual o :
  orders s !! number = Some o ->
  exists s1,
    PG.UpdateOrderStatus number status accrual s = (inr (), s1)
    /\ orders s1 =
         <[number := mkOrder (UserID o) status
                       (match accrual with Some a => Some a | None => Accrual o end)
                       (UploadedAt o) false]> (orders s)
    /\ users s1 = users s /\ queue s1 = queue s /\ withdrawals s1 = withdrawals s.
Proof.
  intros Ho. eexists. split; [reflexivity|]. simpl. split; [|done].
  apply map_eq. intros k. destruct (decide (k = number)) as [->|Hk].
  - rewrite lookup_alter_eq, lookup_insert_eq, Ho. by destruct accrual.
  - by rewrite lookup_alter_ne, lookup_insert_ne.
Qed.

(** The in-memory repository does what C3 says. *)
Lemma Mem_UpdateOrderStatus_spec m number status accrual o :
  Mem.m_orders m !! number = Some o ->
  exists m1,
    Mem.UpdateOrderStatus number status accrual m = (inr (), m1)
    /\ Mem.m_orders m1 =
         <[number := mkOrder (UserID o) status accrual (UploadedAt o)
                       (if decide (status = statusProcessed) then AccrualApplied o else false)]>
           (Mem.m_orders m)
    /\ Mem.m_queue m1 = Mem.m_queue m /\ Mem.balances m1 = Mem.balances m.
Proof.
  intros Ho. unfold Mem.UpdateOrderStatus. rewrite Ho. eexists. split; [reflexivity|].
  simpl. split; [|done]. f_equal. f_equal.
  destruct (decide (status = statusProcessed)) as [->|Hne].
  - by rewrite bool_decide_eq_false_2 by (intros H; by apply H).
  - by rewrite bool_decide_eq_true_2.
Qed.

(** ** Rounding to the hundredth *)

Lemma Qltb_lt x y : Qltb x y = true <-> (x < y)%Q.
Proof.
  unfold Qltb. rewrite negb_true_iff. split.
  - intros H. apply Qnot_le_lt. intros Hle. apply Qle_bool_iff in Hle. congruence.
  - intros H. destruct (Qle_bool y x) eqn:E; [|done].
    apply Qle_bool_iff in E. apply Qlt_not_le in H. done.
Qed.

Lemma Qltb_ge x y : Qltb x y = false <-> (y <= x)%Q.
Proof. unfold Qltb. rewrite negb_false_iff. apply Qle_bool_iff. Qed.

Lemma Qle_bool_gt x y : Qle_bool x y = false <-> (y < x)%Q.
Proof. rewrite <- (negb_true_iff (Qle_bool x y)). apply (Qltb_lt y x). Qed.

Lemma Qfloor_unique q z : (inject_Z z <= q)%Q -> (q < inject_Z (z + 1))%Q -> Qfloor q = z.
Proof.
  intros Hl Hu. pose proof (Qfloor_le q) as H1. pose proof (Qlt_floor q) as H2.
  assert (Ha : (inject_Z z < inject_Z (Qfloor q + 1))%Q) by (eapply Qle_lt_trans; eauto).
  assert (Hb : (inject_Z (Qfloor q) < inject_Z (z + 1))%Q) by (eapply Qle_lt_trans; eauto).
  rewrite <- Zlt_Qlt in Ha, Hb. lia.
Qed.

Lemma Qceiling_unique q z : (inject_Z (z - 1) < q)%Q -> (q <= inject_Z z)%Q -> Qceiling q = z.
Proof.
  intros Hl Hu. pose proof (Qle_ceiling q) as H1. pose proof (Qceiling_lt q) as H2.
  assert (Ha : (inject_Z (z - 1) < inject_Z (Qceiling q))%Q) by (eapply Qlt_le_trans; eauto).
  assert (Hb : (inject_Z (Qceiling q - 1) < inject_Z z)%Q) by (eapply Qlt_le_trans; eauto).
  rewrite <- Zlt_Qlt in Ha, Hb. lia.
Qed.

Lemma round_half_away_comp x y : (x == y)%Q -> round_half_away x = round_half_away y.
Proof.
  intros H. unfold round_half_away. rewrite (Qleb_comp 0%Q 0%Q (Qeq_refl 0%Q) x y H).
  destruct (Qle_bool 0 y); [apply Qfloor_comp | apply Qceiling_comp]; by rewrite H.
Qed.

Lemma inject_Z_succ z : (inject_Z (z + 1) == inject_Z z + 1)%Q.
Proof. by rewrite inject_Z_plus. Qed.

Lemma inject_Z_pred z : (inject_Z (z - 1) == inject_Z z - 1)%Q.
Proof. unfold Z.sub. rewrite inject_Z_plus, inject_Z_opp. reflexivity. Qed.

(** A whole number of hundredths is kept as it is. *)
Lemma round_half_away_Z z : round_half_away (inject_Z z) = z.
Proof.
  unfold round_half_away. destruct (Qle_bool 0%Q z) eqn:E.
  - apply Qfloor_unique; rewrite ?inject_Z_succ; lra.
  - apply Qceiling_unique; rewrite ?inject_Z_pred; lra.
Qed.

Lemma round_half_away_nonneg q : (0 <= q)%Q -> 0 <= round_half_away q.
Proof.
  intros Hq. unfold round_half_away. rewrite (proj2 (Qle_bool_iff 0%Q q) Hq).
  replace 0 with (Qfloor 0) by reflexivity. apply Qfloor_resp_le. lra.
Qed.

(** Adding a number that is not negative to a whole one that is not
    negative, the rounding is that of the number added. *)
Lemma round_half_away_add z q :
  0 <= z -> (0 <= q)%Q -> round_half_away (inject_Z z + q) = z + round_half_away q.
Proof.
  intros Hz Hq. unfold round_half_away.
  assert (Hz' : (inject_Z 0 <= inject_Z z)%Q) by (by rewrite <- Zle_Qle).
  change (inject_Z 0) with 0%Q in Hz'.
  rewrite (proj2 (Qle_bool_iff 0%Q q) Hq).
  rewrite (proj2 (Qle_bool_iff 0%Q (inject_Z z + q)%Q)) by lra.
  pose proof (Qfloor_le (q + (1 # 2))) as H1. pose proof (Qlt_floor (q + (1 # 2))) as H2.
  rewrite inject_Z_succ in H2.
  apply Qfloor_unique; rewrite ?inject_Z_succ, !inject_Z_plus; lra.
Qed.

Lemma round_half_away_sub_Z b a : round_half_away (inject_Z b - inject_Z a) = b - a.
Proof.
  rewrite <- (round_half_away_Z (b - a)). apply round_half_away_comp.
  unfold Z.sub. rewrite inject_Z_plus, inject_Z_opp. reflexivity.
Qed.

Lemma round_half_away_add_Z b a : round_half_away (inject_Z b + inject_Z a) = b + a.
Proof.
  rewrite <- (round_half_away_Z (b + a)). apply round_half_away_comp.
  by rewrite inject_Z_plus.
Qed.

(** ** [Withdraw] *)




(** The service in front of it adds the two validations and nothing else. *)
Lemma WithdrawManager_Withdraw_valid userID order amount now w :
  ValidateOrderNumber order = None -> (0 < amount)%Q ->
  WithdrawManager_Withdraw userID order amount now w
  = call (PG.Withdraw userID (TrimSpace order) amount now) w.
Proof.
  intros Hv Ha. unfold WithdrawManager_Withdraw.
  destruct (ValidateOrderNumber_trimmed _ Hv) as [_ ->].
  by rewrite (proj2 (Qle_bool_gt _ _) Ha).
Qed.

(** ** [SubmitOrder] *)

Lemma SubmitOrder_new userID number now w :
  ValidateOrderNumber number = None ->
  orders (store w) !! TrimSpace number = None ->
  SubmitOrder userID number now w =
    (inr true,
     let s1 := set_orders (insert (TrimSpace number) (mkOrder userID statusNew None now false))
                 (store w) in
     let s2 := snd (PG.UpsertProcessing (TrimSpace number) statusNew s1) in
     mkWorld s2 (rateLimitUntil w) (points w ++ [store w] ++ [s1] ++ [s2])).
Proof.
  intros Hv Hfree. unfold SubmitOrder.
  destruct (ValidateOrderNumber_trimmed _ Hv) as [_ ->].
  unfold bind, try, call, PG.GetByNumber, PG.CreateOrder. simpl.
  rewrite Hfree. simpl. rewrite Hfree. simpl.
  by rewrite <- !app_assoc.
Qed.

Lemma SubmitOrder_existing userID number now w o :
  ValidateOrderNumber number = None ->
  orders (store w) !! TrimSpace number = Some o ->
  SubmitOrder userID number now w =
    (if decide (UserID o = userID) then inr false else inl ErrOrderOwnedByAnother,
     mkWorld (store w) (rateLimitUntil w) (points w ++ [store w])).
Proof.
  intros Hv Ho. unfold SubmitOrder.
  destruct (ValidateOrderNumber_trimmed _ Hv) as [_ ->].
  unfold bind, try, call, PG.GetByNumber, resolve_owner. simpl.
  rewrite Ho. simpl. by destruct (decide (UserID o = userID)).
Qed.

Lemma handleCreateOrder_submit userID body now w :
  ValidateOrderNumber body = None ->
  handleCreateOrder (create_request userID body) now w =
    match SubmitOrder userID body now w with
    | (inl err, w') =>
        (if decide (err = ErrInvalidOrderNumber) then StatusUnprocessableEntity
         else if decide (err = ErrOrderOwnedByAnother) then StatusConflict
         else StatusInternalServerError, w')
    | (inr created, w') => (if created then StatusAccepted else StatusOK, w')
    end.
Proof.
  intros Hv. unfold handleCreateOrder, create_request.
  cbn [Method ContentType Body ctxUserID].
  rewrite decide_False by (intros H; by apply H).
  replace (bool_decide ("text/plain" = "") || negb (String.prefix "text/plain" "text/plain"))
    with false by (vm_compute; reflexivity).
  destruct (ValidateOrderNumber_trimmed _ Hv) as [Ht ->].
  assert (Hs : SubmitOrder userID (TrimSpace body) now w = SubmitOrder userID body now w).
  { unfold SubmitOrder. by rewrite Ht. }
  rewrite Hs. destruct (SubmitOrder userID body now w) as [[err|created] w'].
  - repeat case_decide; done.
  - by destruct created.
Qed.

(** C5. For a number that passes validation and has no order row, a first
    [SubmitOrder] creates the order with status NEW for the submitting user,
    puts a NEW entry in the queue and returns created = true (HTTP 202). In
    the state it leaves, the same user gets created = false without an error
    (HTTP 200) and any other user gets [ErrOrderOwnedByAnother] (HTTP 409);
    neither changes the store. *)
Theorem SubmitOrder_idempotent userID number now w :
  ValidateOrderNumber number = None ->
  orders (store w) !! TrimSpace number = None ->
  exists w1,
    SubmitOrder userID number now w = (inr true, w1)
    /\ orders (store w1) !! TrimSpace number = Some (mkOrder userID statusNew None now false)
    /\ (exists row, queue (store w1) !! TrimSpace number = Some row /\ qstatus row = statusNew)
    /\ fst (handleCreateOrder (create_request userID number) now w) = StatusAccepted
    /\ (forall now', exists w2,
          SubmitOrder userID number now' w1 = (inr false, w2) /\ store w2 = store w1
          /\ fst (handleCreateOrder (create_request userID number) now' w1) = StatusOK)
    /\ (forall other now', other ≠ userID -> exists w2,
          SubmitOrder other number now' w1 = (inl ErrOrderOwnedByAnother, w2)
          /\ store w2 = store w1
          /\ fst (handleCreateOrder (create_request other number) now' w1) = StatusConflict).
Proof.
  intros Hv Hfree. eexists. split; [by apply SubmitOrder_new|].
  match goal with |- context [store ?x] => set (w1 := x) end.
  assert (Ho : orders (store w1) !! TrimSpace number
               = Some (mkOrder userID statusNew None now false)).
  { subst w1. simpl. apply lookup_insert_eq. }
  split; [exact Ho|]. split.
  { subst w1. simpl. eexists. split; [apply lookup_insert_eq|]. by case_match. }
  split.
  { rewrite handleCreateOrder_submit by done. by rewrite SubmitOrder_new. }
  split.
  - intros now'. eexists.
    rewrite handleCreateOrder_submit by done.
    rewrite (SubmitOrder_existing _ _ _ _ _ Hv Ho). simpl.
    rewrite decide_True by done. done.
  - intros other now' Hne. eexists.
    rewrite handleCreateOrder_submit by done.
    rewrite (SubmitOrder_existing _ _ _ _ _ Hv Ho). simpl.
    rewrite decide_False by done. done.
Qed.

Lemma SubmitOrder_idempotent_witness :
  ValidateOrderNumber " 18 " = None
  /\ orders (store init_world) !! TrimSpace " 18 " = None
  /\ exists w1,
       SubmitOrder 1 " 18 " 100 init_world = (inr true, w1)
       /\ orders (store w1) !! TrimSpace " 18 " = Some (mkOrder 1 statusNew None 100 false).
Proof.
  assert (H1 : ValidateOrderNumber " 18 " = None) by (vm_compute; reflexivity).
  assert (H2 : orders (store init_world) !! TrimSpace " 18 " = None) by (vm_compute; reflexivity).
  split; [exact H1|]. split; [exact H2|].
  destruct (SubmitOrder_idempotent 1 " 18 " 100 init_world H1 H2) as (w1 & Hr & Ho & _).
  exists w1. split; [exact Hr | exact Ho].
Defined.

(** ** [ClaimNextForProcessing] *)

Global Instance key_le_trans : Transitive PG.key_le.
Proof. intros x y z. unfold PG.key_le. lia. Qed.

Global Instance key_le_total : Total PG.key_le.
Proof. intros x y. unfold PG.key_le. lia. Qed.

Lemma select_next_None scan :
  PG.select_next scan = None <-> forall r, r ∈ scan -> PG.eligible (snd r) = false.
Proof.
  unfold PG.select_next. rewrite fmap_None, head_None. split.
  - intros Hnil r Hr. apply not_true_is_false. intros He.
    assert (Hin : r ∈ merge_sort PG.key_le (filter (fun r => PG.eligible (snd r) = true) scan)).
    { rewrite merge_sort_Permutation. apply list_elem_of_filter. done. }
    rewrite Hnil in Hin. by apply elem_of_nil in Hin.
  - intros Hall.
    assert (Hf : filter (fun r => PG.eligible (snd r) = true) scan = []).
    { destruct (filter _ scan) as [|r l] eqn:E; [done|].
      assert (Hr : r ∈ filter (fun r => PG.eligible (snd r) = true) scan)
        by (rewrite E; left).
      apply list_elem_of_filter in Hr as [He Hr]. rewrite (Hall r Hr) in He. done. }
    rewrite Hf. done.
Qed.

Lemma select_next_Some scan number :
  PG.select_next scan = Some number ->
  exists e, (number, e) ∈ scan /\ PG.eligible e = true
    /\ forall r, r ∈ scan -> PG.eligible (snd r) = true ->
         PG.coalesce_epoch e <= PG.coalesce_epoch (snd r).
Proof.
  unfold PG.select_next. intros H.
  apply fmap_Some in H as ([n e] & Hhead & ->). simpl.
  apply head_Some in Hhead as [rest Hsorted].
  pose proof (StronglySorted_merge_sort PG.key_le
                (filter (fun r => PG.eligible (snd r) = true) scan)) as Hss.
  pose proof (merge_sort_Permutation PG.key_le
                (filter (fun r => PG.eligible (snd r) = true) scan)) as Hperm.
  rewrite Hsorted in Hss, Hperm.
  assert (Hin : (n, e) ∈ filter (fun r => PG.eligible (snd r) = true) scan).
  { rewrite <- Hperm. left. }
  apply list_elem_of_filter in Hin as [He Hin].
  exists e. split; [done|]. split; [done|].
  intros r Hr Hel.
  assert (Hr' : r ∈ (n, e) :: rest).
  { rewrite Hperm. apply list_elem_of_filter. done. }
  apply StronglySorted_inv in Hss as [_ Hall].
  apply elem_of_cons in Hr' as [->|Hr']; [simpl; lia|].
  rewrite Forall_forall in Hall. apply (Hall r Hr').
Qed.

Lemma alter_const_insert {A} (m : gmap string A) k (x y : A) :
  m !! k = Some x -> alter (fun _ => y) k m = <[k := y]> m.
Proof.
  intros Hk. apply map_eq. intros j. destruct (decide (j = k)) as [->|Hj].
  - by rewrite lookup_alter_eq, lookup_insert_eq, Hk.
  - by rewrite lookup_alter_ne, lookup_insert_ne.
Qed.

(** The stores the code makes keep every [last_check] after the epoch. *)
Lemma commit_after_epoch t s :
  clock_after_epoch t -> queue_after_epoch s -> queue_after_epoch (commit t s).
Proof.
  intros Ht Hs number e c. destruct t; simpl in *; try apply Hs.
  - unfold PG.CreateUser. case_decide; apply Hs.
  - unfold PG.CreateOrder. case_match; apply Hs.
  - destruct (decide (number0 = number)) as [->|Hne].
    + rewrite lookup_insert_eq. intros [= <-].
      destruct (queue s !! number) as [e0|] eqn:He0; simpl; [|done]. by apply (Hs number e0).
    + rewrite lookup_insert_ne by done. apply Hs.
  - unfold PG.ClaimNextForProcessing_in. destruct (PG.select_next scan) as [n|]; [|apply Hs].
    simpl. destruct (decide (n = number)) as [->|Hne].
    + rewrite lookup_alter_eq. destruct (queue s !! number); [|done].
      simpl. intros [= <-] [= <-]. done.
    + rewrite lookup_alter_ne by done. apply Hs.
  - destruct (decide (number0 = number)) as [->|Hne].
    + rewrite lookup_alter_eq. destruct (queue s !! number); [|done].
      simpl. intros [= <-] [= <-]. done.
    + rewrite lookup_alter_ne by done. apply Hs.
  - destruct (decide (number0 = number)) as [->|Hne].
    + by rewrite lookup_delete_eq.
    + rewrite lookup_delete_ne by done. apply Hs.
  - unfold PG.ApplyOrderAccrual. destruct (orders s !! number0); [|apply Hs].
    destruct (AccrualApplied o); simpl;
      (destruct (decide (number0 = number)) as [->|Hne];
       [by rewrite lookup_delete_eq | rewrite lookup_delete_ne by done; apply Hs]).
  - unfold PG.Withdraw. repeat case_match; apply Hs.
Qed.

Lemma history_after_epoch ts s :
  Forall clock_after_epoch ts -> queue_after_epoch s ->
  Forall queue_after_epoch (history ts s).
Proof.
  intros Hts. revert s. induction Hts as [|t ts Ht _ IH]; intros s Hs; simpl; [constructor|].
  pose proof (commit_after_epoch t s Ht Hs). constructor; [done | by apply IH].
Qed.

(** C7. On a queue whose [last_check] values are after the Unix epoch, as
    all that the code writes are, [ClaimNextForProcessing] fails with
    [ErrNoQueueItems] exactly when no queue entry has status NEW or
    PROCESSING, and then changes nothing. Otherwise it returns the number of
    an eligible entry whose [last_check] is the smallest among the eligible
    entries, NULL being older than every timestamp, and the same
    transaction sets that entry to PROCESSING with [last_check] the current
    time; no other row changes. This holds whatever the order in which the
    table is read. *)
Theorem ClaimNextForProcessing_spec scan now s :
  scan ≡ₚ map_to_list (queue s) ->
  queue_after_epoch s ->
  (fst (PG.ClaimNextForProcessing_in scan now s) = inl ErrNoQueueItems
     <-> forall number e, queue s !! number = Some e -> PG.eligible e = false)
  /\ (fst (PG.ClaimNextForProcessing_in scan now s) = inl ErrNoQueueItems ->
        snd (PG.ClaimNextForProcessing_in scan now s) = s)
  /\ ((exists number e, queue s !! number = Some e /\ PG.eligible e = true) ->
        exists number e,
          PG.ClaimNextForProcessing_in scan now s =
            (inr number,
             set_queue (insert number (mkQueueRow (Some now) statusProcessing)) s)
          /\ queue s !! number = Some e /\ PG.eligible e = true
          /\ forall number' e', queue s !! number' = Some e' -> PG.eligible e' = true ->
               null_oldest_le (last_check e) (last_check e')).
Proof.
  intros Hscan Hpos.
  assert (Hmem : forall n e, (n, e) ∈ scan <-> queue s !! n = Some e).
  { intros n e. rewrite Hscan. apply elem_of_map_to_list. }
  unfold PG.ClaimNextForProcessing_in.
  destruct (PG.select_next scan) as [number|] eqn:Hsel.
  - apply select_next_Some in Hsel as (e & Hin & Hel & Hmin).
    apply Hmem in Hin. split; [|split].
    + simpl. split; [done|]. intros Hall. rewrite (Hall _ _ Hin) in Hel. done.
    + done.
    + intros _. exists number, e. split.
      { unfold set_queue. by rewrite (alter_const_insert _ _ e). }
      split; [done|]. split; [done|].
      intros n' e' Hn' He'.
      assert (Hle := Hmin (n', e') (proj2 (Hmem n' e') Hn') He'). simpl in Hle.
      unfold PG.coalesce_epoch in Hle.
      destruct (last_check e) as [t|] eqn:Ht; [|done]. simpl in Hle.
      pose proof (Hpos _ _ _ Hin Ht) as Htpos.
      destruct (last_check e') as [t'|] eqn:Ht'; simpl in *; lia.
  - rewrite select_next_None in Hsel. split; [|split].
    + simpl. split; [|done]. intros _ n e Hn. apply (Hsel (n, e)). by apply Hmem.
    + done.
    + intros (n & e & Hn & He). apply Hmem in Hn. apply Hsel in Hn. simpl in Hn. congruence.
Qed.

Lemma queue_after_epoch_checked_store : queue_after_epoch checked_store.
Proof.
  intros n e t Hn Ht. unfold checked_store in Hn. simpl in Hn.
  apply lookup_insert_Some in Hn as [[_ <-]|[_ Hn]]; [by injection Ht as <-|].
  apply lookup_singleton_Some in Hn as [_ <-]. done.
Qed.

Lemma ClaimNextForProcessing_spec_witness :
  map_to_list (queue checked_store) ≡ₚ map_to_list (queue checked_store)
  /\ queue_after_epoch checked_store
  /\ (exists number e, queue checked_store !! number = Some e /\ PG.eligible e = true)
  /\ fst (PG.ClaimNextForProcessing 200 checked_store) = inr "26"
  /\ exists number e,
       PG.ClaimNextForProcessing_in (map_to_list (queue checked_store)) 200 checked_store =
         (inr number,
          set_queue (insert number (mkQueueRow (Some 200) statusProcessing)) checked_store)
       /\ queue checked_store !! number = Some e /\ PG.eligible e = true
       /\ forall number' e', queue checked_store !! number' = Some e' ->
            PG.eligible e' = true -> null_oldest_le (last_check e) (last_check e').
Proof.
  assert (H1 : map_to_list (queue checked_store) ≡ₚ map_to_list (queue checked_store))
    by reflexivity.
  assert (H2 : exists number e,
             queue checked_store !! number = Some e /\ PG.eligible e = true).
  { exists "26", (mkQueueRow None statusNew). split; vm_compute; reflexivity. }
  split; [exact H1|]. split; [exact queue_after_epoch_checked_store|].
  split; [exact H2|]. split; [vm_compute; reflexivity|].
  exact (proj2 (proj2 (ClaimNextForProcessing_spec _ 200 checked_store H1
                         queue_after_epoch_checked_store)) H2).
Defined.


(** ** Balances never go negative *)

Lemma commit_balances_nonneg t s :
  accrual_nonneg t -> balances_nonneg s -> balances_nonneg (commit t s).
Proof.
  intros Ht Hs id u. destruct t; simpl in *.
  - unfold PG.CreateUser. case_decide; simpl; [apply Hs|].
    intros [[_ <-]|[_ Hu]]%lookup_insert_Some; [simpl; lia | by eapply Hs].
  - unfold PG.CreateOrder. case_match; simpl; apply Hs.
  - apply Hs.
  - unfold PG.ClaimNextForProcessing_in. case_match; simpl; apply Hs.
  - apply Hs.
  - apply Hs.
  - apply Hs.
  - unfold PG.ApplyOrderAccrual. destruct (orders s !! number) as [o|]; [|apply Hs].
    destruct (AccrualApplied o); simpl; [apply Hs|].
    destruct (decide (id = UserID o)) as [->|Hne].
    + rewrite lookup_alter_eq. destruct (users s !! UserID o) as [u0|] eqn:Hu0; [|done].
      simpl. intros [= <-]. simpl. specialize (Hs _ _ Hu0). lia.
    + rewrite lookup_alter_ne by done. apply Hs.
  - unfold PG.Withdraw. destruct (users s !! userID) as [u0|] eqn:Hu0; [|apply Hs].
    destruct (Qltb (Balance u0) amount) eqn:E; simpl; [apply Hs|].
    intros [[_ <-]|[_ Hu]]%lookup_insert_Some; [|by eapply Hs].
    simpl. apply round_half_away_nonneg. apply Qltb_ge in E. lra.
Qed.


Lemma balances_nonneg_fresh_store : balances_nonneg fresh_store.
Proof.
  intros id u. unfold fresh_store. simpl.
  intros [_ <-]%lookup_singleton_Some. simpl. lia.
Qed.



(** ** Terminal orders leave the queue *)

Lemma preserves_ret {A} P (a : A) : preserves P (ret a).
Proof. by intros w. Qed.

Lemma preserves_fail {A} P e : preserves P (@fail A e).
Proof. by intros w. Qed.

Lemma preserves_bind {A B} P (m : M A) (k : A -> M B) :
  preserves P m -> (forall a, preserves P (k a)) -> preserves P (bind m k).
Proof.
  intros Hm Hk w Hw. unfold bind. specialize (Hm w Hw).
  destruct (m w) as [[e|a] w1]; [done|]. by apply Hk.
Qed.

Lemma preserves_try {A} P (m : M A) : preserves P m -> preserves P (try m).
Proof. intros Hm w Hw. unfold try. specialize (Hm w Hw). by destruct (m w). Qed.

Lemma preserves_call {A} (P : Store -> Prop) (op : Op A) :
  (forall s, P s -> P (snd (op s))) -> preserves P (call op).
Proof. intros Hop w Hw. unfold call. specialize (Hop _ Hw). by destruct (op (store w)). Qed.

Lemma preserves_SetRateLimitUntil P t : preserves P (client_SetRateLimitUntil t).
Proof. by intros w. Qed.

Lemma queue_clean_alter f number s :
  queue_clean s -> queue_clean (set_queue (alter f number) s).
Proof.
  intros Hs n o Ho Ht. simpl in *. specialize (Hs n o Ho Ht).
  destruct (decide (n = number)) as [->|Hne].
  - by rewrite lookup_alter_eq, Hs.
  - by rewrite lookup_alter_ne.
Qed.

Lemma queue_clean_delete number s :
  queue_clean s -> queue_clean (set_queue (delete number) s).
Proof.
  intros Hs n o Ho Ht. simpl in *. specialize (Hs n o Ho Ht).
  apply lookup_delete_None. by right.
Qed.

Lemma queue_clean_UpdateOrderStatus number status accrual s :
  status ≠ statusInvalid -> queue_clean s ->
  queue_clean (snd (PG.UpdateOrderStatus number status accrual s)).
Proof.
  intros Hst Hs n o Ho Ht. simpl in *.
  destruct (decide (n = number)) as [->|Hne].
  - rewrite lookup_alter_eq in Ho. destruct (orders s !! number) as [o0|]; [|done].
    simpl in Ho. injection Ho as <-.
    destruct Ht as [Ht|[_ Ht]]; destruct accrual; simpl in Ht; done.
  - rewrite lookup_alter_ne in Ho by done. by eapply Hs.
Qed.

Lemma queue_clean_update_delete number status accrual s :
  queue_clean s ->
  queue_clean (set_queue (delete number) (snd (PG.UpdateOrderStatus number status accrual s))).
Proof.
  intros Hs n o Ho Ht. simpl in *.
  destruct (decide (n = number)) as [->|Hne].
  - apply lookup_delete_eq.
  - rewrite lookup_alter_ne in Ho by done. rewrite lookup_delete_ne by done. by eapply Hs.
Qed.

Lemma queue_clean_ApplyOrderAccrual number accrual s :
  queue_clean s -> queue_clean (snd (PG.ApplyOrderAccrual number accrual s)).
Proof.
  intros Hs. unfold PG.ApplyOrderAccrual.
  destruct (orders s !! number) as [o0|] eqn:Ho0; [|done].
  destruct (AccrualApplied o0); simpl; [by apply queue_clean_delete|].
  intros n o Ho Ht. simpl in *.
  destruct (decide (n = number)) as [->|Hne].
  - apply lookup_delete_eq.
  - rewrite lookup_insert_ne in Ho by done. rewrite lookup_delete_ne by done. by eapply Hs.
Qed.

Lemma queue_clean_ClaimNext scan now s :
  queue_clean s -> queue_clean (snd (PG.ClaimNextForProcessing_in scan now s)).
Proof.
  intros Hs. unfold PG.ClaimNextForProcessing_in.
  destruct (PG.select_next scan); simpl; [by apply queue_clean_alter | done].
Qed.

Lemma queue_clean_Withdraw userID order amount now s :
  queue_clean s -> queue_clean (snd (PG.Withdraw userID order amount now s)).
Proof.
  intros Hs. unfold PG.Withdraw.
  destruct (users s !! userID) as [u|]; [|done].
  destruct (Qltb (Balance u) amount); simpl; [done|].
  intros n o Ho Ht. by apply (Hs n o).
Qed.

Lemma queue_clean_CreateUser login hash s :
  queue_clean s -> queue_clean (snd (PG.CreateUser login hash s)).
Proof.
  intros Hs. unfold PG.CreateUser. case_decide; simpl; intros n o Ho Ht; by apply (Hs n o).
Qed.

Lemma SubmitOrder_queue_clean userID number now :
  preserves queue_clean (SubmitOrder userID number now).
Proof.
  intros w Hw. unfold SubmitOrder.
  destruct (ValidateOrderNumber (TrimSpace number)) eqn:Hv; [done|].
  unfold bind, try, call, PG.GetByNumber, resolve_owner.
  destruct (orders (store w) !! TrimSpace number) as [o|] eqn:Ho; simpl.
  { by case_decide. }
  unfold PG.CreateOrder. simpl. rewrite Ho. simpl.
  intros n o Hn Ht. simpl in *.
  destruct (decide (n = TrimSpace number)) as [->|Hne].
  - rewrite lookup_insert_eq in Hn. injection Hn as <-.
    destruct Ht as [Ht|[Ht _]]; simpl in Ht; done.
  - rewrite lookup_insert_ne in Hn by done. rewrite lookup_insert_ne by done. by eapply Hw.
Qed.

Lemma WithdrawManager_Withdraw_queue_clean userID order amount now :
  preserves queue_clean (WithdrawManager_Withdraw userID order amount now).
Proof.
  unfold WithdrawManager_Withdraw.
  destruct (ValidateOrderNumber _); [apply preserves_fail|].
  destruct (Qle_bool amount 0); [apply preserves_fail|].
  apply preserves_call. intros s. apply queue_clean_Withdraw.
Qed.

Section Terminal.

Variable ToUpper : string -> string.

Lemma release_queue_clean number now : preserves queue_clean (release number now).
Proof. apply preserves_call. intros s. apply queue_clean_alter. Qed.

Lemma update_delete_queue_clean number status accrual :
  preserves queue_clean
    (call (PG.UpdateOrderStatus number status accrual);; call (PG.DeleteProcessingEntry number)).
Proof.
  intros w Hw. unfold bind, call. simpl.
  by apply (queue_clean_update_delete number status accrual).
Qed.

Lemma processNumber_queue_clean number reply now :
  preserves queue_clean (processNumber ToUpper number reply now).
Proof.
  unfold processNumber. destruct reply as [|code retryAfter body].
  { apply preserves_bind; [apply preserves_try, release_queue_clean|].
    intros _. apply preserves_fail. }
  destruct (code =? StatusOK).
  - destruct body as [payload|].
    2: { apply preserves_bind; [apply preserves_try, release_queue_clean|].
         intros _. apply preserves_fail. }
    set (status := if decide (ToUpper (p_Status payload) = "") then statusProcessing
                   else ToUpper (p_Status payload)).
    destruct (decide (status = statusProcessed)) as [Hp|Hp].
    { destruct (p_Accrual payload) as [accrual|].
      - apply preserves_bind.
        + apply preserves_bind; [|intros _; apply preserves_ret].
          apply preserves_call. intros s. apply queue_clean_ApplyOrderAccrual.
        + intros applied. destruct applied; simpl; [apply preserves_ret|].
          apply preserves_call. intros s. apply queue_clean_delete.
      - intros w Hw. unfold bind, call, ret. simpl.
        by apply (queue_clean_update_delete number status None). }
    destruct (decide (status = statusInvalid)) as [Hi|Hi].
    { apply update_delete_queue_clean. }
    apply preserves_bind; [|intros _; apply release_queue_clean].
    apply preserves_call. intros s. by apply queue_clean_UpdateOrderStatus.
  - destruct (code =? StatusNoContent); [apply release_queue_clean|].
    destruct (code =? StatusTooManyRequests).
    { apply preserves_bind; [apply preserves_SetRateLimitUntil|].
      intros _. apply release_queue_clean. }
    destruct (code =? StatusInternalServerError); apply release_queue_clean.
Qed.

Lemma service_step_queue_clean w w' :
  service_step ToUpper w w' -> queue_clean (store w) -> queue_clean (store w').
Proof.
  intros Hstep Hw. destruct Hstep.
  - revert Hw. apply preserves_call. intros s. apply queue_clean_CreateUser.
  - by apply SubmitOrder_queue_clean.
  - by apply WithdrawManager_Withdraw_queue_clean.
  - revert Hw. apply preserves_call. intros s. apply queue_clean_ClaimNext.
  - by apply processNumber_queue_clean.
Qed.


End Terminal.



(** ** A pool without workers *)

Lemma pool_step_running ToUpper sys evs sys' :
  pool_step ToUpper sys evs sys' -> exists n, running sys = S n.
Proof. destruct 1; eauto. Qed.

Lemma pool_run_idle ToUpper sys evs sys' :
  running sys = 0%nat -> pool_run ToUpper sys evs sys' -> evs = [] /\ sys' = sys.
Proof.
  intros Hidle Hrun. destruct Hrun as [|sys1 evs sys2 evs' sys3 Hstep _]; [done|].
  apply pool_step_running in Hstep as [n Hn]. congruence.
Qed.

(** C10. On a pool built with [workers <= 0], [Start] changes nothing: no
    goroutine runs [runWorker], the wait-group counter stays at zero so
    [Wait] returns at once, and since only such goroutines claim queue
    entries, update the store or call the scoring service, the pool does
    none of these, whatever happens afterwards. *)
Theorem Start_without_workers ToUpper n interval w :
  n <= 0 ->
  let sys := mkSystem (NewWorkerPool n interval) w 0 in
  Start sys = sys
  /\ running (Start sys) = 0%nat
  /\ Wait_returns (Start sys)
  /\ forall evs sys', pool_run ToUpper (Start sys) evs sys' ->
       evs = [] /\ world sys' = w.
Proof.
  intros Hn sys.
  assert (Hs : Start sys = sys).
  { unfold Start. subst sys. simpl. by replace (n <=? 0) with true by lia. }
  rewrite Hs. split; [done|]. split; [done|]. split; [done|].
  intros evs sys' Hrun. apply pool_run_idle in Hrun as [-> ->]; done.
Qed.

Lemma Start_without_workers_witness :
  0 <= 0 /\ Start (mkSystem (NewWorkerPool 0 2) init_world 0)
            = mkSystem (NewWorkerPool 0 2) init_world 0.
Proof.
  assert (H : 0 <= 0) by lia.
  split; [exact H|].
  exact (proj1 (Start_without_workers ToUpper_ASCII 0 2 init_world H)).
Defined.

(** With [workers > 0], [Start] launches that many goroutines and [Wait]
    has to wait for them. *)
Lemma start_loop_counts k sys :
  running (start_loop k sys) = (k + running sys)%nat
  /\ wg (pool (start_loop k sys)) = wg (pool sys) + Z.of_nat k
  /\ world (start_loop k sys) = world sys.
Proof.
  revert sys. induction k as [|k IH]; intros sys; simpl; [split; [done|split; [lia|done]]|].
  destruct (IH (spawn sys)) as (-> & -> & ->). simpl. split; [lia|]. split; [lia|done].
Qed.

Lemma Start_with_workers n interval w :
  0 < n ->
  let sys := Start (mkSystem (NewWorkerPool n interval) w 0) in
  running sys = Z.to_nat n /\ wg (pool sys) = n /\ ~ Wait_returns sys.
Proof.
  intros Hn. unfold Start. simpl. replace (n <=? 0) with false by lia.
  destruct (start_loop_counts (Z.to_nat n) (mkSystem (NewWorkerPool n interval) w 0))
    as (Hr & Hw & _).
  simpl. rewrite Hr, Hw. unfold Wait_returns. rewrite Hw. simpl. lia.
Qed.

(** ** The worker applies an accrual once *)

Section WorkerAccrual.

Variable ToUpper : string -> string.
Hypothesis ToUpper_PROCESSED : ToUpper "PROCESSED" = "PROCESSED".

Lemma processNumber_processed number accrual now w :
  store (snd (processNumber ToUpper number (processed_reply accrual) now w))
  = snd (PG.ApplyOrderAccrual number accrual (store w)).
Proof.
  unfold processNumber, processed_reply. cbn [p_Status p_Accrual].
  replace (StatusOK =? StatusOK) with true by reflexivity.
  rewrite ToUpper_PROCESSED.
  rewrite (decide_False (P := "PROCESSED" = "")) by done.
  rewrite (decide_True (P := "PROCESSED" = statusProcessed)) by done.
  unfold bind, call, ret.
  destruct (PG.ApplyOrderAccrual number accrual (store w)) as [[e|b] s1]; done.
Qed.

Lemma feed_processed number amounts now w :
  store (feed ToUpper number (map processed_reply amounts) now w)
  = snd (apply_all number amounts (store w)).
Proof.
  revert w. induction amounts as [|a rest IH]; intros w; [done|].
  cbn [map feed apply_all]. rewrite IH, processNumber_processed.
  destruct (PG.ApplyOrderAccrual number a (store w)) as [r s1]. simpl.
  by destruct (apply_all number rest s1).
Qed.

(** However often the reply [200 PROCESSED] with an accrual is fed to the
    worker for an order, the owner's balance grows by the first accrual
    only. *)
Lemma processNumber_processed_once number o u a amounts now w :
  orders (store w) !! number = Some o -> AccrualApplied o = false ->
  users (store w) !! UserID o = Some u ->
  balance_of (store (feed ToUpper number (map processed_reply (a :: amounts)) now w))
    (UserID o) = Some (Balance u + a).
Proof.
  intros Ho Ha Hu. rewrite feed_processed. cbn [apply_all].
  rewrite (ApplyOrderAccrual_fresh _ _ _ _ Ho Ha).
  set (o1 := mkOrder (UserID o) statusProcessed (Some a) (UploadedAt o) true).
  match goal with |- context [apply_all _ _ ?x] => set (s1 := x) end.
  assert (Ho1 : orders s1 !! number = Some o1) by apply lookup_insert_eq.
  destruct (apply_all_applied number amounts s1 o1 Ho1 eq_refl) as (_ & _ & Husers & _).
  destruct (apply_all number amounts s1) as [rs s2]. simpl in *.
  unfold balance_of. rewrite Husers. subst s1. simpl.
  by rewrite lookup_alter_eq, Hu.
Qed.

End WorkerAccrual.

(** ** The in-memory [ClaimNextForProcessing] *)

Lemma claim_step_skip acc number e :
  ~ mem_eligible e -> Mem.claim_step acc (number, e) = acc.
Proof.
  intros He. destruct acc as [[sel ts] has]. unfold Mem.claim_step.
  rewrite !bool_decide_eq_true_2; [done| |]; intros H; apply He; [by right | by left].
Qed.

Lemma claim_step_take sel ts has number e :
  mem_eligible e ->
  Mem.claim_step (sel, ts, has) (number, e) =
    if negb has || (mem_key e <? ts) then (number, mem_key e, true) else (sel, ts, has).
Proof.
  intros He. unfold Mem.claim_step, mem_key.
  destruct He as [He|He]; rewrite He; simpl; done.
Qed.

Lemma mem_eligible_dec e : {mem_eligible e} + {~ mem_eligible e}.
Proof.
  unfold mem_eligible.
  destruct (decide (Mem.status e = "NEW")); [by left; left|].
  destruct (decide (Mem.status e = "PROCESSING")); [by left; right|].
  right. tauto.
Qed.

Lemma claim_fold iter sel ts has :
  forall sel' ts' has', foldl Mem.claim_step (sel, ts, has) iter = (sel', ts', has') ->
  (has' = true <-> has = true \/ exists n e, (n, e) ∈ iter /\ mem_eligible e)
  /\ (has' = true ->
        ((has = true /\ sel' = sel /\ ts' = ts)
         \/ exists e, (sel', e) ∈ iter /\ mem_eligible e /\ ts' = mem_key e)
        /\ (has = true -> ts' <= ts)
        /\ forall n e, (n, e) ∈ iter -> mem_eligible e -> ts' <= mem_key e).
Proof.
  revert sel ts has. induction iter as [|[n e] iter IH]; intros sel ts has sel' ts' has' Hf.
  - simpl in Hf. injection Hf as <- <- <-. split.
    + split; [by left|]. intros [H|(n & e & Hin & _)]; [done|]. by apply elem_of_nil in Hin.
    + intros Hh. split; [by left|]. split; [lia|].
      intros n e Hin. by apply elem_of_nil in Hin.
  - cbn [foldl] in Hf. destruct (mem_eligible_dec e) as [He|He].
    + rewrite claim_step_take in Hf by done.
      destruct (negb has || (mem_key e <? ts)) eqn:Htake.
      * destruct (IH _ _ _ _ _ _ Hf) as [Hiff Hres]. split.
        { split; [|intros _; apply Hiff; by left].
          intros _. right. exists n, e. split; [left | done]. }
        intros Hh. destruct (Hres Hh) as (Hsel & Hle & Hmin).
        specialize (Hle eq_refl). split; [|split].
        -- right. destruct Hsel as [(_ & -> & ->)|(e1 & Hin & He1 & ->)].
           ++ exists e. split; [left | done].
           ++ exists e1. split; [by right | done].
        -- intros ->. simpl in Htake. lia.
        -- intros n1 e1 [[= -> ->]|Hin]%elem_of_cons He1; [done | by eapply Hmin].
      * destruct has; [|done]. simpl in Htake.
        destruct (IH _ _ _ _ _ _ Hf) as [Hiff Hres]. split.
        { split; [by left|]. intros _. apply Hiff. by left. }
        intros Hh. destruct (Hres Hh) as (Hsel & Hle & Hmin).
        specialize (Hle eq_refl). split; [|split].
        -- destruct Hsel as [?|(e1 & Hin & He1 & ->)]; [by left|].
           right. exists e1. split; [by right | done].
        -- done.
        -- intros n1 e1 [[= -> ->]|Hin]%elem_of_cons He1; [lia | by eapply Hmin].
    + rewrite claim_step_skip in Hf by done.
      destruct (IH _ _ _ _ _ _ Hf) as [Hiff Hres]. split.
      { rewrite Hiff. split; (intros [?|(n1 & e1 & Hin & He1)]; [by left|right]).
        - exists n1, e1. split; [by right | done].
        - apply elem_of_cons in Hin as [[= -> ->]|Hin]; [done|]. by exists n1, e1. }
      intros Hh. destruct (Hres Hh) as (Hsel & Hle & Hmin). split; [|split].
      * destruct Hsel as [?|(e1 & Hin & He1 & ->)]; [by left|].
        right. exists e1. split; [by right | done].
      * done.
      * intros n1 e1 [[= -> ->]|Hin]%elem_of_cons He1; [done | by eapply Hmin].
Qed.

(** The in-memory repository claims as the PostgreSQL one does: nothing
    when no entry is NEW or PROCESSING, otherwise an eligible entry with the
    smallest [lastCheck], an unset one read as the Unix epoch, whatever the
    order in which [range] visits the map. *)
Lemma Mem_ClaimNextForProcessing_spec iter now m :
  iter ≡ₚ map_to_list (Mem.m_queue m) ->
  (fst (Mem.ClaimNextForProcessing_in iter now m) = inl ErrNoQueueItems
     <-> forall number e, Mem.m_queue m !! number = Some e -> ~ mem_eligible e)
  /\ ((exists number e, Mem.m_queue m !! number = Some e /\ mem_eligible e) ->
        exists number e,
          Mem.ClaimNextForProcessing_in iter now m =
            (inr number,
             Mem.mkRepo (Mem.m_orders m)
               (<[number := Mem.mkEntry "PROCESSING" now]> (Mem.m_queue m)) (Mem.balances m))
          /\ Mem.m_queue m !! number = Some e /\ mem_eligible e
          /\ forall number' e', Mem.m_queue m !! number' = Some e' -> mem_eligible e' ->
               mem_key e <= mem_key e').
Proof.
  intros Hiter.
  assert (Hmem : forall n e, (n, e) ∈ iter <-> Mem.m_queue m !! n = Some e).
  { intros n e. rewrite Hiter. apply elem_of_map_to_list. }
  unfold Mem.ClaimNextForProcessing_in.
  destruct (foldl Mem.claim_step ("", Mem.zeroTime, false) iter) as [[sel ts] has] eqn:Hf.
  destruct (claim_fold _ _ _ _ _ _ _ Hf) as [Hiff Hres].
  destruct has; simpl.
  - destruct (Hres eq_refl) as ([(? & _)|(e & Hin & He & ->)] & _ & Hmin); [done|].
    apply Hmem in Hin. split.
    + split; [done|]. intros Hall. by destruct (Hall _ _ Hin).
    + intros _. exists sel, e. split.
      { by rewrite (alter_const_insert _ _ e). }
      split; [done|]. split; [done|].
      intros n' e' Hn' He'. apply (Hmin n' e'); [by apply Hmem | done].
  - split.
    + split; [|done]. intros _ n e Hn He.
      assert (false = true); [|done]. apply Hiff. right. exists n, e. by rewrite Hmem.
    + intros (n & e & Hn & He).
      assert (false = true); [|done]. apply Hiff. right. exists n, e. by rewrite Hmem.
Qed.

(** ** Service calls keep balances non-negative *)

Lemma preserves_txn {A} (op : Op A) t :
  accrual_nonneg t -> (forall s, snd (op s) = commit t s) ->
  preserves balances_nonneg (call op).
Proof.
  intros Ht Hop. apply preserves_call. intros s Hs. rewrite Hop.
  by apply commit_balances_nonneg.
Qed.

Lemma SubmitOrder_balances_nonneg userID number now :
  preserves balances_nonneg (SubmitOrder userID number now).
Proof.
  intros w Hw. unfold SubmitOrder.
  destruct (ValidateOrderNumber (TrimSpace number)); [done|].
  unfold bind, try, call, PG.GetByNumber, resolve_owner.
  destruct (orders (store w) !! TrimSpace number) as [o|] eqn:Ho; simpl.
  { by case_decide. }
  unfold PG.CreateOrder. simpl. rewrite Ho. simpl. exact Hw.
Qed.

Lemma WithdrawManager_Withdraw_balances_nonneg userID order amount now :
  preserves balances_nonneg (WithdrawManager_Withdraw userID order amount now).
Proof.
  unfold WithdrawManager_Withdraw.
  destruct (ValidateOrderNumber _); [apply preserves_fail|].
  destruct (Qle_bool amount 0); [apply preserves_fail|].
  by apply (preserves_txn _ (TxWithdraw userID (TrimSpace order) amount now)).
Qed.

Lemma processNumber_balances_nonneg ToUpper number reply now :
  reply_accrual_nonneg reply ->
  preserves balances_nonneg (processNumber ToUpper number reply now).
Proof.
  intros Hreply.
  assert (Hrel : preserves balances_nonneg (release number now)).
  { by apply (preserves_txn _ (TxUpdateProcessingStatus number statusProcessing now)). }
  assert (Hupd : forall status accrual,
            preserves balances_nonneg (call (PG.UpdateOrderStatus number status accrual))).
  { intros status accrual. by apply (preserves_txn _ (TxUpdateOrderStatus number status accrual)). }
  assert (Hdel : preserves balances_nonneg (call (PG.DeleteProcessingEntry number))).
  { by apply (preserves_txn _ (TxDeleteProcessingEntry number)). }
  unfold processNumber. destruct reply as [|code retryAfter body].
  { apply preserves_bind; [by apply preserves_try|]. intros _. apply preserves_fail. }
  destruct (code =? StatusOK).
  - destruct body as [payload|].
    2: { apply preserves_bind; [by apply preserves_try|]. intros _. apply preserves_fail. }
    simpl in Hreply.
    set (status := if decide (ToUpper (p_Status payload) = "") then statusProcessing
                   else ToUpper (p_Status payload)).
    destruct (decide (status = statusProcessed)) as [Hp|Hp].
    { apply preserves_bind.
      - destruct (p_Accrual payload) as [accrual|].
        + apply preserves_bind; [|intros _; apply preserves_ret].
          by apply (preserves_txn _ (TxApplyOrderAccrual number accrual)).
        + apply preserves_bind; [apply Hupd | intros _; apply preserves_ret].
      - intros applied. destruct applied; simpl; [apply preserves_ret | apply Hdel]. }
    destruct (decide (status = statusInvalid)) as [Hi|Hi].
    + apply preserves_bind; [apply Hupd | intros _; apply Hdel].
    + apply preserves_bind; [apply Hupd | intros _; apply Hrel].
  - destruct (code =? StatusNoContent); [apply Hrel|].
    destruct (code =? StatusTooManyRequests).
    { apply preserves_bind; [apply preserves_SetRateLimitUntil | intros _; apply Hrel]. }
    destruct (code =? StatusInternalServerError); apply Hrel.
Qed.

(** ** What the Luhn check catches *)

Lemma bytes_of_of_bytes l :
  Forall (fun b => 0 <= b < 256) l -> bytes_of (of_bytes l) = l.
Proof.
  intros H. unfold bytes_of, of_bytes.
  rewrite String.list_ascii_of_string_of_list_ascii, map_map.
  induction H as [|b l Hb _ IH]; [done|]. cbn [map]. rewrite IH. f_equal.
  rewrite Ascii.N_ascii_embedding by lia. lia.
Qed.

Lemma luhn_sum_app l1 l2 second :
  luhn_sum (l1 ++ l2) second
  = luhn_sum l1 second + luhn_sum l2 (xorb second (Nat.odd (length l1))).
Proof.
  revert second. induction l1 as [|d l1 IH]; intros second.
  - simpl. by rewrite xorb_false_r.
  - cbn [app luhn_sum length]. rewrite IH, Nat.odd_succ, <- Nat.negb_odd.
    replace (xorb (negb second) (Nat.odd (length l1)))
      with (xorb second (negb (Nat.odd (length l1))))
      by (destruct second, (Nat.odd (length l1)); done).
    lia.
Qed.

Lemma luhn_digit_range second d : 0 <= d <= 9 -> 0 <= luhn_digit second d <= 9.
Proof. unfold luhn_digit. intros Hd. repeat case_match; lia. Qed.

Lemma luhn_digit_inj second d d' :
  0 <= d <= 9 -> 0 <= d' <= 9 -> luhn_digit second d = luhn_digit second d' -> d = d'.
Proof. unfold luhn_digit. intros Hd Hd'. repeat case_match; lia. Qed.

(** The Luhn total of a digit string, split at one position. *)
Lemma luhn_total_split l1 d l2 :
  luhn_sum (rev (map digit_value (l1 ++ d :: l2))) false
  = luhn_sum (rev (map digit_value l2)) false
    + luhn_digit (Nat.odd (length l2)) (digit_value d)
    + luhn_sum (rev (map digit_value l1)) (negb (Nat.odd (length l2))).
Proof.
  rewrite map_app, rev_app_distr. cbn [map rev]. rewrite <- app_assoc.
  rewrite luhn_sum_app. cbn [app luhn_sum].
  rewrite length_rev, length_map. simpl. lia.
Qed.

Lemma Luhn_true_bytes s :
  Forall ascii_digit (bytes_of s) ->
  Luhn s = true <-> luhn_sum (rev (map digit_value (bytes_of s))) false mod 10 = 0.
Proof. intros H. by rewrite Luhn_digits. Qed.

Lemma ValidateOrderNumber_digits s :
  s ≠ "" -> Forall ascii_digit (bytes_of s) ->
  ValidateOrderNumber s = None <-> Luhn s = true.
Proof.
  intros Hne Hd.
  assert (Hascii : Forall (fun b => b < 128) (bytes_of s)).
  { eapply Forall_impl; [exact Hd|]. unfold ascii_digit. simpl. lia. }
  assert (Hdig : forallb IsDigit (runes s) = true).
  { rewrite runes_ascii by done. apply forallb_forall. intros b Hb.
    rewrite Forall_forall in Hd. apply list_elem_of_In in Hb. specialize (Hd b Hb).
    unfold ascii_digit, IsDigit, MaxLatin1, between in *.
    replace (b <=? 255) with true by lia. lia. }
  rewrite ValidateOrderNumber_None, (TrimSpace_digits s Hdig).
  split; [by intros (_ & _ & ?) | done].
Qed.

Lemma bytes_of_nonempty s b l : bytes_of s = b :: l -> s ≠ "".
Proof. intros H ->. discriminate. Qed.

Lemma bytes_of_app_nonempty s l1 d l2 : bytes_of s = l1 ++ d :: l2 -> s ≠ "".
Proof. intros H ->. by destruct l1. Qed.

(** X1. One mistyped digit is always caught: if an order number made of
    ASCII digits is accepted, every number that differs from it in exactly
    one digit is rejected. *)
Theorem ValidateOrderNumber_single_digit_error s s' l1 d d' l2 :
  bytes_of s = l1 ++ d :: l2 -> bytes_of s' = l1 ++ d' :: l2 ->
  Forall ascii_digit (bytes_of s) -> ascii_digit d' -> d ≠ d' ->
  ValidateOrderNumber s = None ->
  ValidateOrderNumber s' = Some ErrInvalidOrderNumber.
Proof.
  intros Hs Hs' Hdig Hd' Hne Hv.
  assert (Hdig' : Forall ascii_digit (bytes_of s')).
  { rewrite Hs'. rewrite Hs in Hdig. apply Forall_app in Hdig as [H1 H2].
    apply Forall_app. split; [done|]. apply Forall_cons in H2 as [_ H2]. by constructor. }
  assert (Hd : ascii_digit d).
  { rewrite Hs in Hdig. apply Forall_app in Hdig as [_ H2]. by apply Forall_cons in H2 as [? _]. }
  apply ValidateOrderNumber_digits in Hv; [|by eapply bytes_of_app_nonempty|done].
  destruct (ValidateOrderNumber s') as [e|] eqn:Hv'.
  { unfold ValidateOrderNumber in Hv'. repeat case_match; congruence. }
  apply ValidateOrderNumber_digits in Hv'; [|by eapply bytes_of_app_nonempty|done].
  apply Luhn_true_bytes in Hv; [|done]. apply Luhn_true_bytes in Hv'; [|done].
  rewrite Hs, luhn_total_split in Hv. rewrite Hs', luhn_total_split in Hv'.
  unfold ascii_digit in Hd, Hd'.
  pose proof (luhn_digit_range (Nat.odd (length l2)) (digit_value d)
                ltac:(unfold digit_value; lia)) as Hr.
  pose proof (luhn_digit_range (Nat.odd (length l2)) (digit_value d')
                ltac:(unfold digit_value; lia)) as Hr'.
  assert (Heq : luhn_digit (Nat.odd (length l2)) (digit_value d)
                = luhn_digit (Nat.odd (length l2)) (digit_value d')).
  { revert Hv Hv' Hr Hr'. generalize (luhn_digit (Nat.odd (length l2)) (digit_value d)).
    generalize (luhn_digit (Nat.odd (length l2)) (digit_value d')).
    generalize (luhn_sum (rev (map digit_value l2)) false).
    generalize (luhn_sum (rev (map digit_value l1)) (negb (Nat.odd (length l2)))).
    intros a b x y Hv Hv' Hr Hr'. Z.div_mod_to_equations. lia. }
  apply luhn_digit_inj in Heq; unfold digit_value in *; lia.
Qed.

Lemma ValidateOrderNumber_single_digit_error_witness :
  bytes_of "79927398713" = [55; 57; 57; 50; 55; 51; 57; 56] ++ 55 :: [49; 51]
  /\ bytes_of "79927398013" = [55; 57; 57; 50; 55; 51; 57; 56] ++ 48 :: [49; 51]
  /\ ValidateOrderNumber "79927398713" = None
  /\ ValidateOrderNumber "79927398013" = Some ErrInvalidOrderNumber.
Proof.
  assert (H1 : bytes_of "79927398713" = [55; 57; 57; 50; 55; 51; 57; 56] ++ 55 :: [49; 51])
    by reflexivity.
  assert (H2 : bytes_of "79927398013" = [55; 57; 57; 50; 55; 51; 57; 56] ++ 48 :: [49; 51])
    by reflexivity.
  assert (H3 : Forall ascii_digit (bytes_of "79927398713")).
  { rewrite H1. repeat constructor; unfold ascii_digit; lia. }
  assert (H4 : ascii_digit 48) by (unfold ascii_digit; lia).
  assert (H5 : 55 ≠ 48) by lia.
  assert (H6 : ValidateOrderNumber "79927398713" = None) by (vm_compute; reflexivity).
  split; [exact H1|]. split; [exact H2|]. split; [exact H6|].
  exact (ValidateOrderNumber_single_digit_error _ _ _ _ _ _ H1 H2 H3 H4 H5 H6).
Defined.

(** X2. Every string of ASCII digits has exactly one check digit: of the
    ten strings obtained by appending a digit, [ValidateOrderNumber] accepts
    exactly one. *)
Theorem ValidateOrderNumber_check_digit prefix :
  Forall ascii_digit prefix ->
  exists c, ascii_digit c
    /\ ValidateOrderNumber (of_bytes (prefix ++ [c])) = None
    /\ forall c', ascii_digit c' ->
         ValidateOrderNumber (of_bytes (prefix ++ [c'])) = None -> c' = c.
Proof.
  intros Hp.
  assert (Hbytes : forall c, ascii_digit c ->
            bytes_of (of_bytes (prefix ++ [c])) = prefix ++ [c]
            /\ Forall ascii_digit (prefix ++ [c])).
  { intros c Hc. assert (Hall : Forall ascii_digit (prefix ++ [c])).
    { apply Forall_app. split; [done | by constructor]. }
    split; [|done]. apply bytes_of_of_bytes.
    eapply Forall_impl; [exact Hall|]. unfold ascii_digit. simpl. lia. }
  assert (Hiff : forall c, ascii_digit c ->
            ValidateOrderNumber (of_bytes (prefix ++ [c])) = None
            <-> (digit_value c + luhn_sum (rev (map digit_value prefix)) true) mod 10 = 0).
  { intros c Hc. destruct (Hbytes c Hc) as [Hb Hall].
    rewrite ValidateOrderNumber_digits.
    - rewrite Luhn_true_bytes by by rewrite Hb. rewrite Hb, luhn_total_split.
      cbn [map rev luhn_sum length Nat.odd negb luhn_digit]. 
      replace (0 + digit_value c + luhn_sum (rev (map digit_value prefix)) true)
        with (digit_value c + luhn_sum (rev (map digit_value prefix)) true) by lia.
      done.
    - eapply bytes_of_app_nonempty. exact Hb.
    - by rewrite Hb. }
  set (S := luhn_sum (rev (map digit_value prefix)) true) in *.
  exists (48 + (- S) mod 10).
  assert (Hc : ascii_digit (48 + (- S) mod 10)).
  { unfold ascii_digit. pose proof (Z.mod_pos_bound (- S) 10). lia. }
  split; [done|]. split.
  - apply Hiff; [done|]. unfold digit_value. Z.div_mod_to_equations. lia.
  - intros c' Hc' Hv. apply Hiff in Hv; [|done].
    unfold ascii_digit, digit_value in *. Z.div_mod_to_equations. lia.
Qed.

Lemma ValidateOrderNumber_check_digit_witness :
  Forall ascii_digit [55; 57; 57; 50; 55; 51; 57; 56; 55; 49]
  /\ exists c, ascii_digit c
       /\ ValidateOrderNumber (of_bytes ([55; 57; 57; 50; 55; 51; 57; 56; 55; 49] ++ [c])) = None.
Proof.
  assert (H : Forall ascii_digit [55; 57; 57; 50; 55; 51; 57; 56; 55; 49]).
  { repeat constructor; unfold ascii_digit; lia. }
  split; [exact H|].
  destruct (ValidateOrderNumber_check_digit _ H) as (c & Hc & Hv & _).
  exists c. split; [exact Hc | exact Hv].
Defined.

(** ** ASCII bytes that are not digits *)

Lemma DecodeRune_shape b0 t :
  (b0 < 128 /\ DecodeRune (b0 :: t) = (b0, 1%nat))
  \/ (128 <= b0 /\ Forall (fun x => 128 <= x) (take (snd (DecodeRune (b0 :: t))) (b0 :: t))).
Proof.
  destruct (decide (b0 < 128)) as [Hlt|Hge].
  - left. split; [done|]. unfold DecodeRune, RuneSelf. by replace (b0 <? 128) with true by lia.
  - right. split; [lia|]. unfold DecodeRune, RuneSelf. replace (b0 <? 128) with false by lia.
    unfold between.
    repeat (case_match; simpl; subst);
      repeat (apply Forall_cons; split); try apply Forall_nil; try lia.
Qed.

Lemma decode_aux_keeps_ascii fuel p b :
  (length p <= fuel)%nat -> b ∈ p -> b < 128 -> b ∈ map fst (decode_aux fuel p).
Proof.
  revert p. induction fuel as [|fuel IH]; intros p Hlen Hb Hlt.
  - destruct p; [by apply elem_of_nil in Hb | simpl in Hlen; lia].
  - destruct p as [|b0 t]; [by apply elem_of_nil in Hb|].
    cbn [decode_aux]. destruct (DecodeRune (b0 :: t)) as [r w] eqn:Hd.
    pose proof (DecodeRune_width (b0 :: t) ltac:(done)) as Hw. rewrite Hd in Hw. simpl snd in Hw.
    cbn [map fst].
    assert (Hrest : b ∈ drop w (b0 :: t) -> b ∈ r :: map fst (decode_aux fuel (drop w (b0 :: t)))).
    { intros Hin. right. apply IH; [|done|done]. rewrite length_drop. simpl in *. lia. }
    destruct (DecodeRune_shape b0 t) as [[Hb0 Heq]|[Hb0 Hall]].
    + rewrite Heq in Hd. injection Hd as <- <-.
      apply elem_of_cons in Hb as [->|Hb]; [left|]. apply Hrest. simpl. by rewrite drop_0.
    + rewrite Hd in Hall. simpl snd in Hall.
      rewrite <- (take_drop w (b0 :: t)) in Hb. apply elem_of_app in Hb as [Hb|Hb].
      * rewrite Forall_forall in Hall. specialize (Hall b Hb). simpl in Hall. lia.
      * by apply Hrest.
Qed.

(** X3. Whatever else a string holds, an ASCII character other than a
    digit left after trimming makes [ValidateOrderNumber] fail, and the only
    error it ever returns is [ErrInvalidOrderNumber]. *)
Theorem ValidateOrderNumber_rejects_ascii_nondigit s b :
  b ∈ bytes_of (TrimSpace s) -> b < 128 -> ~ ascii_digit b ->
  ValidateOrderNumber s = Some ErrInvalidOrderNumber.
Proof.
  intros Hb Hlt Hnd. unfold ValidateOrderNumber.
  destruct (decide (TrimSpace s = "")); [done|].
  assert (Hr : b ∈ runes (TrimSpace s)).
  { unfold runes, decode. by apply decode_aux_keeps_ascii. }
  assert (Hf : forallb IsDigit (runes (TrimSpace s)) = false).
  { apply not_true_is_false. intros Hall. rewrite forallb_forall in Hall.
    apply list_elem_of_In in Hr. specialize (Hall b Hr).
    unfold IsDigit, MaxLatin1, between, ascii_digit in *.
    replace (b <=? 255) with true in Hall by lia. lia. }
  by rewrite Hf.
Qed.

Lemma ValidateOrderNumber_rejects_ascii_nondigit_witness :
  32 ∈ bytes_of (TrimSpace "12 34") /\ ValidateOrderNumber "12 34" = Some ErrInvalidOrderNumber.
Proof.
  assert (H1 : 32 ∈ bytes_of (TrimSpace "12 34")).
  { replace (bytes_of (TrimSpace "12 34")) with [49; 50; 32; 51; 52] by (vm_compute; reflexivity).
    do 2 right. left. }
  assert (H2 : 32 < 128) by lia.
  assert (H3 : ~ ascii_digit 32) by (unfold ascii_digit; lia).
  split; [exact H1|].
  exact (ValidateOrderNumber_rejects_ascii_nondigit "12 34" 32 H1 H2 H3).
Defined.

(** ** Accounts *)

Lemma commit_users t s :
  (users (commit t s) = users s /\ withdrawals (commit t s) = withdrawals s)
  \/ (exists login hash, t = TxCreateUser login hash /\ ~ login_taken s login
        /\ users (commit t s) = <[next_user_id s := mkUser login hash 0 0]> (users s)
        /\ withdrawals (commit t s) = withdrawals s
        /\ next_user_id (commit t s) = next_user_id s + 1)
  \/ (exists number accrual o, t = TxApplyOrderAccrual number accrual
        /\ orders s !! number = Some o /\ AccrualApplied o = false
        /\ users (commit t s) = alter (PG.credit accrual) (UserID o) (users s)
        /\ withdrawals (commit t s) = withdrawals s)
  \/ (exists userID order amount now u, t = TxWithdraw userID order amount now
        /\ users s !! userID = Some u /\ (amount <= Balance u)%Q
        /\ users (commit t s) = <[userID := PG.debit amount u]> (users s)
        /\ withdrawals (commit t s)
           = withdrawals s ++ [mkWithdrawal userID order (round_half_away amount) now]).
Proof.
  destruct t; simpl; try (by left).
  - unfold PG.CreateUser. case_decide as Hex; simpl; [by left|].
    right; left. exists login, hash. split; [done|]. split; [|done].
    intros (id & u & Hu & Hl). apply Hex. exists id, u. done.
  - unfold PG.CreateOrder. case_match; by left.
  - unfold PG.ClaimNextForProcessing_in. case_match; by left.
  - unfold PG.ApplyOrderAccrual. destruct (orders s !! number) as [o|] eqn:Ho; [|by left].
    destruct (AccrualApplied o) eqn:Ha; simpl; [by left|].
    right; right; left. by exists number, accrual, o.
  - unfold PG.Withdraw. destruct (users s !! userID) as [u|] eqn:Hu; [|by left].
    destruct (Qltb (Balance u) amount) eqn:E; simpl; [by left|].
    right; right; right. exists userID, order, amount, now, u. repeat split; try done.
    by apply Qltb_ge.
Qed.

Lemma commit_next_user_id t s : next_user_id s <= next_user_id (commit t s).
Proof.
  destruct t; simpl; try lia.
  - unfold PG.CreateUser. case_decide; simpl; lia.
  - unfold PG.CreateOrder. case_match; simpl; lia.
  - unfold PG.ClaimNextForProcessing_in. case_match; simpl; lia.
  - unfold PG.ApplyOrderAccrual. repeat case_match; simpl; lia.
  - unfold PG.Withdraw. repeat case_match; simpl; lia.
Qed.

Lemma commit_accounts t s :
  ids_fresh s -> logins_unique s ->
  ids_fresh (commit t s) /\ logins_unique (commit t s).
Proof.
  intros Hf Hu. pose proof (commit_next_user_id t s) as Hn.
  destruct (commit_users t s) as [[He _]|[(l & h & -> & Hfree & He & _ & Hn')
    |[(n & a & o & -> & Ho & Ha & He & _)|(uid & ord & amt & now & u & -> & Hu0 & Hle & He & _)]]].
  - split.
    + intros id u Hid. rewrite He in Hid. specialize (Hf id u Hid). lia.
    + intros i j u v Hi Hj. rewrite He in Hi, Hj. by apply (Hu i j u v).
  - split.
    + intros id u Hid. rewrite He in Hid. rewrite Hn'.
      apply lookup_insert_Some in Hid as [[<- _]|[_ Hid]]; [lia|].
      specialize (Hf id u Hid). lia.
    + intros i j u v Hi Hj Hl. rewrite He in Hi, Hj.
      apply lookup_insert_Some in Hi as [[<- <-]|[Hni Hi]];
        apply lookup_insert_Some in Hj as [[<- <-]|[Hnj Hj]]; simpl in *.
      * done.
      * exfalso. apply Hfree. by exists j, v.
      * exfalso. apply Hfree. by exists i, u.
      * by apply (Hu i j u v).
  - split.
    + intros id u Hid. rewrite He in Hid.
      destruct (decide (id = UserID o)) as [->|Hne].
      * rewrite lookup_alter_eq in Hid. destruct (users s !! UserID o) as [u0|] eqn:Hu0; [|done].
        specialize (Hf _ _ Hu0). lia.
      * rewrite lookup_alter_ne in Hid by done. specialize (Hf id u Hid). lia.
    + assert (Hlogin : forall i u, alter (PG.credit a) (UserID o) (users s) !! i = Some u ->
                exists u0, users s !! i = Some u0 /\ Login u0 = Login u).
      { intros i u Hi. destruct (decide (i = UserID o)) as [->|Hne].
        - rewrite lookup_alter_eq in Hi. destruct (users s !! UserID o) as [u0|]; [|done].
          injection Hi as <-. by exists u0.
        - rewrite lookup_alter_ne in Hi by done. by exists u. }
      intros i j u v Hi Hj Hl. rewrite He in Hi, Hj.
      destruct (Hlogin i u Hi) as (u0 & Hi0 & Hlu). destruct (Hlogin j v Hj) as (v0 & Hj0 & Hlv).
      apply (Hu i j u0 v0); [done|done|congruence].
  - split.
    + intros id u1 Hid. rewrite He in Hid.
      apply lookup_insert_Some in Hid as [[<- _]|[_ Hid]].
      * specialize (Hf _ _ Hu0). lia.
      * specialize (Hf id u1 Hid). lia.
    + assert (Hlogin : forall i u1, <[uid := PG.debit amt u]> (users s) !! i = Some u1 ->
                exists u0, users s !! i = Some u0 /\ Login u0 = Login u1).
      { intros i u1 Hi. apply lookup_insert_Some in Hi as [[<- <-]|[_ Hi]].
        - by exists u.
        - by exists u1. }
      intros i j u1 v1 Hi Hj Hl. rewrite He in Hi, Hj.
      destruct (Hlogin i u1 Hi) as (u0 & Hi0 & Hlu). destruct (Hlogin j v1 Hj) as (v0 & Hj0 & Hlv).
      apply (Hu i j u0 v0); [done|done|congruence].
Qed.

(** X4. Accounts stay distinct: whatever transactions run on a store whose
    user ids all come from the sequence and whose logins are unique, after
    each of them the ids still come from the sequence and no two users share
    a login. *)
Theorem accounts_stay_distinct ts s :
  ids_fresh s -> logins_unique s ->
  Forall (fun s' => ids_fresh s' /\ logins_unique s') (history ts s).
Proof.
  revert s. induction ts as [|t ts IH]; intros s Hf Hu; simpl; [constructor|].
  destruct (commit_accounts t s Hf Hu) as [Hf' Hu']. constructor; [done | by apply IH].
Qed.

Lemma accounts_stay_distinct_witness :
  ids_fresh empty_store /\ logins_unique empty_store
  /\ Forall (fun s' => ids_fresh s' /\ logins_unique s')
       (history [TxCreateUser "foo" "h"; TxCreateUser "foo" "k"; TxCreateUser "bar" "h"]
          empty_store).
Proof.
  assert (H1 : ids_fresh empty_store).
  { intros id u Hu. simpl in Hu. by rewrite lookup_empty in Hu. }
  assert (H2 : logins_unique empty_store).
  { intros i j u v Hu. simpl in Hu. by rewrite lookup_empty in Hu. }
  split; [exact H1|]. split; [exact H2|].
  exact (accounts_stay_distinct _ empty_store H1 H2).
Defined.

(** X5. [CreateUser] fails with [ErrUserExists] exactly when the login is
    taken, and then no user changes. Otherwise it returns an id no user had,
    the new user starts with balance 0 and nothing withdrawn, and every
    other user is left as it was. *)
Theorem CreateUser_spec login hash s :
  ids_fresh s ->
  (fst (PG.CreateUser login hash s) = inl ErrUserExists <-> login_taken s login)
  /\ (login_taken s login -> users (snd (PG.CreateUser login hash s)) = users s)
  /\ (~ login_taken s login ->
        exists id s1,
          PG.CreateUser login hash s = (inr id, s1)
          /\ users s !! id = None
          /\ users s1 !! id = Some (mkUser login hash 0 0)
          /\ PG.GetBalance id s1 = (inr (0, 0), s1)
          /\ forall other, other ≠ id -> users s1 !! other = users s !! other).
Proof.
  intros Hf. unfold PG.CreateUser.
  assert (Hdec : map_Exists (fun _ u => Login u = login) (users s) <-> login_taken s login).
  { unfold map_Exists, login_taken. done. }
  case_decide as Hex; simpl.
  - apply Hdec in Hex. split; [done|]. split; [done|]. intros Hn. contradiction.
  - rewrite Hdec in Hex. split; [split; [discriminate | contradiction]|].
    split; [contradiction|]. intros _.
    assert (Hnone : users s !! next_user_id s = None).
    { destruct (users s !! next_user_id s) as [u|] eqn:Hu; [|done].
      specialize (Hf _ _ Hu). lia. }
    eexists _, _. split; [reflexivity|]. split; [done|].
    split; [apply lookup_insert_eq|]. split.
    + unfold PG.GetBalance. simpl. by rewrite lookup_insert_eq.
    + intros other Hne. simpl. by rewrite lookup_insert_ne.
Qed.

Lemma CreateUser_spec_witness :
  ids_fresh funded_store
  /\ (fst (PG.CreateUser "foo" "k" funded_store) = inl ErrUserExists
      <-> login_taken funded_store "foo").
Proof.
  assert (H : ids_fresh funded_store).
  { intros id u Hu. unfold funded_store in Hu. simpl in Hu.
    apply lookup_singleton_Some in Hu as [<- _]. simpl. lia. }
  split; [exact H|].
  exact (proj1 (CreateUser_spec "foo" "k" funded_store H)).
Defined.

(** ** The withdrawal ledger *)

Lemma withdrawn_total_app id l1 l2 :
  withdrawn_total id (l1 ++ l2) = withdrawn_total id l1 + withdrawn_total id l2.
Proof. induction l1 as [|r l1 IH]; simpl; [done|]. rewrite IH. lia. Qed.

Lemma withdrawn_total_none id rows :
  (forall r, r ∈ rows -> WUserID r ≠ id) -> withdrawn_total id rows = 0.
Proof.
  induction rows as [|r rows IH]; intros H; simpl; [done|].
  rewrite decide_False by (apply H; left). rewrite IH; [done|].
  intros r' Hr'. apply H. by right.
Qed.

Lemma commit_withdrawn_nonneg t s :
  withdrawal_nonneg t -> withdrawn_nonneg s -> withdrawn_nonneg (commit t s).
Proof.
  intros Ht Hs id u1 Hid.
  destruct (commit_users t s) as [[He Hw]|[(l & h & -> & Hfree & He & Hw & Hn')
    |[(n & a & o & -> & Ho & Ha & He & Hw)|(uid & ord & amt & now & u & -> & Hu0 & Hle & He & Hw)]]];
    rewrite He in Hid.
  - by apply (Hs id).
  - apply lookup_insert_Some in Hid as [[_ <-]|[_ Hid]]; [done | by apply (Hs id)].
  - destruct (decide (id = UserID o)) as [->|Hne].
    + rewrite lookup_alter_eq in Hid. destruct (users s !! UserID o) as [u0|] eqn:Hu; [|done].
      injection Hid as <-. simpl. by apply (Hs (UserID o)).
    + rewrite lookup_alter_ne in Hid by done. by apply (Hs id).
  - apply lookup_insert_Some in Hid as [[_ <-]|[_ Hid]]; [|by apply (Hs id)].
    simpl in *. apply round_half_away_nonneg.
    pose proof (Hs _ _ Hu0) as Hw0. rewrite Zle_Qle in Hw0.
    change (inject_Z 0) with 0%Q in Hw0. lra.
Qed.

Lemma commit_ledger t s :
  withdrawal_nonneg t -> withdrawn_nonneg s -> ledger_ok s -> ledger_ok (commit t s).
Proof.
  intros Ht Hnn (Hf & Hrows & Hsum). pose proof (commit_next_user_id t s) as Hn.
  destruct (commit_users t s) as [[He Hw]|[(l & h & -> & Hfree & He & Hw & Hn')
    |[(n & a & o & -> & Ho & Ha & He & Hw)|(uid & ord & amt & now & u & -> & Hu0 & Hle & He & Hw)]]].
  - split; [|split].
    + intros id u Hid. rewrite He in Hid. specialize (Hf id u Hid). lia.
    + intros r Hr. rewrite Hw in Hr. rewrite He. by apply Hrows.
    + intros id u Hid. rewrite He in Hid. rewrite Hw. by apply Hsum.
  - split; [|split].
    + intros id u Hid. rewrite He in Hid. rewrite Hn'.
      apply lookup_insert_Some in Hid as [[<- _]|[_ Hid]]; [lia|].
      specialize (Hf id u Hid). lia.
    + intros r Hr. rewrite Hw in Hr. rewrite He. destruct (Hrows r Hr) as [u Hu].
      destruct (decide (WUserID r = next_user_id s)) as [Heq|Hne].
      * rewrite Heq in Hu. specialize (Hf _ _ Hu). lia.
      * rewrite lookup_insert_ne by done. by exists u.
    + intros id u Hid. rewrite He in Hid. rewrite Hw.
      apply lookup_insert_Some in Hid as [[<- <-]|[_ Hid]]; [|by apply Hsum].
      simpl. symmetry. apply withdrawn_total_none. intros r Hr Heq.
      destruct (Hrows r Hr) as [u Hu]. rewrite Heq in Hu. specialize (Hf _ _ Hu). lia.
  - split; [|split].
    + intros id u Hid. rewrite He in Hid.
      destruct (decide (id = UserID o)) as [->|Hne].
      * rewrite lookup_alter_eq in Hid. destruct (users s !! UserID o) as [u0|] eqn:Hu0; [|done].
        specialize (Hf _ _ Hu0). lia.
      * rewrite lookup_alter_ne in Hid by done. specialize (Hf id u Hid). lia.
    + intros r Hr. rewrite Hw in Hr. rewrite He. destruct (Hrows r Hr) as [u Hu].
      destruct (decide (WUserID r = UserID o)) as [Heq|Hne].
      * rewrite Heq, lookup_alter_eq. rewrite Heq in Hu. rewrite Hu. by eexists.
      * rewrite lookup_alter_ne by done. by exists u.
    + intros id u Hid. rewrite He in Hid. rewrite Hw.
      destruct (decide (id = UserID o)) as [->|Hne].
      * rewrite lookup_alter_eq in Hid. destruct (users s !! UserID o) as [u0|] eqn:Hu0; [|done].
        injection Hid as <-. simpl. by apply Hsum.
      * rewrite lookup_alter_ne in Hid by done. by apply Hsum.
  - split; [|split].
    + intros id u1 Hid. rewrite He in Hid.
      apply lookup_insert_Some in Hid as [[<- _]|[_ Hid]].
      * specialize (Hf _ _ Hu0). lia.
      * specialize (Hf id u1 Hid). lia.
    + intros r Hr. rewrite Hw in Hr. rewrite He.
      apply elem_of_app in Hr as [Hr|Hr].
      * destruct (Hrows r Hr) as [u1 Hu1].
        destruct (decide (WUserID r = uid)) as [->|Hne].
        -- rewrite lookup_insert_eq. by eexists.
        -- rewrite lookup_insert_ne by done. by exists u1.
      * apply list_elem_of_singleton in Hr as ->. simpl. rewrite lookup_insert_eq. by eexists.
    + intros id u1 Hid. rewrite He in Hid. rewrite Hw, withdrawn_total_app. simpl.
      apply lookup_insert_Some in Hid as [[<- <-]|[Hne Hid]].
      * rewrite decide_True by done. simpl in *.
        rewrite round_half_away_add by (done || by apply (Hnn _ _ Hu0)).
        rewrite (Hsum _ _ Hu0). lia.
      * rewrite decide_False by done. rewrite (Hsum _ _ Hid). lia.
Qed.

Lemma history_ledger ts s :
  ledger_ok s -> withdrawn_nonneg s -> Forall withdrawal_nonneg ts ->
  Forall ledger_ok (history ts s).
Proof.
  intros Hs Hnn Hts. revert s Hs Hnn.
  induction Hts as [|t ts Ht _ IH]; intros s Hs Hnn; simpl; [constructor|].
  pose proof (commit_ledger t s Ht Hnn Hs).
  pose proof (commit_withdrawn_nonneg t s Ht Hnn).
  constructor; [done | by apply IH].
Qed.

(** X6. The ledger adds up: on a store where each user's withdrawn total is
    the sum of that user's withdrawal rows, is not negative, and every row
    belongs to a user, the same holds after every transaction of any
    sequence in which no withdrawal is of a negative sum, whole hundredths
    or not: the store rounds the total and the row alike. *)
Theorem ledger_adds_up ts s :
  ledger_ok s -> withdrawn_nonneg s -> Forall withdrawal_nonneg ts ->
  Forall ledger_ok (history ts s).
Proof.
  intros Hs Hnn Hts. revert s Hs Hnn.
  induction Hts as [|t ts Ht _ IH]; intros s Hs Hnn; simpl; [constructor|].
  pose proof (commit_ledger t s Ht Hnn Hs).
  pose proof (commit_withdrawn_nonneg t s Ht Hnn).
  constructor; [done | by apply IH].
Qed.

Lemma withdrawn_nonneg_empty : withdrawn_nonneg empty_store.
Proof. intros id u Hu. simpl in Hu. by rewrite lookup_empty in Hu. Qed.

Lemma ledger_ok_empty : ledger_ok empty_store.
Proof.
  split; [|split].
  - intros id u Hu. simpl in Hu. by rewrite lookup_empty in Hu.
  - intros r Hr. simpl in Hr. by apply elem_of_nil in Hr.
  - intros id u Hu. simpl in Hu. by rewrite lookup_empty in Hu.
Qed.

Lemma ledger_adds_up_witness :
  ledger_ok empty_store
  /\ withdrawn_nonneg empty_store
  /\ Forall withdrawal_nonneg
       [TxCreateUser "foo" "h"; TxCreateOrder "18" fresh_order;
        TxApplyOrderAccrual "18" 4250; TxWithdraw 1 "26" (8001 # 2) 9]
  /\ Forall ledger_ok
       (history [TxCreateUser "foo" "h"; TxCreateOrder "18" fresh_order;
                 TxApplyOrderAccrual "18" 4250; TxWithdraw 1 "26" (8001 # 2) 9]
          empty_store).
Proof.
  assert (H : Forall withdrawal_nonneg
                [TxCreateUser "foo" "h"; TxCreateOrder "18" fresh_order;
                 TxApplyOrderAccrual "18" 4250; TxWithdraw 1 "26" (8001 # 2) 9]).
  { repeat constructor. vm_compute. discriminate. }
  split; [exact ledger_ok_empty|]. split; [exact withdrawn_nonneg_empty|].
  split; [exact H|].
  exact (ledger_adds_up _ empty_store ledger_ok_empty withdrawn_nonneg_empty H).
Defined.

(** A withdrawal of a negative sum, which only a caller other than the
    services can ask of the repository, may leave the total and the rows
    apart: minus 0.005 on a total of 0.01 leaves the total at 0.01 and adds
    a row of minus 0.01. *)
Lemma ledger_negative_half_cent :
  ledger_ok ledger_store
  /\ ~ ledger_ok (commit (TxWithdraw 1 "26" (-1 # 2) 10) ledger_store).
Proof.
  split.
  - split; [|split].
    + intros id u Hu. unfold ledger_store in Hu. simpl in Hu.
      apply lookup_singleton_Some in Hu as [<- <-]. simpl. lia.
    + intros r Hr. unfold ledger_store in Hr. simpl in Hr.
      apply list_elem_of_singleton in Hr as ->. simpl. by rewrite lookup_singleton_eq.
    + intros id u Hu. unfold ledger_store in Hu. simpl in Hu.
      apply lookup_singleton_Some in Hu as [<- <-]. reflexivity.
  - intros (_ & _ & Hsum).
    specialize (Hsum 1 (mkUser "foo" "h" 1 1)). vm_compute in Hsum.
    by specialize (Hsum eq_refl).
Qed.

(** ** Orders are never lost and never change hands *)

Lemma commit_keeps_order t s number o :
  orders s !! number = Some o ->
  exists o', orders (commit t s) !! number = Some o' /\ same_order o o'.
Proof.
  intros Ho. assert (Hsame : same_order o o) by done.
  destruct t; simpl; try (by exists o).
  - unfold PG.CreateUser. case_decide; by exists o.
  - unfold PG.CreateOrder. destruct (orders s !! number0) eqn:Hn; simpl; [by exists o|].
    exists o. split; [|done]. rewrite lookup_insert_ne; [done|]. intros ->. congruence.
  - unfold PG.ClaimNextForProcessing_in. case_match; by exists o.
  - destruct (decide (number0 = number)) as [->|Hne].
    + rewrite lookup_alter_eq, Ho. simpl. destruct accrual; by eexists.
    + rewrite lookup_alter_ne by done. by exists o.
  - unfold PG.ApplyOrderAccrual. destruct (orders s !! number0) as [o0|] eqn:Ho0; [|by exists o].
    destruct (AccrualApplied o0); simpl; [by exists o|].
    destruct (decide (number0 = number)) as [->|Hne].
    + rewrite lookup_insert_eq. eexists. split; [done|]. 
      assert (o0 = o) by congruence. subst. done.
    + rewrite lookup_insert_ne by done. by exists o.
  - unfold PG.Withdraw. repeat case_match; by exists o.
Qed.

Lemma same_order_trans o1 o2 o3 : same_order o1 o2 -> same_order o2 o3 -> same_order o1 o3.
Proof. unfold same_order. intros [? ?] [? ?]. split; congruence. Qed.

(** X7. An order row, once stored, stays: after every transaction of any
    sequence the number is still there, with the owner and the upload time
    it was created with. *)
Theorem order_owner_stable ts s number o :
  orders s !! number = Some o ->
  Forall (fun s' => exists o', orders s' !! number = Some o' /\ same_order o o')
    (history ts s).
Proof.
  revert s o. induction ts as [|t ts IH]; intros s o Ho; simpl; [constructor|].
  destruct (commit_keeps_order t s number o Ho) as (o1 & Ho1 & Hs1).
  constructor; [by exists o1|].
  eapply Forall_impl; [apply (IH _ o1 Ho1)|].
  intros s' (o' & Ho' & Hs'). exists o'. split; [done|]. by eapply same_order_trans.
Qed.

Lemma order_owner_stable_witness :
  orders fresh_store !! "18" = Some fresh_order
  /\ Forall (fun s' => exists o', orders s' !! "18" = Some o' /\ same_order fresh_order o')
       (history [TxCreateOrder "18" (mkOrder 2 statusNew None 8 false);
                 TxUpdateOrderStatus "18" statusInvalid None] fresh_store).
Proof.
  assert (H : orders fresh_store !! "18" = Some fresh_order) by (vm_compute; reflexivity).
  split; [exact H|].
  exact (order_owner_stable _ fresh_store "18" fresh_order H).
Defined.

(** X8. [CreateOrder] and [GetByNumber]: creating a number that exists
    fails with [ErrOrderExists] and changes nothing; creating a new one
    stores the row, which [GetByNumber] then returns, and leaves every other
    order, the users and the queue alone. [GetByNumber] of a number never
    created is [ErrOrderNotFound]. *)
Theorem CreateOrder_GetByNumber number order s :
  (is_Some (orders s !! number) ->
     PG.CreateOrder number order s = (inl ErrOrderExists, s))
  /\ (orders s !! number = None ->
        PG.GetByNumber number s = (inl ErrOrderNotFound, s)
        /\ exists s1,
             PG.CreateOrder number order s = (inr (), s1)
             /\ PG.GetByNumber number s1 = (inr order, s1)
             /\ (forall other, other ≠ number -> orders s1 !! other = orders s !! other)
             /\ users s1 = users s /\ queue s1 = queue s
             /\ PG.CreateOrder number order s1 = (inl ErrOrderExists, s1)).
Proof.
  unfold PG.CreateOrder, PG.GetByNumber. split.
  - intros [o Ho]. by rewrite Ho.
  - intros Hnone. rewrite Hnone. split; [done|].
    eexists. split; [reflexivity|]. simpl. rewrite lookup_insert_eq.
    split; [done|]. split; [|done]. intros other Hne. by rewrite lookup_insert_ne.
Qed.

(** ** The queue *)

Lemma eligible_claimed now : PG.eligible (mkQueueRow (Some now) statusProcessing) = true.
Proof. reflexivity. Qed.

Lemma claim_result scan now s :
  scan ≡ₚ map_to_list (queue s) ->
  (PG.ClaimNextForProcessing_in scan now s = (inl ErrNoQueueItems, s)
   /\ forall number e, queue s !! number = Some e -> PG.eligible e = false)
  \/ exists number e,
       PG.ClaimNextForProcessing_in scan now s =
         (inr number, set_queue (insert number (mkQueueRow (Some now) statusProcessing)) s)
       /\ queue s !! number = Some e /\ PG.eligible e = true
       /\ forall number' e', queue s !! number' = Some e' -> PG.eligible e' = true ->
            PG.coalesce_epoch e <= PG.coalesce_epoch e'.
Proof.
  intros Hscan.
  assert (Hmem : forall n e, (n, e) ∈ scan <-> queue s !! n = Some e).
  { intros n e. rewrite Hscan. apply elem_of_map_to_list. }
  unfold PG.ClaimNextForProcessing_in.
  destruct (PG.select_next scan) as [number|] eqn:Hsel.
  - right. apply select_next_Some in Hsel as (e & Hin & Hel & Hmin).
    apply Hmem in Hin. exists number, e. split.
    { unfold set_queue. by rewrite (alter_const_insert _ _ e). }
    split; [done|]. split; [done|].
    intros n' e' Hn' He'. apply (Hmin (n', e')); [by apply Hmem | done].
  - left. split; [done|]. rewrite select_next_None in Hsel.
    intros n e Hn. apply (Hsel (n, e)). by apply Hmem.
Qed.

(** X9. A claim does not reserve the entry: the claimed entry stays in the
    queue with status PROCESSING, which is eligible, so the next claim
    succeeds too, and when no other entry is eligible it hands out the same
    number again. *)
Theorem claim_is_not_exclusive scan now s number s1 scan' now' :
  scan ≡ₚ map_to_list (queue s) ->
  PG.ClaimNextForProcessing_in scan now s = (inr number, s1) ->
  scan' ≡ₚ map_to_list (queue s1) ->
  (exists number', fst (PG.ClaimNextForProcessing_in scan' now' s1) = inr number')
  /\ ((forall other e, other ≠ number -> queue s !! other = Some e -> PG.eligible e = false) ->
        fst (PG.ClaimNextForProcessing_in scan' now' s1) = inr number).
Proof.
  intros Hscan Hclaim Hscan'.
  destruct (claim_result scan now s Hscan) as [[Hno _]|(n & e & Hres & Hn & He & _)];
    [congruence|].
  rewrite Hres in Hclaim. injection Hclaim as <- <-.
  set (s1 := set_queue (insert n (mkQueueRow (Some now) statusProcessing)) s) in *.
  assert (Hn1 : queue s1 !! n = Some (mkQueueRow (Some now) statusProcessing))
    by apply lookup_insert_eq.
  destruct (claim_result scan' now' s1 Hscan') as [[_ Hall]|(n' & e' & Hres' & Hn' & He' & _)].
  { specialize (Hall _ _ Hn1). done. }
  rewrite Hres'. split; [by exists n'|].
  intros Hothers. simpl. f_equal.
  destruct (decide (n' = n)) as [->|Hne]; [done|].
  subst s1. simpl in Hn'. rewrite lookup_insert_ne in Hn' by done.
  rewrite (Hothers n' e' Hne Hn') in He'. done.
Qed.

Lemma claim_is_not_exclusive_witness :
  map_to_list (queue fresh_store) ≡ₚ map_to_list (queue fresh_store)
  /\ fst (PG.ClaimNextForProcessing 200 fresh_store) = inr "18"
  /\ fst (PG.ClaimNextForProcessing 201 (snd (PG.ClaimNextForProcessing 200 fresh_store)))
     = inr "18".
Proof.
  assert (H1 : map_to_list (queue fresh_store) ≡ₚ map_to_list (queue fresh_store))
    by reflexivity.
  assert (H2 : PG.ClaimNextForProcessing_in (map_to_list (queue fresh_store)) 200 fresh_store
               = (inr "18", snd (PG.ClaimNextForProcessing 200 fresh_store)))
    by (vm_compute; reflexivity).
  assert (H3 : map_to_list (queue (snd (PG.ClaimNextForProcessing 200 fresh_store)))
               ≡ₚ map_to_list (queue (snd (PG.ClaimNextForProcessing 200 fresh_store))))
    by reflexivity.
  split; [exact H1|]. split; [vm_compute; reflexivity|].
  refine (proj2 (claim_is_not_exclusive _ 200 fresh_store "18" _ _ 201 H1 H2 H3) _).
  intros other e Hne Hq. exfalso. apply Hne.
  unfold fresh_store in Hq. simpl in Hq. by apply lookup_singleton_Some in Hq as [<- _].
Defined.

(** X10. Rotation: once an entry is claimed at a time later than the
    [last_check] of another eligible entry, the next claim passes over it
    and returns a different number. *)
Theorem claim_rotates scan now s number s1 other e scan' now' :
  scan ≡ₚ map_to_list (queue s) ->
  PG.ClaimNextForProcessing_in scan now s = (inr number, s1) ->
  other ≠ number -> queue s !! other = Some e -> PG.eligible e = true ->
  PG.coalesce_epoch e < now ->
  scan' ≡ₚ map_to_list (queue s1) ->
  exists number', fst (PG.ClaimNextForProcessing_in scan' now' s1) = inr number'
    /\ number' ≠ number.
Proof.
  intros Hscan Hclaim Hne Hother Hel Hlt Hscan'.
  destruct (claim_result scan now s Hscan) as [[Hno _]|(n & e0 & Hres & Hn & He & _)];
    [congruence|].
  rewrite Hres in Hclaim. injection Hclaim as <- <-.
  set (s1 := set_queue (insert n (mkQueueRow (Some now) statusProcessing)) s) in *.
  assert (Ho1 : queue s1 !! other = Some e).
  { subst s1. simpl. by rewrite lookup_insert_ne. }
  destruct (claim_result scan' now' s1 Hscan') as [[_ Hall]|(n' & e' & Hres' & Hn' & He' & Hmin)].
  { rewrite (Hall _ _ Ho1) in Hel. done. }
  rewrite Hres'. exists n'. split; [done|]. intros ->.
  subst s1. simpl in Hn'. rewrite lookup_insert_eq in Hn'. injection Hn' as <-.
  specialize (Hmin other e Ho1 Hel). unfold PG.coalesce_epoch in Hmin at 1. simpl in Hmin. lia.
Qed.

Lemma claim_rotates_witness :
  exists number',
    fst (PG.ClaimNextForProcessing 200
           (snd (PG.ClaimNextForProcessing 100 pre_epoch_store))) = inr number'
    /\ number' ≠ "18".
Proof.
  assert (H1 : map_to_list (queue pre_epoch_store) ≡ₚ map_to_list (queue pre_epoch_store))
    by reflexivity.
  assert (H2 : PG.ClaimNextForProcessing_in (map_to_list (queue pre_epoch_store)) 100
                 pre_epoch_store
               = (inr "18", snd (PG.ClaimNextForProcessing 100 pre_epoch_store)))
    by (vm_compute; reflexivity).
  assert (H3 : "26" ≠ "18") by discriminate.
  assert (H4 : queue pre_epoch_store !! "26" = Some (mkQueueRow None statusNew))
    by (vm_compute; reflexivity).
  assert (H5 : PG.eligible (mkQueueRow None statusNew) = true) by reflexivity.
  assert (H6 : PG.coalesce_epoch (mkQueueRow None statusNew) < 100) by (vm_compute; reflexivity).
  assert (H7 : map_to_list (queue (snd (PG.ClaimNextForProcessing 100 pre_epoch_store)))
               ≡ₚ map_to_list (queue (snd (PG.ClaimNextForProcessing 100 pre_epoch_store))))
    by reflexivity.
  exact (claim_rotates _ 100 pre_epoch_store "18" _ "26" _ _ 200 H1 H2 H3 H4 H5 H6 H7).
Defined.

(** X11. [DeleteProcessingEntry] takes the number out of every later claim:
    after it, whatever the scan order and the time, a claim returns another
    number or [ErrNoQueueItems]; deleting a number that is not queued
    changes nothing; [UpsertProcessing] brings the number back with status
    as given and an unset [last_check]. *)
Theorem DeleteProcessingEntry_spec number s :
  let s1 := snd (PG.DeleteProcessingEntry number s) in
  (forall scan now, scan ≡ₚ map_to_list (queue s1) ->
     fst (PG.ClaimNextForProcessing_in scan now s1) ≠ inr number)
  /\ (queue s !! number = None -> s1 = s)
  /\ snd (PG.DeleteProcessingEntry number s1) = s1
  /\ (forall status,
        queue (snd (PG.UpsertProcessing number status s1)) !! number
        = Some (mkQueueRow None status)).
Proof.
  intros s1. split; [|split; [|split]].
  - intros scan now Hscan Hres.
    destruct (claim_result scan now s1 Hscan) as [[Hno _]|(n & e & Hr & Hn & _)].
    + rewrite Hno in Hres. done.
    + rewrite Hr in Hres. simpl in Hres. injection Hres as ->.
      subst s1. simpl in Hn. by rewrite lookup_delete_eq in Hn.
  - intros Hnone. subst s1. destruct s as [us nid os ws q]. cbn in *.
    unfold set_queue. cbn. by rewrite delete_id.
  - subst s1. cbn. unfold set_queue. cbn. rewrite (delete_id (delete number (queue s))); [done|].
    apply lookup_delete_eq.
  - intros status. subst s1. simpl. rewrite lookup_delete_eq. apply lookup_insert_eq.
Qed.

(** X12. [UpsertProcessing] on a queued number replaces the status and
    keeps [last_check], so the entry keeps its place in the claim order; on
    a new number it inserts the entry with an unset [last_check]. Either way
    no other entry changes, and doing it twice is the same as once. *)
Theorem UpsertProcessing_spec number status s :
  let s1 := snd (PG.UpsertProcessing number status s) in
  (forall e, queue s !! number = Some e ->
     queue s1 !! number = Some (mkQueueRow (last_check e) status))
  /\ (queue s !! number = None -> queue s1 !! number = Some (mkQueueRow None status))
  /\ (forall other, other ≠ number -> queue s1 !! other = queue s !! other)
  /\ snd (PG.UpsertProcessing number status s1) = s1
  /\ orders s1 = orders s /\ users s1 = users s.
Proof.
  simpl. split; [|split; [|split; [|split]]].
  - intros e He. rewrite He. apply lookup_insert_eq.
  - intros He. rewrite He. apply lookup_insert_eq.
  - intros other Hne. by rewrite lookup_insert_ne.
  - unfold set_queue. simpl. rewrite lookup_insert_eq. f_equal.
    destruct (queue s !! number); simpl; apply insert_insert_eq.
  - done.
Qed.

(** ** What [processNumber] does to the claimed entry *)

Lemma release_run number now w :
  release number now w =
    (inr (),
     mkWorld (set_queue (alter (fun _ => release_row now) number) (store w))
       (rateLimitUntil w)
       (points w ++ [set_queue (alter (fun _ => release_row now) number) (store w)])).
Proof. reflexivity. Qed.

Section Outcome.

Variable ToUpper : string -> string.

(** X13. The worker never drops an entry it could not finish: for every
    reply other than a decoded [200] with status PROCESSED or INVALID (a
    transport error, an undecodable body, [204], [429], [500], any other
    code, any other status), [processNumber] leaves the entry of the number
    in the queue with status PROCESSING and [last_check] the current time,
    and touches no other queue entry, no other order, no user and no
    withdrawal; unless the reply is a decoded [200], it touches no order at
    all. *)
Theorem processNumber_keeps_entry number reply now w :
  ~ final_reply ToUpper reply ->
  let w' := snd (processNumber ToUpper number reply now w) in
  queue (store w') = alter (fun _ => release_row now) number (queue (store w))
  /\ users (store w') = users (store w)
  /\ withdrawals (store w') = withdrawals (store w)
  /\ (forall other, other ≠ number -> orders (store w') !! other = orders (store w) !! other)
  /\ (~ decoded_ok reply -> orders (store w') = orders (store w)).
Proof.
  intros Hnf. unfold processNumber. destruct reply as [|code retryAfter body].
  { unfold bind, try. rewrite release_run. simpl. done. }
  destruct (code =? StatusOK) eqn:Hcode.
  - destruct body as [payload|].
    2: { unfold bind, try. rewrite release_run. simpl. done. }
    simpl in Hnf. fold (normalized_status ToUpper payload).
    assert (Hc : code = StatusOK) by lia.
    destruct (decide (normalized_status ToUpper payload = statusProcessed)) as [Hp|Hp].
    { exfalso. apply Hnf. split; [done | by left]. }
    destruct (decide (normalized_status ToUpper payload = statusInvalid)) as [Hi|Hi].
    { exfalso. apply Hnf. split; [done | by right]. }
    unfold bind, call. simpl.
    split; [done|]. split; [done|]. split; [done|]. split.
    + intros other Hne. by rewrite lookup_alter_ne.
    + intros Hnd. exfalso. by apply Hnd.
  - assert (Hgoal : forall m : M unit,
              (m = release number now
               \/ exists t, m = (client_SetRateLimitUntil t;; release number now)) ->
              let w' := snd (m w) in
              queue (store w') = alter (fun _ => release_row now) number (queue (store w))
              /\ users (store w') = users (store w)
              /\ withdrawals (store w') = withdrawals (store w)
              /\ (forall other, other ≠ number ->
                    orders (store w') !! other = orders (store w) !! other)
              /\ (~ decoded_ok (Response code retryAfter body) ->
                    orders (store w') = orders (store w))).
    { intros m [->|[t ->]].
      - rewrite release_run. simpl. done.
      - unfold bind, client_SetRateLimitUntil. rewrite release_run. simpl. done. }
    destruct (code =? StatusNoContent); [apply Hgoal; by left|].
    destruct (code =? StatusTooManyRequests); [apply Hgoal; right; by eexists|].
    destruct (code =? StatusInternalServerError); apply Hgoal; by left.
Qed.

(** X14. A reply that ends the processing takes the entry out of the
    queue: after a decoded [200] with status INVALID, or PROCESSED without
    accrual, or PROCESSED with an accrual for a number that has an order
    row, the queue no longer holds the number and every other entry is as
    before. With an accrual and no order row, [processNumber] fails with
    [ErrOrderNotFound] and leaves the store as it was. *)
Theorem processNumber_final_reply number code retryAfter payload now w :
  final_reply ToUpper (Response code retryAfter (Some payload)) ->
  let reply := Response code retryAfter (Some payload) in
  let r := processNumber ToUpper number reply now w in
  ((p_Accrual payload = None
    \/ normalized_status ToUpper payload = statusInvalid
    \/ is_Some (orders (store w) !! number)) ->
     fst r = inr () /\ queue (store (snd r)) = delete number (queue (store w)))
  /\ (normalized_status ToUpper payload = statusProcessed ->
      is_Some (p_Accrual payload) -> orders (store w) !! number = None ->
      fst r = inl ErrOrderNotFound /\ store (snd r) = store w).
Proof.
  intros [Hc Hst]. simpl. unfold processNumber.
  replace (code =? StatusOK) with true by lia.
  fold (normalized_status ToUpper payload).
  destruct (decide (normalized_status ToUpper payload = statusProcessed)) as [Hp|Hp].
  - destruct (p_Accrual payload) as [accrual|] eqn:Hacc.
    + unfold bind, call, ret, PG.ApplyOrderAccrual.
      destruct (orders (store w) !! number) as [o|] eqn:Ho; simpl.
      * split; [|intros _ _ ?; discriminate]. intros _.
        destruct (AccrualApplied o); simpl; done.
      * split; [|done]. intros [?|[Hi|[? ?]]]; [discriminate| |discriminate].
        rewrite Hp in Hi. discriminate.
    + unfold bind, call, ret. simpl. split; [done|]. intros _ [? ?]. discriminate.
  - destruct Hst as [?|Hi]; [done|].
    rewrite decide_True by done. unfold bind, call. simpl. split; [done|].
    intros Hp'. congruence.
Qed.

(** X15. Only a [429] moves the rate-limit deadline, and never back: after
    [processNumber] the deadline is the later of the old one and the current
    time plus the parsed [Retry-After] when the reply is a [429], and the
    old one for every other reply. *)
Theorem processNumber_deadline number reply now w :
  rateLimitUntil (snd (processNumber ToUpper number reply now w)) =
    match reply with
    | Response code retryAfter _ =>
        if code =? StatusTooManyRequests
        then Z.max (rateLimitUntil w) (now + parseRetryAfter retryAfter)
        else rateLimitUntil w
    | DoGetError => rateLimitUntil w
    end.
Proof.
  unfold processNumber. destruct reply as [|code retryAfter body].
  { unfold bind, try. rewrite release_run. done. }
  destruct (code =? StatusOK) eqn:Hok.
  - replace (code =? StatusTooManyRequests) with false
      by (unfold StatusOK, StatusTooManyRequests in *; lia).
    destruct body as [payload|].
    2: { unfold bind, try. rewrite release_run. done. }
    destruct (decide (_ = statusProcessed)).
    { destruct (p_Accrual payload); unfold bind, call, ret; simpl.
      - by destruct (PG.ApplyOrderAccrual _ _ _) as [[?|?] ?].
      - done. }
    destruct (decide (_ = statusInvalid)); unfold bind, call; simpl; done.
  - destruct (code =? StatusNoContent) eqn:Hnc.
    { replace (code =? StatusTooManyRequests) with false
        by (unfold StatusNoContent, StatusTooManyRequests in *; lia).
      by rewrite release_run. }
    destruct (code =? StatusTooManyRequests).
    { unfold bind, client_SetRateLimitUntil. rewrite release_run. simpl.
      unfold SetRateLimitUntil. case_match; lia. }
    destruct (code =? StatusInternalServerError); by rewrite release_run.
Qed.

End Outcome.

Lemma processNumber_keeps_entry_witness :
  ~ final_reply ToUpper_ASCII (Response 204 "" None)
  /\ queue (store (snd (processNumber ToUpper_ASCII "18" (Response 204 "" None) 300
                          (mkWorld fresh_store 0 []))))
     = alter (fun _ => release_row 300) "18" (queue fresh_store).
Proof.
  assert (H : ~ final_reply ToUpper_ASCII (Response 204 "" None)) by (simpl; tauto).
  split; [exact H|].
  exact (proj1 (processNumber_keeps_entry ToUpper_ASCII "18" _ 300
                  (mkWorld fresh_store 0 []) H)).
Defined.

Lemma processNumber_final_reply_witness :
  final_reply ToUpper_ASCII invalid_reply
  /\ queue (store (snd (processNumber ToUpper_ASCII "18" invalid_reply 300
                          (mkWorld fresh_store 0 []))))
     = delete "18" (queue fresh_store).
Proof.
  assert (H : final_reply ToUpper_ASCII invalid_reply).
  { split; [reflexivity|]. right. vm_compute. reflexivity. }
  split; [exact H|].
  exact (proj2 (proj1 (processNumber_final_reply ToUpper_ASCII "18" _ _ _ 300
                         (mkWorld fresh_store 0 []) H) (or_introl eq_refl))).
Defined.

(** ** [parseRetryAfter] *)

(** X16. [parseRetryAfter] answers one minute when the header is blank,
    is not a number or is not positive; for a header of [n] seconds with
    [n] up to 9223372036 it answers [n] seconds. In both cases the answer
    is at least one second. *)
Theorem parseRetryAfter_range value :
  (TrimSpace value = "" \/ Atoi (TrimSpace value) = None
   \/ (exists n, Atoi (TrimSpace value) = Some n /\ n <= 0) ->
   parseRetryAfter value = 60 * Second)
  /\ (forall n, Atoi (TrimSpace value) = Some n -> 0 < n <= 9223372036 ->
        parseRetryAfter value = n * Second)
  /\ ((forall n, Atoi (TrimSpace value) = Some n -> n <= 9223372036) ->
        Second <= parseRetryAfter value).
Proof.
  unfold parseRetryAfter, Second.
  assert (Hempty : Atoi "" = None) by reflexivity.
  assert (Hwrap : forall n, 0 < n <= 9223372036 -> wrap64 (n * 1000000000) = n * 1000000000).
  { intros n Hn. unfold wrap64. rewrite Z.mod_small; lia. }
  split; [|split].
  - intros [He|[Hn|(n & Hn & Hle)]].
    + by rewrite decide_True.
    + case_decide; [done|]. by rewrite Hn.
    + case_decide; [done|]. rewrite Hn. by replace (n <=? 0) with true by lia.
  - intros n Hn Hr. case_decide as He; [rewrite He, Hempty in Hn; done|].
    rewrite Hn. replace (n <=? 0) with false by lia. by apply Hwrap.
  - intros Hb. case_decide; [lia|].
    destruct (Atoi (TrimSpace value)) as [n|] eqn:Hn; [|lia].
    destruct (n <=? 0) eqn:E; [lia|]. rewrite Hwrap; [lia|].
    specialize (Hb n eq_refl). lia.
Qed.

Lemma parseRetryAfter_range_witness :
  Atoi (TrimSpace " 2 ") = Some 2 /\ parseRetryAfter " 2 " = 2 * Second.
Proof.
  assert (H1 : Atoi (TrimSpace " 2 ") = Some 2) by (vm_compute; reflexivity).
  assert (H2 : 0 < 2 <= 9223372036) by lia.
  split; [exact H1|].
  exact (proj1 (proj2 (parseRetryAfter_range " 2 ")) 2 H1 H2).
Defined.

(** Beyond that bound the multiplication by [time.Second] wraps. *)
Example parseRetryAfter_wraps : parseRetryAfter "9223372037" < 0.
Proof. vm_compute. reflexivity. Qed.

(** ** The wait group counts the workers *)

Lemma pool_step_counts ToUpper sys evs sys' :
  pool_step ToUpper sys evs sys' ->
  wg (pool sys) = Z.of_nat (running sys) ->
  wg (pool sys') = Z.of_nat (running sys')
  /\ (running sys' <= running sys)%nat
  /\ workers (pool sys') = workers (pool sys).
Proof.
  intros Hstep Hwg. destruct Hstep as [sys n Hr|sys n scan now err w' Hr _ _
                                      |sys n scan now number w1 reply r w2 Hr _ _ _]; simpl.
  - rewrite Hwg, Hr. split; [lia|]. split; [lia|]. done.
  - done.
  - done.
Qed.

Lemma pool_run_counts ToUpper sys evs sys' :
  pool_run ToUpper sys evs sys' ->
  wg (pool sys) = Z.of_nat (running sys) ->
  wg (pool sys') = Z.of_nat (running sys')
  /\ (running sys' <= running sys)%nat
  /\ workers (pool sys') = workers (pool sys).
Proof.
  induction 1 as [sys|sys1 evs sys2 evs' sys3 Hstep _ IH]; intros Hwg; [done|].
  destruct (pool_step_counts _ _ _ _ Hstep Hwg) as (Hwg2 & Hle & Hwk).
  destruct (IH Hwg2) as (Hwg3 & Hle3 & Hwk3). split; [done|]. split; [lia | congruence].
Qed.

Lemma start_loop_workers k sys :
  workers (pool (start_loop k sys)) = workers (pool sys).
Proof. revert sys. induction k as [|k IH]; intros sys; simpl; [done|]. by rewrite IH. Qed.

(** X17. From [Start] on, the wait-group counter equals the number of
    goroutines still running [runWorker], which never exceeds the number
    started: [Wait] returns exactly when every worker has returned. The
    number of workers the pool was built with never changes. *)
Theorem pool_wait_group ToUpper n interval w evs sys' :
  pool_run ToUpper (Start (mkSystem (NewWorkerPool n interval) w 0)) evs sys' ->
  wg (pool sys') = Z.of_nat (running sys')
  /\ (running sys' <= Z.to_nat n)%nat
  /\ (Wait_returns sys' <-> running sys' = 0%nat)
  /\ workers (pool sys') = n.
Proof.
  set (sys0 := Start (mkSystem (NewWorkerPool n interval) w 0)).
  assert (H0 : wg (pool sys0) = Z.of_nat (running sys0)
               /\ (running sys0 <= Z.to_nat n)%nat /\ workers (pool sys0) = n).
  { subst sys0. unfold Start. simpl. destruct (n <=? 0) eqn:E; simpl.
    { split; [done|]. split; [lia|done]. }
    destruct (start_loop_counts (Z.to_nat n) (mkSystem (NewWorkerPool n interval) w 0))
      as (Hr & Hw & _).
    rewrite Hr, Hw, start_loop_workers. simpl. split; [lia|]. split; [lia|done]. }
  destruct H0 as (Hwg0 & Hle0 & Hwk0). intros Hrun.
  destruct (pool_run_counts _ _ _ _ Hrun Hwg0) as (Hwg & Hle & Hwk).
  split; [done|]. split; [lia|]. split; [|congruence].
  unfold Wait_returns. rewrite Hwg. lia.
Qed.

Lemma pool_wait_group_witness :
  pool_run ToUpper_ASCII (Start (mkSystem (NewWorkerPool 3 2) init_world 0)) []
    (Start (mkSystem (NewWorkerPool 3 2) init_world 0))
  /\ wg (pool (Start (mkSystem (NewWorkerPool 3 2) init_world 0))) = 3.
Proof.
  assert (H : pool_run ToUpper_ASCII (Start (mkSystem (NewWorkerPool 3 2) init_world 0)) []
                (Start (mkSystem (NewWorkerPool 3 2) init_world 0))) by apply run_nil.
  split; [exact H|].
  exact (proj1 (pool_wait_group ToUpper_ASCII 3 2 init_world [] _ H)).
Defined.

(** ** Every queue entry has its order *)

Lemma queue_has_order_txn t s :
  (forall number status, t ≠ TxUpsertProcessing number status) ->
  queue_has_order s -> queue_has_order (commit t s).
Proof.
  intros Hnot Hs.
  assert (Hkeep : forall n, is_Some (orders s !! n) -> is_Some (orders (commit t s) !! n)).
  { intros n [o Ho]. destruct (commit_keeps_order t s n o Ho) as (o' & Ho' & _). by exists o'. }
  assert (Hq : forall n e, queue (commit t s) !! n = Some e -> is_Some (queue s !! n)).
  { intros n e. destruct t; simpl; try (intros Hx; by eexists).
    - unfold PG.CreateUser. case_decide; simpl; intros Hx; by eexists.
    - unfold PG.CreateOrder. case_match; simpl; intros Hx; by eexists.
    - exfalso. by eapply Hnot.
    - unfold PG.ClaimNextForProcessing_in. case_match; simpl; [|intros Hx; by eexists].
      intros Hx. destruct (decide (n = s0)) as [->|Hne].
      + rewrite lookup_alter_eq in Hx. destruct (queue s !! s0); [by eexists | done].
      + rewrite lookup_alter_ne in Hx by done. by eexists.
    - intros Hx. destruct (decide (n = number)) as [->|Hne].
      + rewrite lookup_alter_eq in Hx. destruct (queue s !! number); [by eexists | done].
      + rewrite lookup_alter_ne in Hx by done. by eexists.
    - intros Hx. apply lookup_delete_Some in Hx as [_ Hx]. by eexists.
    - unfold PG.ApplyOrderAccrual. repeat case_match; simpl; intros Hx;
        try (apply lookup_delete_Some in Hx as [_ Hx]); by eexists.
    - unfold PG.Withdraw. repeat case_match; simpl; intros Hx; by eexists. }
  intros n e Hn. destruct (Hq n e Hn) as [e0 He0]. apply Hkeep. by apply (Hs n e0).
Qed.

Lemma Forall_snoc_points {A} (P : A -> Prop) (l : list A) x :
  Forall P l -> P x -> Forall P (l ++ [x]).
Proof. intros Hl Hx. apply Forall_app. split; [done | by constructor]. Qed.

Lemma pp_ret {A} P (a : A) : preserves_points P (ret a).
Proof. by intros w. Qed.

Lemma pp_fail {A} P e : preserves_points P (@fail A e).
Proof. by intros w. Qed.

Lemma pp_bind {A B} P (m : M A) (k : A -> M B) :
  preserves_points P m -> (forall a, preserves_points P (k a)) ->
  preserves_points P (bind m k).
Proof.
  intros Hm Hk w Hw Hp. unfold bind. destruct (Hm w Hw Hp) as [H1 H2].
  destruct (m w) as [[e|a] w1]; [done|]. by apply Hk.
Qed.

Lemma pp_try {A} P (m : M A) : preserves_points P m -> preserves_points P (try m).
Proof. intros Hm w Hw Hp. unfold try. specialize (Hm w Hw Hp). by destruct (m w). Qed.

Lemma pp_call {A} (P : Store -> Prop) (op : Op A) :
  (forall s, P s -> P (snd (op s))) -> preserves_points P (call op).
Proof.
  intros Hop w Hw Hp. unfold call. specialize (Hop _ Hw).
  destruct (op (store w)) as [r s1]. simpl in *. split; [done|].
  by apply Forall_snoc_points.
Qed.

Lemma pp_SetRateLimitUntil P t : preserves_points P (client_SetRateLimitUntil t).
Proof. by intros w. Qed.

Lemma pp_txn {A} (op : Op A) t :
  (forall number status, t ≠ TxUpsertProcessing number status) ->
  (forall s, snd (op s) = commit t s) ->
  preserves_points queue_has_order (call op).
Proof.
  intros Ht Hop. apply pp_call. intros s Hs. rewrite Hop. by apply queue_has_order_txn.
Qed.

Lemma SubmitOrder_queue_has_order userID number now :
  preserves_points queue_has_order (SubmitOrder userID number now).
Proof.
  intros w Hw Hp. unfold SubmitOrder.
  destruct (ValidateOrderNumber (TrimSpace number)); [done|].
  unfold bind, try, call, PG.GetByNumber, resolve_owner.
  destruct (orders (store w) !! TrimSpace number) as [o|] eqn:Ho; simpl.
  { case_decide; simpl; (split; [done | by apply Forall_snoc_points]). }
  unfold PG.CreateOrder. simpl. rewrite Ho. simpl.
  set (order := mkOrder userID statusNew None now false).
  assert (H1 : queue_has_order (set_orders (insert (TrimSpace number) order) (store w))).
  { intros n e Hn. simpl in *. destruct (decide (n = TrimSpace number)) as [->|Hne].
    - rewrite lookup_insert_eq. by eexists.
    - rewrite lookup_insert_ne by done. by apply (Hw n e). }
  assert (H2 : queue_has_order
                 (snd (PG.UpsertProcessing (TrimSpace number) statusNew
                         (set_orders (insert (TrimSpace number) order) (store w))))).
  { intros n e Hn. simpl in *. destruct (decide (n = TrimSpace number)) as [->|Hne].
    - rewrite lookup_insert_eq. by eexists.
    - rewrite lookup_insert_ne in Hn by done. rewrite lookup_insert_ne by done.
      by apply (Hw n e). }
  split; [exact H2|].
  repeat apply Forall_snoc_points; done.
Qed.

Lemma WithdrawManager_Withdraw_queue_has_order userID order amount now :
  preserves_points queue_has_order (WithdrawManager_Withdraw userID order amount now).
Proof.
  unfold WithdrawManager_Withdraw.
  destruct (ValidateOrderNumber _); [apply pp_fail|].
  destruct (Qle_bool amount 0); [apply pp_fail|].
  by apply (pp_txn _ (TxWithdraw userID (TrimSpace order) amount now)).
Qed.

Section QueueOrders.

Variable ToUpper : string -> string.

Lemma processNumber_queue_has_order number reply now :
  preserves_points queue_has_order (processNumber ToUpper number reply now).
Proof.
  assert (Hrel : preserves_points queue_has_order (release number now)).
  { by apply (pp_txn _ (TxUpdateProcessingStatus number statusProcessing now)). }
  assert (Hupd : forall status accrual,
            preserves_points queue_has_order (call (PG.UpdateOrderStatus number status accrual))).
  { intros status accrual.
    by apply (pp_txn _ (TxUpdateOrderStatus number status accrual)). }
  assert (Hdel : preserves_points queue_has_order (call (PG.DeleteProcessingEntry number))).
  { by apply (pp_txn _ (TxDeleteProcessingEntry number)). }
  unfold processNumber. destruct reply as [|code retryAfter body].
  { apply pp_bind; [by apply pp_try|]. intros _. apply pp_fail. }
  destruct (code =? StatusOK).
  - destruct body as [payload|].
    2: { apply pp_bind; [by apply pp_try|]. intros _. apply pp_fail. }
    destruct (decide (_ = statusProcessed)).
    { apply pp_bind.
      - destruct (p_Accrual payload) as [accrual|].
        + apply pp_bind; [|intros _; apply pp_ret].
          by apply (pp_txn _ (TxApplyOrderAccrual number accrual)).
        + apply pp_bind; [apply Hupd | intros _; apply pp_ret].
      - intros applied. destruct applied; simpl; [apply pp_ret | apply Hdel]. }
    destruct (decide (_ = statusInvalid)).
    + apply pp_bind; [apply Hupd | intros _; apply Hdel].
    + apply pp_bind; [apply Hupd | intros _; apply Hrel].
  - destruct (code =? StatusNoContent); [apply Hrel|].
    destruct (code =? StatusTooManyRequests).
    { apply pp_bind; [apply pp_SetRateLimitUntil | intros _; apply Hrel]. }
    destruct (code =? StatusInternalServerError); apply Hrel.
Qed.

(** X18. Every queue entry has its order row, at every point: in every
    state the handlers and the workers reach, and in every state the store
    passes through between two repository calls on the way, a number that
    is queued has a row in [orders]. *)
Theorem reachable_queue_has_order w :
  reachable ToUpper w ->
  queue_has_order (store w) /\ Forall queue_has_order (points w).
Proof.
  induction 1 as [|w w' _ [IH1 IH2] Hstep].
  - assert (He : queue_has_order empty_store).
    { intros n e Hn. simpl in Hn. by rewrite lookup_empty in Hn. }
    simpl. split; [done|]. by constructor.
  - destruct Hstep.
    + by apply (pp_txn _ (TxCreateUser login hash)).
    + by apply SubmitOrder_queue_has_order.
    + by apply WithdrawManager_Withdraw_queue_has_order.
    + by apply (pp_txn _ (TxClaimNext scan now)).
    + by apply processNumber_queue_has_order.
Qed.

End QueueOrders.

Lemma invalid_run_reachable : reachable ToUpper_ASCII invalid_run.
Proof.
  unfold invalid_run.
  eapply reach_step; [eapply reach_step; [eapply reach_step; [apply reach_init|] |] |].
  - apply (step_submit ToUpper_ASCII 1 "18" 100).
  - apply step_claim. reflexivity.
  - apply step_process.
Qed.

Lemma reachable_queue_has_order_witness :
  reachable ToUpper_ASCII invalid_run
  /\ Forall queue_has_order (points invalid_run).
Proof.
  split; [exact invalid_run_reachable|].
  exact (proj2 (reachable_queue_has_order ToUpper_ASCII invalid_run invalid_run_reachable)).
Defined.

(** ** Trimming twice *)

Lemma DecodeRune_prefix b0 t t' :
  t' `prefix_of` t ->
  (snd (DecodeRune (b0 :: t)) <= length (b0 :: t'))%nat ->
  DecodeRune (b0 :: t') = DecodeRune (b0 :: t).
Proof.
  intros [k ->] Hw. revert Hw. unfold DecodeRune.
  destruct (b0 <? RuneSelf); [done|].
  destruct t' as [|b1 [|b2 [|b3 t3]]]; cbn [app length];
    repeat (case_match; try done; cbn [snd]; try lia);
    destruct k as [|k1 [|k2 [|k3 k]]]; cbn [app] in *; simplify_eq; try done.
Qed.

Lemma decode_aux_fuel fuel1 fuel2 p :
  (length p <= fuel1)%nat -> (length p <= fuel2)%nat ->
  decode_aux fuel1 p = decode_aux fuel2 p.
Proof.
  revert fuel2 p. induction fuel1 as [|fuel1 IH]; intros fuel2 p H1 H2.
  - destruct p; [|simpl in H1; lia]. by destruct fuel2.
  - destruct p as [|b t]; [by destruct fuel2|].
    destruct fuel2 as [|fuel2]; [simpl in H2; lia|].
    cbn [decode_aux]. destruct (DecodeRune (b :: t)) as [r w] eqn:Hd.
    pose proof (DecodeRune_width (b :: t) ltac:(done)) as Hw. rewrite Hd in Hw. simpl snd in Hw.
    f_equal. apply IH; rewrite length_drop; simpl in *; lia.
Qed.

Lemma decode_cons b t :
  decode (b :: t) =
    (fst (DecodeRune (b :: t)), take (snd (DecodeRune (b :: t))) (b :: t))
    :: decode (drop (snd (DecodeRune (b :: t))) (b :: t)).
Proof.
  unfold decode. cbn [length decode_aux].
  pose proof (DecodeRune_width (b :: t) ltac:(done)) as Hw.
  destruct (DecodeRune (b :: t)) as [r w]. simpl snd in *. simpl fst. f_equal.
  apply decode_aux_fuel; rewrite ?length_drop; simpl; lia.
Qed.

Lemma decode_nil : decode [] = [].
Proof. reflexivity. Qed.

(** Decoding is by chunks: the chunks of a string, from any chunk boundary
    to any later one, are the chunks of the bytes in between. *)
Lemma decode_drop j p :
  decode (concat (map snd (drop j (decode p)))) = drop j (decode p).
Proof.
  revert p. induction j as [|j IH]; intros p.
  - by rewrite drop_0, decode_concat.
  - destruct p as [|b t]; [done|]. rewrite decode_cons. cbn [drop]. apply IH.
Qed.

Lemma concat_take_prefix {A} k (ls : list (list A)) :
  concat (take k ls) `prefix_of` concat ls.
Proof.
  exists (concat (drop k ls)). by rewrite <- concat_app, take_drop.
Qed.

Lemma decode_take k p :
  decode (concat (map snd (take k (decode p)))) = take k (decode p).
Proof.
  remember (length p) as n eqn:Hn. revert k p Hn.
  induction n as [n IH] using lt_wf_ind. intros k p ->.
  destruct k as [|k]; [done|]. destruct p as [|b t]; [done|].
  rewrite decode_cons.
  pose proof (DecodeRune_width (b :: t) ltac:(done)) as Hw.
  destruct (DecodeRune (b :: t)) as [r w] eqn:Hd. simpl snd in *. simpl fst.
  cbn [take map concat snd].
  set (rest := drop w (b :: t)) in *.
  set (q := concat (map snd (take k (decode rest)))).
  assert (Hq : q `prefix_of` rest).
  { subst q. rewrite <- (decode_concat rest) at 2. rewrite <- firstn_map.
    apply concat_take_prefix. }
  destruct w as [|w]; [lia|]. cbn [take app]. 
  assert (Hpre : (take w t ++ q) `prefix_of` t).
  { destruct Hq as [q' Hq']. exists q'. subst rest. cbn [drop] in Hq'.
    rewrite <- app_assoc, <- Hq'. by rewrite take_drop. }
  assert (Hlen : length (take w t) = w).
  { rewrite length_take. simpl in Hw. lia. }
  assert (Hdq : DecodeRune (b :: take w t ++ q) = (r, S w)).
  { rewrite (DecodeRune_prefix b t (take w t ++ q) Hpre); [done|].
    rewrite Hd. simpl. rewrite length_app. lia. }
  rewrite decode_cons, Hdq. simpl fst. simpl snd. cbn [take drop].
  rewrite take_app_length' by done. rewrite drop_app_length' by done.
  f_equal. subst q. apply (IH (length rest)); [|done].
  subst rest. rewrite length_drop. simpl. lia.
Qed.

Lemma decode_infix j k p :
  decode (concat (map snd (take k (drop j (decode p))))) = take k (drop j (decode p)).
Proof. rewrite <- (decode_drop j p) at 1 2. apply decode_take. Qed.

Lemma drop_while_drop {A} (f : A -> bool) l : exists j, drop_while f l = drop j l.
Proof.
  induction l as [|x l [j Hj]]; [by exists 0%nat|]. simpl.
  destruct (f x); [by exists (S j) | by exists 0%nat].
Qed.

Lemma drop_while_head {A} (f : A -> bool) l x l' :
  drop_while f l = x :: l' -> f x = false.
Proof.
  induction l as [|y l IH]; [done|]. simpl. destruct (f y) eqn:E; [done|].
  by intros [= <- _].
Qed.

Lemma drop_while_fix {A} (f : A -> bool) l :
  (forall x l', l = x :: l' -> f x = false) -> drop_while f l = l.
Proof. destruct l as [|x l]; [done|]. intros H. simpl. by rewrite (H x l). Qed.

Lemma trim_chunks_infix cs : exists j k, trim_chunks cs = take k (drop j cs).
Proof.
  unfold trim_chunks.
  destruct (drop_while_drop (fun c : Z * list Z => IsSpace (fst c)) cs) as [j ->].
  destruct (drop_while_drop (fun c : Z * list Z => IsSpace (fst c)) (rev (drop j cs)))
    as [i ->].
  exists j, (length (drop j cs) - i)%nat.
  rewrite <- (rev_involutive (take _ _)). f_equal.
  by rewrite <- skipn_rev.
Qed.

Lemma trim_chunks_idemp cs : trim_chunks (trim_chunks cs) = trim_chunks cs.
Proof.
  unfold trim_chunks at 1.
  set (f := fun c : Z * list Z => IsSpace (fst c)).
  assert (Hlast : drop_while f (rev (trim_chunks cs)) = rev (trim_chunks cs)).
  { apply drop_while_fix. intros x l' Hx. unfold trim_chunks in Hx.
    rewrite rev_involutive in Hx. by apply drop_while_head in Hx. }
  assert (Hfirst : drop_while f (trim_chunks cs) = trim_chunks cs).
  { apply drop_while_fix. intros x l' Hx.
    destruct (drop_while f cs) as [|y l] eqn:Hd.
    - unfold trim_chunks in Hx. fold f in Hx. rewrite Hd in Hx. done.
    - assert (Hy := drop_while_head _ _ _ _ Hd).
      unfold trim_chunks in Hx. fold f in Hx. rewrite Hd in Hx.
      destruct (drop_while_drop f (rev (y :: l))) as [i Hi]. rewrite Hi in Hx.
      rewrite skipn_rev, rev_involutive in Hx.
      destruct (length (y :: l) - i)%nat; [done|]. simpl in Hx. by injection Hx as <- _. }
  rewrite Hfirst, Hlast. apply rev_involutive.
Qed.

Lemma TrimSpace_bytes s :
  bytes_of (TrimSpace s) = concat (map snd (trim_chunks (decode (bytes_of s)))).
Proof.
  unfold TrimSpace. apply bytes_of_of_bytes.
  destruct (trim_chunks_infix (decode (bytes_of s))) as (j & k & ->).
  apply Forall_forall. intros b Hb.
  assert (Hin : b ∈ bytes_of s).
  { rewrite <- (decode_concat (bytes_of s)).
    apply list_elem_of_In, in_concat in Hb as (c & Hc & Hbc).
    apply list_elem_of_In, in_concat. exists c. split; [|done].
    apply in_map_iff in Hc as (ch & <- & Hch).
    apply in_map_iff. exists ch. split; [done|].
    apply list_elem_of_In. apply list_elem_of_In in Hch.
    by apply subseteq_take, subseteq_drop in Hch. }
  pose proof (bytes_of_range s) as Hr. rewrite Forall_forall in Hr. by apply Hr.
Qed.

Lemma TrimSpace_idemp s : TrimSpace (TrimSpace s) = TrimSpace s.
Proof.
  unfold TrimSpace at 1. rewrite TrimSpace_bytes.
  destruct (trim_chunks_infix (decode (bytes_of s))) as (j & k & Hjk).
  rewrite Hjk at 1. rewrite decode_infix, <- Hjk, trim_chunks_idemp. done.
Qed.

Lemma ValidateOrderNumber_trim s :
  ValidateOrderNumber (TrimSpace s) = ValidateOrderNumber s.
Proof. unfold ValidateOrderNumber. by rewrite TrimSpace_idemp. Qed.

(** ** Trimming once is trimming for good *)

(** X19. [strings.TrimSpace] is idempotent on every byte string, valid
    UTF-8 or not, and so [ValidateOrderNumber], which trims its argument
    itself, gives the same verdict on a string and on its trimmed form.
    The handlers trim and validate before they call a service that trims
    and validates again; the two checks always agree. *)
Theorem ValidateOrderNumber_TrimSpace s :
  TrimSpace (TrimSpace s) = TrimSpace s
  /\ ValidateOrderNumber (TrimSpace s) = ValidateOrderNumber s.
Proof. split; [apply TrimSpace_idemp | apply ValidateOrderNumber_trim]. Qed.


(** ** Withdrawing over HTTP *)



(** ** Listing a user's orders *)

Global Instance newer_first_total : Total newer_first.
Proof. intros x y. unfold newer_first. lia. Qed.

Global Instance newer_first_trans : Transitive newer_first.
Proof. intros x y z. unfold newer_first. lia. Qed.

Lemma ListUserOrders_in_elem scan userID row :
  row ∈ ListUserOrders_in scan userID <-> row ∈ scan /\ UserID (snd row) = userID.
Proof.
  unfold ListUserOrders_in. rewrite merge_sort_Permutation.
  by rewrite list_elem_of_filter, (comm and).
Qed.

(** X21. Whatever the order in which the table is read, the list of a
    user's orders holds exactly the orders of the store that belong to the
    user, each number once, newest first. [handleListOrders] answers 204
    exactly when the user has no order, and otherwise 200 with one item per
    order in that sequence; an item shows an accrual only when its order is
    PROCESSED. *)
Theorem ListUserOrders_spec s scan userID :
  scan ≡ₚ map_to_list (orders s) ->
  let res := ListUserOrders_in scan userID in
  (forall number o,
     (number, o) ∈ res <-> orders s !! number = Some o /\ UserID o = userID)
  /\ NoDup (res.*1)
  /\ StronglySorted newer_first res
  /\ (fst (handleListOrders "GET" (Some userID) scan) = StatusNoContent
      <-> forall number o, orders s !! number = Some o -> UserID o <> userID)
  /\ (res <> [] ->
      handleListOrders "GET" (Some userID) scan = (StatusOK, map order_item res))
  /\ (forall item, In item (snd (handleListOrders "GET" (Some userID) scan)) ->
      r_Accrual item <> None -> r_Status item = statusProcessed).
Proof.
  intros Hscan res.
  assert (Helem : forall number o,
            (number, o) ∈ res <-> orders s !! number = Some o /\ UserID o = userID).
  { intros number o. subst res. rewrite ListUserOrders_in_elem, Hscan.
    by rewrite elem_of_map_to_list. }
  assert (Hnil : res = [] <->
                 forall number o, orders s !! number = Some o -> UserID o <> userID).
  { split.
    - intros Hres number o Ho Hu.
      assert (Hin : (number, o) ∈ res) by (by apply Helem).
      rewrite Hres in Hin. by apply elem_of_nil in Hin.
    - intros Hnone. destruct res as [|[number o] l] eqn:Hres; [done|].
      destruct (proj1 (Helem number o)) as [Ho Hu]; [left|].
      by destruct (Hnone number o Ho). }
  split; [exact Helem|]. split; [|split; [|split; [|split]]].
  - subst res. unfold ListUserOrders_in. rewrite merge_sort_Permutation.
    apply (sublist_NoDup _ (scan.*1)).
    + rewrite Hscan. apply NoDup_fst_map_to_list.
    + apply fmap_sublist, sublist_filter.
  - apply StronglySorted_merge_sort; apply _.
  - rewrite <- Hnil. unfold handleListOrders.
    rewrite decide_False by (intros H; by apply H). fold res.
    destruct res as [|x l]; simpl; [done|]. split; [|done].
    unfold StatusOK, StatusNoContent. done.
  - intros Hne. unfold handleListOrders.
    rewrite decide_False by (intros H; by apply H). fold res.
    destruct res as [|x l]; [done|]. done.
  - intros item. unfold handleListOrders.
    rewrite decide_False by (intros H; by apply H). fold res.
    destruct (decide (length res = 0%nat)); [done|]. cbn [snd].
    intros Hin. apply in_map_iff in Hin as ([number o] & <- & _).
    unfold order_item. cbn [r_Accrual r_Status].
    by destruct (decide (Status o = statusProcessed)).
Qed.

Lemma ListUserOrders_spec_witness :
  map_to_list (orders fresh_store) ≡ₚ map_to_list (orders fresh_store)
  /\ StronglySorted newer_first
       (ListUserOrders_in (map_to_list (orders fresh_store)) 1).
Proof.
  assert (H1 : map_to_list (orders fresh_store) ≡ₚ map_to_list (orders fresh_store))
    by reflexivity.
  split; [exact H1|].
  exact (proj1 (proj2 (proj2 (ListUserOrders_spec fresh_store _ 1 H1)))).
Defined.

(** ** What the balance and the withdrawals of a user show *)

Global Instance later_first_total : Total later_first.
Proof. intros x y. unfold later_first. lia. Qed.

Global Instance later_first_trans : Transitive later_first.
Proof. intros x y z. unfold later_first. lia. Qed.

Lemma withdrawn_total_filter id rows :
  withdrawn_total id rows
  = foldr Z.add 0 (map Sum (filter (fun r => WUserID r = id) rows)).
Proof.
  induction rows as [|r rows IH]; [done|]. simpl. rewrite filter_cons.
  destruct (decide (WUserID r = id)); simpl; lia.
Qed.

Lemma foldr_add_Permutation (f : Withdrawal -> Z) l l' :
  l ≡ₚ l' -> foldr Z.add 0 (map f l) = foldr Z.add 0 (map f l').
Proof. induction 1; simpl; lia. Qed.

Lemma listed_total_items rows :
  listed_total (map withdrawal_item rows) = foldr Z.add 0 (map Sum rows).
Proof. unfold listed_total. induction rows as [|r rows IH]; simpl in *; [done|]. lia. Qed.

(** X22. The two views of an account agree. In every state of every
    history from the empty store in which no withdrawal is of a negative
    sum, whole hundredths or not, for every user: [handleBalance] answers
    200 with the user's balance and withdrawn total; [handleWithdrawals]
    answers 204 exactly when the user has no withdrawal and otherwise 200
    with the user's withdrawals, latest first; and the sums it lists add up
    to the withdrawn total [handleBalance] shows, whatever the order in
    which the table is read. *)
Theorem balance_matches_withdrawals ts s scan userID u :
  s ∈ history ts empty_store ->
  Forall withdrawal_nonneg ts ->
  scan ≡ₚ withdrawals s ->
  users s !! userID = Some u ->
  let listed := handleWithdrawals "GET" (Some userID) scan in
  handleBalance "GET" (Some userID) s = (StatusOK, Some (Balance u, Withdrawn u))
  /\ listed_total (snd listed) = Withdrawn u
  /\ (fst listed = StatusNoContent <-> forall r, r ∈ withdrawals s -> WUserID r <> userID)
  /\ (fst listed = StatusOK \/ fst listed = StatusNoContent)
  /\ snd listed = (if decide (fst listed = StatusOK)
                   then map withdrawal_item (ListWithdrawals_in scan userID) else [])
  /\ (forall r, r ∈ ListWithdrawals_in scan userID <-> r ∈ withdrawals s /\ WUserID r = userID)
  /\ StronglySorted later_first (ListWithdrawals_in scan userID).
Proof.
  intros Hs Hts Hscan Hu listed.
  assert (Hl : ledger_ok s).
  { pose proof (history_ledger ts empty_store ledger_ok_empty withdrawn_nonneg_empty Hts)
      as H.
    rewrite Forall_forall in H. by apply H. }
  destruct Hl as (_ & _ & Hsum).
  assert (Helem : forall r, r ∈ ListWithdrawals_in scan userID
                            <-> r ∈ withdrawals s /\ WUserID r = userID).
  { intros r. unfold ListWithdrawals_in. rewrite merge_sort_Permutation.
    by rewrite list_elem_of_filter, Hscan, (comm and). }
  assert (Htot : foldr Z.add 0 (map Sum (ListWithdrawals_in scan userID)) = Withdrawn u).
  { rewrite (Hsum _ _ Hu), withdrawn_total_filter. apply foldr_add_Permutation.
    unfold ListWithdrawals_in. rewrite merge_sort_Permutation. by rewrite Hscan. }
  assert (Hnil : ListWithdrawals_in scan userID = []
                 <-> forall r, r ∈ withdrawals s -> WUserID r <> userID).
  { split.
    - intros Hres r Hr Hid. assert (Hin : r ∈ ListWithdrawals_in scan userID) by (by apply Helem).
      rewrite Hres in Hin. by apply elem_of_nil in Hin.
    - intros Hnone. destruct (ListWithdrawals_in scan userID) as [|r l] eqn:Hres; [done|].
      destruct (proj1 (Helem r)) as [Hr Hid]; [left|]. by destruct (Hnone r Hr). }
  subst listed. unfold handleWithdrawals, handleBalance, PG.GetBalance.
  rewrite !decide_False by (intros H; by apply H). rewrite Hu. cbn [fst].
  split; [done|].
  destruct (ListWithdrawals_in scan userID) as [|r l] eqn:Hres.
  - simpl. split; [by rewrite <- Htot|]. split; [by rewrite <- Hnil|].
    split; [by right|]. split; [done|]. split; [done|]. constructor.
  - cbn [length]. rewrite decide_False by done. cbn [fst snd].
    split; [by rewrite listed_total_items|]. split.
    { rewrite <- Hnil. split; [intros [=]|done]. }
    split; [by left|]. split; [by rewrite decide_True|]. split; [done|].
    rewrite <- Hres. apply StronglySorted_merge_sort; apply _.
Qed.

Lemma balance_matches_withdrawals_witness :
  funded_after_withdraw ∈ history [TxCreateUser "foo" "h"; TxCreateOrder "18" fresh_order;
                 TxApplyOrderAccrual "18" 4250; TxWithdraw 1 "26" 4000 9] empty_store
  /\ Forall withdrawal_nonneg [TxCreateUser "foo" "h"; TxCreateOrder "18" fresh_order;
                 TxApplyOrderAccrual "18" 4250; TxWithdraw 1 "26" 4000 9]
  /\ withdrawals funded_after_withdraw ≡ₚ withdrawals funded_after_withdraw
  /\ users funded_after_withdraw !! 1 = Some (mkUser "foo" "h" 250 4000)
  /\ listed_total (snd (handleWithdrawals "GET" (Some 1) (withdrawals funded_after_withdraw)))
     = 4000.
Proof.
  assert (H1 : funded_after_withdraw
               ∈ history [TxCreateUser "foo" "h"; TxCreateOrder "18" fresh_order;
                          TxApplyOrderAccrual "18" 4250; TxWithdraw 1 "26" 4000 9] empty_store).
  { do 3 right. left. }
  assert (H0 : Forall withdrawal_nonneg [TxCreateUser "foo" "h"; TxCreateOrder "18" fresh_order;
                          TxApplyOrderAccrual "18" 4250; TxWithdraw 1 "26" 4000 9]).
  { repeat constructor. vm_compute. discriminate. }
  assert (H2 : withdrawals funded_after_withdraw ≡ₚ withdrawals funded_after_withdraw)
    by reflexivity.
  assert (H3 : users funded_after_withdraw !! 1 = Some (mkUser "foo" "h" 250 4000))
    by (vm_compute; reflexivity).
  split; [exact H1|]. split; [exact H0|]. split; [exact H2|]. split; [exact H3|].
  exact (proj1 (proj2 (balance_matches_withdrawals _ _ _ 1 _ H1 H0 H2 H3))).
Defined.

(** ** The compressing response writer *)

Lemma statuses_app l1 l2 : statuses (l1 ++ l2) = statuses l1 ++ statuses l2.
Proof. apply flat_map_app. Qed.

Lemma raw_bytes_app l1 l2 : raw_bytes (l1 ++ l2) = raw_bytes l1 ++ raw_bytes l2.
Proof. apply flat_map_app. Qed.

Lemma gz_bytes_app l1 l2 : gz_bytes (l1 ++ l2) = gz_bytes l1 ++ gz_bytes l2.
Proof. apply flat_map_app. Qed.

Lemma closes_app l1 l2 : closes (l1 ++ l2) = (closes l1 + closes l2)%nat.
Proof. unfold closes. by rewrite filter_app, length_app. Qed.

(** Once the header is written, every call is passed on, the bytes one way
    only. *)
Lemma gz_after_header calls g :
  wroteHeader g = true -> (gzipWriter g = true -> useGzip g = true) ->
  let g' := foldl gz_call g calls in
  wroteHeader g' = true /\ useGzip g' = useGzip g
  /\ gzipWriter g' = gzipWriter g || (useGzip g && has_write calls)
  /\ exists ev, out g' = out g ++ ev /\ statuses ev = [] /\ closes ev = 0%nat
       /\ (if useGzip g then gz_bytes ev = written calls /\ raw_bytes ev = []
           else raw_bytes ev = written calls /\ gz_bytes ev = []).
Proof.
  revert g. induction calls as [|c calls IH]; intros g Hw Hz; cbn [foldl].
  - simpl. rewrite andb_false_r, orb_false_r. repeat split; try done.
    exists []. rewrite app_nil_r. by destruct (useGzip g).
  - assert (Hstep : wroteHeader (gz_call g c) = true
              /\ useGzip (gz_call g c) = useGzip g
              /\ gzipWriter (gz_call g c)
                 = gzipWriter g
                   || (useGzip g && match c with CWrite _ => true | _ => false end)
              /\ exists ev, out (gz_call g c) = out g ++ ev /\ statuses ev = []
                   /\ closes ev = 0%nat
                   /\ (if useGzip g
                       then gz_bytes ev = written [c] /\ raw_bytes ev = []
                       else raw_bytes ev = written [c] /\ gz_bytes ev = [])).
    { destruct c as [k v|st|b|]; cbn [gz_call].
      - simpl. rewrite andb_false_r, orb_false_r. repeat split; try done.
        exists [HeaderSet k v]. by destruct (useGzip g).
      - unfold gz_WriteHeader. rewrite Hw, andb_false_r, orb_false_r.
        repeat split; try done. exists []. rewrite app_nil_r. by destruct (useGzip g).
      - unfold gz_Write. rewrite Hw. cbn [negb]. unfold ensureWriter.
        destruct (useGzip g) eqn:Hu; cbn [negb orb andb].
        + destruct (gzipWriter g) eqn:Hg; simpl; rewrite ?Hu, ?Hw;
            (repeat split; try done); exists [GzWrite b]; simpl; by rewrite app_nil_r.
        + simpl. rewrite Hu, Hw, orb_false_r. repeat split; try done.
          exists [RWWrite b]. simpl. by rewrite app_nil_r.
      - unfold gz_Flush. rewrite andb_false_r, orb_false_r.
        destruct (useGzip g && gzipWriter g) eqn:Hug; simpl; (repeat split; try done).
        + exists [GzFlush; RWFlush]. rewrite <- app_assoc. by destruct (useGzip g).
        + exists [RWFlush]. by destruct (useGzip g). }
    destruct Hstep as (Hw1 & Hu1 & Hg1 & ev1 & Ho1 & Hs1 & Hc1 & Hb1).
    destruct (IH (gz_call g c) Hw1) as (Hw2 & Hu2 & Hg2 & ev2 & Ho2 & Hs2 & Hc2 & Hb2).
    { rewrite Hu1, Hg1. intros H. apply orb_true_iff in H as [H|H]; [by apply Hz|].
      by apply andb_true_iff in H as [H _]. }
    cbn zeta. split; [done|]. split; [congruence|]. split.
    { rewrite Hg2, Hg1, Hu1. cbn [has_write existsb].
      destruct (gzipWriter g), (useGzip g), c; simpl; try done;
        by rewrite ?orb_true_r, ?orb_false_r. }
    exists (ev1 ++ ev2). rewrite Ho2, Ho1, <- app_assoc. split; [done|].
    rewrite statuses_app, closes_app, gz_bytes_app, raw_bytes_app, Hs1, Hs2, Hc1, Hc2.
    split; [done|]. split; [done|]. rewrite Hu1 in Hb2.
    replace (written (c :: calls)) with (written [c] ++ written calls)
      by (unfold written; simpl; by rewrite app_nil_r).
    destruct (useGzip g); destruct Hb1 as [-> ->]; destruct Hb2 as [-> ->]; done.
Qed.

(** Up to the first status, the calls are passed on as they are; the first
    status decides which way the bytes go. *)
Lemma gz_before_header calls g :
  wroteHeader g = false -> useGzip g = true -> gzipWriter g = false ->
  let g' := foldl gz_call g calls in
  exists ev, out g' = out g ++ ev /\ closes ev = 0%nat
    /\ match first_status calls with
       | None =>
           wroteHeader g' = false /\ useGzip g' = true /\ gzipWriter g' = false
           /\ statuses ev = [] /\ raw_bytes ev = [] /\ gz_bytes ev = []
           /\ written calls = [] /\ has_write calls = false
       | Some st =>
           wroteHeader g' = true /\ useGzip g' = negb (st =? StatusNoContent)
           /\ gzipWriter g' = negb (st =? StatusNoContent) && has_write calls
           /\ statuses ev = [st]
           /\ (if st =? StatusNoContent
               then raw_bytes ev = written calls /\ gz_bytes ev = []
               else gz_bytes ev = written calls /\ raw_bytes ev = [])
       end
    /\ (no_early_flush calls = true -> forall h,
          header_sent h ev =
            match first_status calls with
            | None => None
            | Some st => Some (if st =? StatusNoContent then user_header h calls
                               else gzip_header (user_header h calls))
            end).
Proof.
  revert g. induction calls as [|c calls IH]; intros g Hw Hu Hz; cbn [foldl].
  - exists []. rewrite app_nil_r. simpl. done.
  - destruct c as [k v|st|b|].
    + destruct (IH (gz_call g (CHeaderSet k v))) as (ev & Ho & Hc & Hst & Hh); try done.
      exists (HeaderSet k v :: ev). cbn zeta. rewrite Ho. cbn [gz_call emit out].
      rewrite <- app_assoc. split; [done|]. split; [done|]. split; [exact Hst|].
      intros Hf h. cbn [header_sent first_status user_header]. by apply Hh.
    + set (g1 := gz_call g (CWriteHeader st)).
      assert (H1 : wroteHeader g1 = true /\ useGzip g1 = negb (st =? StatusNoContent)
                   /\ gzipWriter g1 = false
                   /\ out g1 = out g ++ (if st =? StatusNoContent then []
                                         else [HeaderDel "Content-Length";
                                               HeaderSet "Content-Encoding" "gzip"])
                                 ++ [RWWriteHeader st]).
      { subst g1. cbn [gz_call]. unfold gz_WriteHeader. rewrite Hw.
        destruct (st =? StatusNoContent); cbn [wroteHeader useGzip gzipWriter out emit].
        - done.
        - rewrite Hu. cbn [wroteHeader useGzip gzipWriter out emit].
          by rewrite <- app_assoc. }
      destruct H1 as (Hw1 & Hu1 & Hz1 & Ho1).
      destruct (gz_after_header calls g1 Hw1) as (Hw2 & Hu2 & Hz2 & ev & Ho2 & Hs2 & Hc2 & Hb2).
      { by rewrite Hz1. }
      exists ((if st =? StatusNoContent then []
               else [HeaderDel "Content-Length"; HeaderSet "Content-Encoding" "gzip"])
              ++ [RWWriteHeader st] ++ ev).
      cbn zeta. fold g1. rewrite Ho2, Ho1, <- !app_assoc. split; [done|].
      cbn [first_status user_header].
      rewrite Hu1 in Hb2, Hz2, Hu2. rewrite Hz1 in Hz2.
      replace (written (CWriteHeader st :: calls)) with (written calls) by done.
      replace (has_write (CWriteHeader st :: calls)) with (has_write calls) by done.
      destruct (st =? StatusNoContent) eqn:E; cbn [app negb] in *.
      * change (RWWriteHeader st :: ev) with ([RWWriteHeader st] ++ ev).
        rewrite closes_app, Hc2. split; [done|].
        rewrite statuses_app, raw_bytes_app, gz_bytes_app, Hs2.
        destruct Hb2 as [-> ->]. done.
      * change (HeaderDel "Content-Length" :: HeaderSet "Content-Encoding" "gzip"
                :: RWWriteHeader st :: ev)
          with ([HeaderDel "Content-Length"; HeaderSet "Content-Encoding" "gzip";
                 RWWriteHeader st] ++ ev).
        rewrite closes_app, Hc2. split; [done|].
        rewrite statuses_app, raw_bytes_app, gz_bytes_app, Hs2.
        destruct Hb2 as [-> ->]. done.
    + set (g1 := gz_call g (CWrite b)).
      assert (H1 : wroteHeader g1 = true /\ useGzip g1 = true /\ gzipWriter g1 = true
                   /\ out g1 = out g ++ [HeaderDel "Content-Length";
                                         HeaderSet "Content-Encoding" "gzip";
                                         RWWriteHeader StatusOK; GzWrite b]).
      { subst g1. cbn [gz_call]. unfold gz_Write, gz_WriteHeader, ensureWriter.
        rewrite Hw. cbn [negb].
        replace (StatusOK =? StatusNoContent) with false by done.
        cbn [wroteHeader useGzip gzipWriter out emit]. rewrite Hu.
        cbn [wroteHeader useGzip gzipWriter out emit negb orb]. rewrite Hz.
        cbn [wroteHeader useGzip gzipWriter out emit]. by rewrite <- !app_assoc. }
      destruct H1 as (Hw1 & Hu1 & Hz1 & Ho1).
      destruct (gz_after_header calls g1 Hw1) as (Hw2 & Hu2 & Hz2 & ev & Ho2 & Hs2 & Hc2 & Hb2).
      { done. }
      exists ([HeaderDel "Content-Length"; HeaderSet "Content-Encoding" "gzip";
               RWWriteHeader StatusOK; GzWrite b] ++ ev).
      cbn zeta. fold g1. rewrite Ho2, Ho1, <- !app_assoc. split; [done|].
      cbn [first_status user_header].
      rewrite Hu1 in Hb2, Hz2, Hu2. rewrite Hz1 in Hz2.
      replace (StatusOK =? StatusNoContent) with false by done. cbn [negb andb].
      rewrite closes_app, Hc2. split; [done|].
      rewrite statuses_app, raw_bytes_app, gz_bytes_app, Hs2.
      replace (written (CWrite b :: calls)) with (b ++ written calls) by done.
      replace (has_write (CWrite b :: calls)) with true by done.
      destruct Hb2 as [-> ->]. repeat split; try done.
      cbn. by rewrite app_nil_r.
    + assert (Hg1 : gz_call g CFlush = emit [RWFlush] g).
      { cbn [gz_call]. unfold gz_Flush. by rewrite Hz, andb_false_r. }
      cbn zeta. rewrite Hg1.
      destruct (IH (emit [RWFlush] g)) as (ev & Ho & Hc & Hst & Hh); try done.
      exists (RWFlush :: ev). rewrite Ho. cbn [emit out]. rewrite <- app_assoc.
      split; [done|]. split; [done|]. split; [exact Hst|]. done.
Qed.

Lemma header_sent_app h log log' h' :
  header_sent h log = Some h' -> header_sent h (log ++ log') = Some h'.
Proof.
  revert h. induction log as [|o log IH]; intros h; [done|].
  destruct o; cbn [header_sent app]; try done; apply IH.
Qed.

(** X23. What a handler's calls become behind the compressing writer, for
    every sequence of [Header().Set], [WriteHeader], [Write] and [Flush]:
    the wrapped writer gets one status, the first the handler sends (200
    when it writes first), and none when the handler sends none. After a
    first status of 204 every byte is written as it is and nothing is
    compressed; after any other first status every byte goes through the
    compressor and none around it, and the compressor is closed once if
    the handler wrote anything and not made at all if it wrote nothing.
    Unless the handler flushes before its first status, the header that
    goes out is the handler's own for a 204, and the handler's with
    [Content-Length] removed and [Content-Encoding: gzip] set for any other
    status, body or not. *)
Theorem gzip_writer_spec calls :
  let log := wrapHandlerForGzip calls in
  statuses log = match first_status calls with None => [] | Some st => [st] end
  /\ (first_status calls = None ->
        written calls = [] /\ raw_bytes log = [] /\ gz_bytes log = []
        /\ closes log = 0%nat)
  /\ (first_status calls = Some StatusNoContent ->
        raw_bytes log = written calls /\ gz_bytes log = [] /\ closes log = 0%nat)
  /\ (forall st, first_status calls = Some st -> st <> StatusNoContent ->
        gz_bytes log = written calls /\ raw_bytes log = []
        /\ closes log = if has_write calls then 1%nat else 0%nat)
  /\ (no_early_flush calls = true ->
        header_sent ∅ log =
          match first_status calls with
          | None => None
          | Some st => Some (if st =? StatusNoContent then user_header ∅ calls
                             else gzip_header (user_header ∅ calls))
          end).
Proof.
  intros log. subst log. unfold wrapHandlerForGzip.
  destruct (gz_before_header calls newGzipResponseWriter)
    as (ev & Ho & Hc & Hst & Hh); try done.
  set (g := foldl gz_call newGzipResponseWriter calls) in *.
  cbn [out newGzipResponseWriter app] in Ho.
  destruct (first_status calls) as [st|] eqn:Hfs.
  - destruct Hst as (Hw & Hu & Hz & Hs & Hb).
    unfold gz_Close. rewrite Hu, Hz.
    destruct (st =? StatusNoContent) eqn:E; cbn [negb andb].
    + rewrite Ho. destruct Hb as [Hr Hg].
      split; [done|]. split; [done|]. split; [done|]. split.
      { intros st' [= <-] Hne. apply Z.eqb_eq in E. done. }
      intros Hf. by apply Hh.
    + destruct (has_write calls) eqn:Hhw; cbn [emit out]; rewrite Ho.
      * rewrite statuses_app, closes_app, gz_bytes_app, raw_bytes_app, Hs, Hc.
        destruct Hb as [-> ->]. cbn. rewrite !app_nil_r.
        split; [done|]. split; [done|]. split.
        { intros [= ->]. done. }
        split; [done|]. intros Hf. apply header_sent_app. by apply Hh.
      * destruct Hb as [-> ->]. split; [done|]. split; [done|]. split.
        { intros [= ->]. done. }
        split; [done|]. intros Hf. by apply Hh.
  - destruct Hst as (Hw & Hu & Hz & Hs & Hr & Hg & Hwr & Hhw).
    unfold gz_Close. rewrite Hu, Hz. cbn [andb]. rewrite Ho.
    split; [done|]. split; [done|]. split; [done|]. split; [done|].
    intros Hf. by apply Hh.
Qed.

Lemma gzip_writer_spec_witness :
  first_status [CWriteHeader StatusUnauthorized] = Some StatusUnauthorized
  /\ StatusUnauthorized <> StatusNoContent
  /\ closes (wrapHandlerForGzip [CWriteHeader StatusUnauthorized]) = 0%nat.
Proof.
  assert (H1 : first_status [CWriteHeader StatusUnauthorized] = Some StatusUnauthorized)
    by reflexivity.
  assert (H2 : StatusUnauthorized <> StatusNoContent) by (vm_compute; discriminate).
  split; [exact H1|]. split; [exact H2|].
  exact (proj2 (proj2 (proj1 (proj2 (proj2 (proj2
    (gzip_writer_spec [CWriteHeader StatusUnauthorized]))))
      StatusUnauthorized H1 H2))).
Defined.

(** A flush before the first status sends the header without
    [Content-Encoding], and the body is compressed all the same. *)
Example gzip_writer_early_flush :
  let log := wrapHandlerForGzip [CFlush; CWrite [104; 105]] in
  header_sent ∅ log = Some ∅ /\ gz_bytes log = [104; 105] /\ raw_bytes log = [].
Proof. vm_compute. done. Qed.

(** ** The configuration *)

Lemma wrap64_id z : - 2 ^ 63 <= z <= 2 ^ 63 - 1 -> wrap64 z = z.
Proof. intros Hz. unfold wrap64. rewrite Z.mod_small; lia. Qed.

Lemma wrap64_range z : - 2 ^ 63 <= wrap64 z <= 2 ^ 63 - 1.
Proof. unfold wrap64. pose proof (Z.mod_pos_bound (z + 2 ^ 63) (2 ^ 64)). lia. Qed.

Lemma applyEnv_spec env cfg :
  let cfg' := applyEnv env cfg in
  RunAddress cfg' = default (RunAddress cfg) (env_value env "RUN_ADDRESS")
  /\ DatabaseURI cfg' = default (DatabaseURI cfg) (env_value env "DATABASE_URI")
  /\ AccrualSystemAddress cfg'
     = default (AccrualSystemAddress cfg) (env_value env "ACCRUAL_SYSTEM_ADDRESS")
  /\ TokenSecret cfg' = TokenSecret cfg
  /\ AccrualPollInterval cfg'
     = match env_value env "ACCRUAL_POLL_INTERVAL" ≫= positive_int with
       | Some seconds => wrap64 (seconds * Second)
       | None => AccrualPollInterval cfg
       end
  /\ AccrualWorkers cfg'
     = default (AccrualWorkers cfg) (env_value env "ACCRUAL_WORKERS" ≫= positive_int).
Proof.
  unfold applyEnv.
  destruct (env_value env "RUN_ADDRESS"), (env_value env "DATABASE_URI"),
    (env_value env "ACCRUAL_SYSTEM_ADDRESS"),
    (env_value env "ACCRUAL_POLL_INTERVAL" ≫= positive_int),
    (env_value env "ACCRUAL_WORKERS" ≫= positive_int); done.
Qed.

Lemma positive_int_pos v n : positive_int v = Some n -> 0 < n.
Proof. unfold positive_int. repeat case_match; try done. intros [= <-]. lia. Qed.

(** X24. What [LoadConfig] returns, for every environment and command
    line. Each address is the flag when given, or else the variable when set
    and not empty, or else the default. The number of workers is positive.
    The poll interval is a positive whole number of seconds whenever [-p]
    is absent, or between 1 and 9223372036; and the token secret is the
    built-in constant, whatever the environment and the flags. *)
Theorem LoadConfig_spec env flags :
  let cfg := LoadConfig env flags in
  RunAddress cfg = setting (flag_a flags) env "RUN_ADDRESS" ":8080"
  /\ DatabaseURI cfg = setting (flag_d flags) env "DATABASE_URI" ""
  /\ AccrualSystemAddress cfg = setting (flag_r flags) env "ACCRUAL_SYSTEM_ADDRESS" ""
  /\ 0 < AccrualWorkers cfg
  /\ TokenSecret cfg = defaultTokenSecret
  /\ ((flag_p flags = None \/ exists p, flag_p flags = Some p /\ 0 < p <= 9223372036) ->
      exists seconds, 0 < seconds /\ AccrualPollInterval cfg = seconds * Second).
Proof.
  intros cfg. subst cfg. unfold LoadConfig.
  set (cfg0 := mkConfig ":8080" "" "" (2 * Second) 3 defaultTokenSecret).
  destruct (applyEnv_spec env cfg0) as (Ha & Hd & Hr & Ht & Hp & Hw).
  set (cfg1 := applyEnv env cfg0) in *.
  unfold applyFlags. cbn [RunAddress DatabaseURI AccrualSystemAddress AccrualWorkers
                          TokenSecret AccrualPollInterval].
  rewrite Ha, Hd, Hr, Ht, Hw. unfold setting.
  split; [by destruct (flag_a flags)|]. split; [by destruct (flag_d flags)|].
  split; [by destruct (flag_r flags)|].
  assert (Hw1 : 0 < default (AccrualWorkers cfg0)
                      (env_value env "ACCRUAL_WORKERS" ≫= positive_int)).
  { destruct (env_value env "ACCRUAL_WORKERS" ≫= positive_int) as [n|] eqn:E; simpl; [|done].
    apply bind_Some in E as (v & _ & Hn). by apply positive_int_pos in Hn. }
  split.
  { destruct (flag_w flags) as [n|]; simpl.
    - destruct (0 <? n) eqn:E; [lia|done].
    - destruct (0 <? _) eqn:E; [lia|done]. }
  split; [done|].
  assert (Hr1 : - 2 ^ 63 <= AccrualPollInterval cfg1 <= 2 ^ 63 - 1).
  { rewrite Hp. destruct (_ ≫= positive_int); [apply wrap64_range|].
    simpl. unfold Second. lia. }
  intros [Hnone|(p & Hsome & Hp1)].
  - rewrite Hnone. cbn [from_option id].
    set (q := Z.quot (AccrualPollInterval cfg1) Second) in *.
    assert (Hq : q <= 9223372036).
    { subst q. unfold Second.
      pose proof (Z.quot_le_mono (AccrualPollInterval cfg1) (2 ^ 63 - 1) 1000000000
                    ltac:(lia) ltac:(lia)) as Hm.
      replace ((2 ^ 63 - 1) ÷ 1000000000) with 9223372036 in Hm by reflexivity. lia. }
    destruct (q <=? 0) eqn:E.
    + exists 2. split; [lia|]. replace (0 <? 2) with true by done.
      apply wrap64_id. unfold Second. lia.
    + exists q. split; [lia|]. replace (0 <? q) with true by lia.
      apply wrap64_id. unfold Second. lia.
  - rewrite Hsome. cbn [from_option id]. exists p. split; [lia|].
    replace (0 <? p) with true by lia. apply wrap64_id. unfold Second. lia.
Qed.

Lemma LoadConfig_spec_witness :
  (flag_p no_flags = None
   \/ exists p, flag_p no_flags = Some p /\ 0 < p <= 9223372036)
  /\ exists seconds,
       0 < seconds
       /\ AccrualPollInterval (LoadConfig (env_of "ACCRUAL_POLL_INTERVAL" "9223372037") no_flags)
          = seconds * Second.
Proof.
  assert (H1 : flag_p no_flags = None
               \/ exists p, flag_p no_flags = Some p /\ 0 < p <= 9223372036)
    by (left; reflexivity).
  split; [exact H1|].
  exact (proj2 (proj2 (proj2 (proj2 (proj2
    (LoadConfig_spec (env_of "ACCRUAL_POLL_INTERVAL" "9223372037") no_flags))))) H1).
Defined.

(** With [-p 0] the interval of the environment stands, and a variable of
    more than 9223372036 seconds wraps around. *)
Example LoadConfig_interval_wraps :
  AccrualPollInterval
    (LoadConfig (env_of "ACCRUAL_POLL_INTERVAL" "9223372037")
       (mkFlags None None None (Some 0) None)) = -9223372036709551616.
Proof. vm_compute. reflexivity. Qed.

(** ** The address of the accrual system *)

Lemma bytes_of_append s1 s2 : bytes_of (s1 +:+ s2) = bytes_of s1 ++ bytes_of s2.
Proof.
  unfold bytes_of. induction s1 as [|c s1 IH]; [done|]. simpl. by rewrite IH.
Qed.

Lemma of_bytes_app l1 l2 : of_bytes (l1 ++ l2) = of_bytes l1 +:+ of_bytes l2.
Proof.
  unfold of_bytes. induction l1 as [|b l1 IH]; [done|]. simpl. by rewrite IH.
Qed.

Lemma bytes_of_slashes n : bytes_of (slashes n) = replicate n 47.
Proof.
  induction n as [|n IH]; [done|]. cbn [slashes replicate].
  by rewrite bytes_of_append, IH.
Qed.

Lemma of_bytes_slashes n : of_bytes (replicate n 47) = slashes n.
Proof. by rewrite <- bytes_of_slashes, of_bytes_bytes_of. Qed.

Lemma bytes_of_inj s1 s2 : bytes_of s1 = bytes_of s2 -> s1 = s2.
Proof. intros H. by rewrite <- (of_bytes_bytes_of s1), H, of_bytes_bytes_of. Qed.

(** The bytes of a string are some bytes that do not end in ['/'], then
    slashes. *)
Lemma trailing_slashes l :
  exists n, l = rev (drop_while (fun b => b =? 47) (rev l)) ++ replicate n 47.
Proof.
  induction l as [|b l [n IH]] using rev_ind; [by exists 0%nat|].
  rewrite rev_app_distr. cbn [rev app drop_while].
  destruct (b =? 47) eqn:E.
  - apply Z.eqb_eq in E as ->. exists (S n). rewrite IH at 1.
    rewrite <- app_assoc. f_equal. by rewrite replicate_S_end.
  - exists 0%nat. cbn [rev]. rewrite rev_involutive. by rewrite app_nil_r.
Qed.

Lemma drop_while_slashes n l :
  drop_while (fun b => b =? 47) (replicate n 47 ++ l) = drop_while (fun b => b =? 47) l.
Proof. induction n as [|n IH]; [done|]. simpl. done. Qed.

Lemma rev_replicate {A} n (x : A) : rev (replicate n x) = replicate n x.
Proof.
  induction n as [|n IH]; [done|]. cbn [replicate rev]. rewrite IH.
  by rewrite <- replicate_S_end.
Qed.

Lemma TrimRight_slash_append s n :
  TrimRight_slash (s +:+ slashes n) = TrimRight_slash s.
Proof.
  unfold TrimRight_slash. rewrite bytes_of_append, bytes_of_slashes, rev_app_distr.
  by rewrite rev_replicate, drop_while_slashes.
Qed.

Lemma TrimRight_slash_bytes s :
  bytes_of (TrimRight_slash s) = rev (drop_while (fun b => b =? 47) (rev (bytes_of s))).
Proof.
  unfold TrimRight_slash. apply bytes_of_of_bytes.
  destruct (trailing_slashes (bytes_of s)) as [n Hn].
  pose proof (bytes_of_range s) as Hr. rewrite Hn in Hr.
  by apply Forall_app in Hr as [Hr _].
Qed.

Lemma TrimRight_slash_empty s :
  TrimRight_slash s = "" <-> ~ not_only_slashes s.
Proof.
  unfold not_only_slashes. split.
  - intros He. destruct (trailing_slashes (bytes_of s)) as [n Hn].
    rewrite <- TrimRight_slash_bytes, He in Hn. simpl in Hn. rewrite Hn.
    intros Hex. apply Exists_exists in Hex as (b & Hb & Hne).
    by apply elem_of_replicate in Hb as [-> _].
  - intros Hno. apply bytes_of_inj. rewrite TrimRight_slash_bytes. simpl.
    rewrite <- (rev_involutive (bytes_of s)) in Hno.
    induction (rev (bytes_of s)) as [|b l IH]; [done|]. simpl.
    destruct (b =? 47) eqn:E.
    + apply IH. intros Hex. apply Hno. cbn [rev]. apply Exists_app. by left.
    + exfalso. apply Hno. cbn [rev]. apply Exists_app. right. constructor. lia.
Qed.

(** X25. The base address of the accrual client: trailing slashes do not
    count. For an address with a character other than ['/'], the client
    keeps the address without its trailing slashes, whatever their number:
    the address is the kept one followed by slashes only, the kept one does
    not end in a slash, making a client from it changes nothing, and the
    request for an order number goes to the kept address, [/api/orders/]
    and the number. *)
Theorem NewAccrualClient_spec baseURL n number :
  not_only_slashes baseURL ->
  let c := NewAccrualClient baseURL in
  NewAccrualClient (baseURL +:+ slashes n) = c
  /\ (exists k, baseURL = c +:+ slashes k)
  /\ (forall p, c <> p +:+ "/")
  /\ NewAccrualClient c = c
  /\ DoGet_url (NewAccrualClient (baseURL +:+ slashes n)) (order_path number)
     = c +:+ "/api/orders/" +:+ number.
Proof.
  intros Hns c.
  assert (Hc : c = TrimRight_slash baseURL).
  { subst c. unfold NewAccrualClient. cbn zeta. case_decide as He; [|done].
    by apply TrimRight_slash_empty in He. }
  clearbody c.
  assert (Happ : NewAccrualClient (baseURL +:+ slashes n) = c).
  { unfold NewAccrualClient. cbn zeta. rewrite TrimRight_slash_append, <- Hc.
    case_decide as He; [|done]. rewrite Hc in He. by apply TrimRight_slash_empty in He. }
  assert (Hk : exists k, baseURL = c +:+ slashes k).
  { destruct (trailing_slashes (bytes_of baseURL)) as [k Hk]. exists k.
    apply bytes_of_inj. rewrite bytes_of_append, bytes_of_slashes, Hc.
    by rewrite TrimRight_slash_bytes. }
  assert (Hend : forall p, c <> p +:+ "/").
  { intros p Hp. apply (f_equal bytes_of) in Hp.
    rewrite Hc, TrimRight_slash_bytes, bytes_of_append in Hp.
    apply (f_equal (@rev Z)) in Hp. rewrite rev_involutive, rev_app_distr in Hp.
    simpl in Hp. by apply drop_while_head in Hp. }
  split; [done|]. split; [done|]. split; [done|]. split.
  - destruct Hk as [k Hk].
    assert (Hcc : TrimRight_slash c = c).
    { rewrite Hc at 2. rewrite Hk. by rewrite TrimRight_slash_append. }
    unfold NewAccrualClient. cbn zeta. rewrite Hcc. by case_decide.
  - rewrite Happ. unfold DoGet_url, order_path. done.
Qed.

Lemma NewAccrualClient_spec_witness :
  not_only_slashes "http://accrual:8080//"
  /\ NewAccrualClient ("http://accrual:8080//" +:+ slashes 1)
     = NewAccrualClient "http://accrual:8080//".
Proof.
  assert (H1 : not_only_slashes "http://accrual:8080//").
  { unfold not_only_slashes. vm_compute. left. discriminate. }
  split; [exact H1|].
  exact (proj1 (NewAccrualClient_spec "http://accrual:8080//" 1 "18" H1)).
Defined.

(** An address of slashes only is kept as it is. *)
Lemma NewAccrualClient_slashes n : NewAccrualClient (slashes n) = slashes n.
Proof.
  unfold NewAccrualClient. cbn zeta. rewrite decide_True; [done|].
  apply TrimRight_slash_empty. unfold not_only_slashes. rewrite bytes_of_slashes.
  intros Hex. apply Exists_exists in Hex as (b & Hb & Hne).
  by apply elem_of_replicate in Hb as [-> _].
Qed.

(** ** Tokens *)

Module Base64Facts.
Import Base64.

Lemma lor_disjoint x y n :
  0 <= n -> x mod 2 ^ n = 0 -> 0 <= y < 2 ^ n -> Z.lor x y = x + y.
Proof.
  intros Hn Hx Hy. pose proof (Z.add_lor_land x y) as H.
  assert (Hl : Z.land x y = 0).
  { rewrite <- (Z.mod_small y (2 ^ n)) by lia.
    rewrite <- (Z.land_ones y n) by lia.
    rewrite (Z.land_comm y), Z.land_assoc, (Z.land_ones x n) by lia.
    by rewrite Hx, Z.land_0_l. }
  lia.
Qed.

Lemma land_63 x : Z.land x 63 = x mod 64.
Proof. apply (Z.land_ones x 6). lia. Qed.

Lemma land_255 x : Z.land x 255 = x mod 256.
Proof. apply (Z.land_ones x 8). lia. Qed.

Lemma land_15 x : Z.land x 15 = x mod 16.
Proof. apply (Z.land_ones x 4). lia. Qed.

Ltac to_arith :=
  rewrite ?Z.shiftl_mul_pow2, ?Z.shiftr_div_pow2, ?land_63, ?land_255 by lia.

Lemma pack3 b0 b1 b2 :
  0 <= b0 < 256 -> 0 <= b1 < 256 -> 0 <= b2 < 256 ->
  Z.lor (Z.lor (Z.shiftl b0 16) (Z.shiftl b1 8)) b2 = b0 * 65536 + b1 * 256 + b2.
Proof.
  intros H0 H1 H2. to_arith.
  rewrite (lor_disjoint (b0 * 2 ^ 16) (b1 * 2 ^ 8) 16); [|lia| |lia].
  - rewrite (lor_disjoint _ b2 8); [lia|lia| |lia].
    Z.div_mod_to_equations. lia.
  - Z.div_mod_to_equations. lia.
Qed.

Lemma pack2 b0 b1 :
  0 <= b0 < 256 -> 0 <= b1 < 256 ->
  Z.lor (Z.shiftl b0 16) (Z.shiftl b1 8) = b0 * 65536 + b1 * 256.
Proof.
  intros H0 H1. to_arith.
  rewrite (lor_disjoint (b0 * 2 ^ 16) (b1 * 2 ^ 8) 16); [lia|lia| |lia].
  Z.div_mod_to_equations. lia.
Qed.

Lemma pack4 d0 d1 d2 d3 :
  0 <= d0 < 64 -> 0 <= d1 < 64 -> 0 <= d2 < 64 -> 0 <= d3 < 64 ->
  Z.lor (Z.lor (Z.lor (Z.shiftl d0 18) (Z.shiftl d1 12)) (Z.shiftl d2 6)) d3
  = d0 * 262144 + d1 * 4096 + d2 * 64 + d3.
Proof.
  intros H0 H1 H2 H3. to_arith.
  rewrite (lor_disjoint (d0 * 2 ^ 18) (d1 * 2 ^ 12) 18); [|lia| |lia].
  - rewrite (lor_disjoint _ (d2 * 2 ^ 6) 12); [|lia| |lia].
    + rewrite (lor_disjoint _ d3 6); [lia|lia| |lia].
      Z.div_mod_to_equations. lia.
    + Z.div_mod_to_equations. lia.
  - Z.div_mod_to_equations. lia.
Qed.

Lemma encode_spec v :
  0 <= v < 64 ->
  decodeMap (encode v) = Some v /\ 0 <= encode v < 256
  /\ encode v <> 10 /\ encode v <> 13.
Proof.
  intros Hv. rewrite <- (Z2Nat.id v) by lia.
  assert (Hn : (Z.to_nat v < 64)%nat) by lia. revert Hn.
  generalize (Z.to_nat v). intros n Hn.
  do 64 (destruct n as [|n]; [vm_compute; repeat split; congruence|]). lia.
Qed.

Lemma quantum4 b0 b1 b2 :
  0 <= b0 < 256 -> 0 <= b1 < 256 -> 0 <= b2 < 256 ->
  let val := Z.lor (Z.lor (Z.shiftl b0 16) (Z.shiftl b1 8)) b2 in
  quantum (Z.land (Z.shiftr val 18) 63) (Z.land (Z.shiftr val 12) 63)
          (Z.land (Z.shiftr val 6) 63) (Z.land val 63) 4 = [b0; b1; b2].
Proof.
  intros H0 H1 H2 val. subst val. rewrite pack3 by done.
  unfold quantum.
  rewrite pack4 by first [lia | rewrite land_63; apply Z.mod_pos_bound; lia].
  to_arith. cbn [take Nat.sub].
  f_equal; [|f_equal; [|f_equal]]; Z.div_mod_to_equations; lia.
Qed.

Lemma quantum3 b0 b1 :
  0 <= b0 < 256 -> 0 <= b1 < 256 ->
  let val := Z.lor (Z.shiftl b0 16) (Z.shiftl b1 8) in
  quantum (Z.land (Z.shiftr val 18) 63) (Z.land (Z.shiftr val 12) 63)
          (Z.land (Z.shiftr val 6) 63) 0 3 = [b0; b1].
Proof.
  intros H0 H1 val. subst val. rewrite pack2 by done.
  unfold quantum.
  rewrite pack4 by first [lia | rewrite land_63; apply Z.mod_pos_bound; lia].
  to_arith. cbn [take Nat.sub].
  f_equal; [|f_equal]; Z.div_mod_to_equations; lia.
Qed.

Lemma quantum2 b0 :
  0 <= b0 < 256 ->
  let val := Z.shiftl b0 16 in
  quantum (Z.land (Z.shiftr val 18) 63) (Z.land (Z.shiftr val 12) 63) 0 0 2 = [b0].
Proof.
  intros H0 val. subst val. unfold quantum.
  rewrite pack4 by first [lia | rewrite land_63; apply Z.mod_pos_bound; lia].
  to_arith. cbn [take Nat.sub].
  f_equal; Z.div_mod_to_equations; lia.
Qed.

Lemma list_ind3 {A} (P : list A -> Prop) :
  P [] -> (forall a, P [a]) -> (forall a b, P [a; b]) ->
  (forall a b c l, P l -> P (a :: b :: c :: l)) -> forall l, P l.
Proof.
  intros H0 H1 H2 H3 l.
  assert (H : P l /\ (forall a, P (a :: l)) /\ (forall a b, P (a :: b :: l))).
  { induction l as [|x l (IH0 & IH1 & IH2)]; [done|].
    split; [apply IH1|]. split; [intros a; apply IH2|]. intros a b. by apply H3. }
  apply H.
Qed.

Definition sextet (val : Z) (k : Z) : Z := Z.land (Z.shiftr val k) 63.

Lemma sextet_range val k : 0 <= sextet val k < 64.
Proof. unfold sextet. rewrite land_63. apply Z.mod_pos_bound. lia. Qed.

Lemma land_63_range val : 0 <= Z.land val 63 < 64.
Proof. rewrite land_63. apply Z.mod_pos_bound. lia. Qed.

Lemma decodeMap_padChar : decodeMap padChar = None.
Proof. reflexivity. Qed.

Lemma decodeQuanta_Encode src :
  Forall (fun b => 0 <= b < 256) src -> decodeQuanta (Encode src) = Some src.
Proof.
  induction src as [|b0|b0 b1|b0 b1 b2 rest IH] using list_ind3; intros Hb.
  - done.
  - apply Forall_cons in Hb as [H0 _]. cbn [Encode]. cbn zeta. cbn [decodeQuanta].
    rewrite !(proj1 (encode_spec _ (land_63_range _))), decodeMap_padChar.
    rewrite Z.eqb_refl. cbn [andb bool_decide]. rewrite bool_decide_true by done.
    by rewrite quantum2.
  - apply Forall_cons in Hb as [H0 Hb]. apply Forall_cons in Hb as [H1 _].
    cbn [Encode]. cbn zeta. cbn [decodeQuanta].
    rewrite !(proj1 (encode_spec _ (land_63_range _))), decodeMap_padChar.
    rewrite Z.eqb_refl. cbn [andb]. rewrite bool_decide_true by done.
    by rewrite quantum3.
  - apply Forall_cons in Hb as [H0 Hb]. apply Forall_cons in Hb as [H1 Hb].
    apply Forall_cons in Hb as [H2 Hb].
    cbn [Encode]. cbn zeta. cbn [decodeQuanta].
    rewrite !(proj1 (encode_spec _ (land_63_range _))), (IH Hb).
    by rewrite quantum4.
Qed.

Lemma Encode_chars src :
  Forall (fun c => (0 <= c < 256) /\ c <> 10 /\ c <> 13) (Encode src).
Proof.
  assert (He : forall v, (0 <= encode (Z.land v 63) < 256)
                         /\ encode (Z.land v 63) <> 10 /\ encode (Z.land v 63) <> 13).
  { intros v. destruct (encode_spec _ (land_63_range v)) as (_ & ? & ? & ?). done. }
  assert (Hp : (0 <= padChar < 256) /\ padChar <> 10 /\ padChar <> 13) by (by vm_compute).
  induction src as [|b0|b0 b1|b0 b1 b2 rest IH] using list_ind3; cbn [Encode]; cbn zeta.
  - constructor.
  - repeat constructor; try apply He; apply Hp.
  - repeat constructor; try apply He; apply Hp.
  - repeat (apply Forall_cons; split; [apply He|]). exact IH.
Qed.

Lemma filter_all {A} (P : A -> Prop) `{!forall x, Decision (P x)} l :
  Forall P l -> filter P l = l.
Proof.
  induction 1 as [|x l Hx _ IH]; [done|]. by rewrite filter_cons_True, IH.
Qed.

Lemma Decode_Encode src :
  Forall (fun b => 0 <= b < 256) src -> Decode (Encode src) = Some src.
Proof.
  intros Hb. unfold Decode. rewrite filter_all; [by apply decodeQuanta_Encode|].
  eapply Forall_impl; [apply Encode_chars|]. intros c (_ & ? & ?). done.
Qed.

Lemma DecodeString_EncodeToString s : DecodeString (EncodeToString s) = Some s.
Proof.
  unfold DecodeString, EncodeToString. rewrite bytes_of_of_bytes.
  - rewrite Decode_Encode by apply bytes_of_range. simpl. by rewrite of_bytes_bytes_of.
  - eapply Forall_impl; [apply Encode_chars|]. intros c (? & _). done.
Qed.

Lemma EncodeToString_nonempty s : s <> "" -> EncodeToString s <> "".
Proof.
  intros Hs He. apply Hs. apply (f_equal DecodeString) in He.
  rewrite DecodeString_EncodeToString in He. by injection He.
Qed.

End Base64Facts.

(** *** Numbers in decimal *)

Definition digits_value (a : Z) (ds : list Z) : Z :=
  foldl (fun n ch => n * 10 + (ch - 48)) a ds.

Lemma digits_of_spec fuel n acc :
  0 <= n < 10 ^ Z.of_nat fuel -> (0 < fuel)%nat ->
  exists ds, digits_of fuel n acc = ds ++ acc /\ ds <> []
    /\ Forall (fun b => 48 <= b <= 57) ds
    /\ forall a, digits_value a ds = a * 10 ^ Z.of_nat (length ds) + n.
Proof.
  revert n acc. induction fuel as [|fuel IH]; intros n acc Hn Hf; [lia|].
  cbn [digits_of]. destruct (n <? 10) eqn:E.
  - exists [48 + n mod 10]. split; [done|]. split; [done|]. split.
    + constructor; [|constructor]. Z.div_mod_to_equations. lia.
    + intros a. unfold digits_value. simpl. rewrite Z.mod_small by lia. lia.
  - assert (Hfuel : (0 < fuel)%nat).
    { destruct fuel; [|lia]. simpl in Hn. lia. }
    destruct (IH (n / 10) ((48 + n mod 10) :: acc)) as (ds & Hd & Hne & Hall & Hval);
      [|done|].
    { rewrite Nat2Z.inj_succ, Z.pow_succ_r in Hn by lia.
      Z.div_mod_to_equations. lia. }
    exists (ds ++ [48 + n mod 10]). rewrite Hd, <- app_assoc. split; [done|].
    split; [by destruct ds|]. split.
    + apply Forall_app. split; [done|]. constructor; [|constructor].
      Z.div_mod_to_equations. lia.
    + intros a. unfold digits_value in *. rewrite foldl_app. cbn [foldl].
      rewrite Hval, length_app. cbn [length].
      rewrite Nat2Z.inj_add, Z.pow_add_r by lia. change (10 ^ Z.of_nat 1) with 10.
      Z.div_mod_to_equations. lia.
Qed.

Lemma FormatInt_bytes i :
  - 2 ^ 63 <= i <= 2 ^ 63 - 1 ->
  exists ds, ds <> [] /\ Forall (fun b => 48 <= b <= 57) ds
    /\ bytes_of (FormatInt i) = (if i <? 0 then [45] else []) ++ ds
    /\ digits_value 0 ds = Z.abs i.
Proof.
  intros Hi. unfold FormatInt.
  destruct (digits_of_spec 20 (Z.abs i) []) as (ds & Hd & Hne & Hall & Hval); [lia|lia|].
  rewrite app_nil_r in Hd. exists ds. split; [done|]. split; [done|].
  assert (Hr : Forall (fun b => 0 <= b < 256) ds).
  { eapply Forall_impl; [exact Hall|]. intros b Hb. simpl in Hb. lia. }
  split; [|by rewrite Hval].
  destruct (i <? 0) eqn:E.
  - replace (- i) with (Z.abs i) by lia. rewrite Hd.
    apply bytes_of_of_bytes. constructor; [lia|done].
  - replace i with (Z.abs i) at 1 by lia. rewrite Hd. by apply bytes_of_of_bytes.
Qed.

Lemma forallb_digits ds :
  Forall (fun b => 48 <= b <= 57) ds -> forallb (between 48 57) ds = true.
Proof.
  induction 1 as [|b ds Hb _ IH]; [done|]. simpl. rewrite IH. unfold between. lia.
Qed.

Lemma ParseInt_FormatInt i :
  - 2 ^ 63 <= i <= 2 ^ 63 - 1 -> ParseInt (FormatInt i) = Some i.
Proof.
  intros Hi. destruct (FormatInt_bytes i Hi) as (ds & Hne & Hall & Hb & Hval).
  unfold ParseInt, Atoi. rewrite Hb. fold (digits_value 0).
  destruct (i <? 0) eqn:E; cbn [app].
  - replace (45 =? 45) with true by done. cbn [orb].
    rewrite bool_decide_false by done. rewrite forallb_digits by done. cbn [negb].
    fold (digits_value 0 ds). rewrite Hval.
    replace (between (- 2 ^ 63) (2 ^ 63 - 1) (- Z.abs i)) with true
      by (unfold between; lia).
    f_equal. lia.
  - destruct ds as [|d ds]; [done|].
    apply Forall_cons in Hall as Hd. destruct Hd as [Hd _].
    replace (d =? 45) with false by lia. replace (d =? 43) with false by lia.
    cbn [orb]. rewrite bool_decide_false by done. rewrite forallb_digits by done.
    cbn [negb]. fold (digits_value 0 (d :: ds)). rewrite Hval.
    replace (between (- 2 ^ 63) (2 ^ 63 - 1) (Z.abs i)) with true
      by (unfold between; lia).
    f_equal. lia.
Qed.

Lemma cut_colon_app ds rest :
  Forall (fun b => b <> 58) ds -> cut_colon (ds ++ 58 :: rest) = Some (ds, rest).
Proof.
  induction 1 as [|b ds Hb _ IH]; [done|]. cbn [app cut_colon].
  replace (b =? 58) with false by lia. by rewrite IH.
Qed.

Lemma cut_colon_Some l before after :
  cut_colon l = Some (before, after) -> l = before ++ 58 :: after.
Proof.
  revert before. induction l as [|b l IH]; intros before; [done|]. cbn [cut_colon].
  destruct (b =? 58) eqn:E.
  - intros [= <- <-]. apply Z.eqb_eq in E as ->. done.
  - destruct (cut_colon l) as [[x y]|]; [|done]. intros [= <- <-].
    cbn [app]. f_equal. by apply IH.
Qed.

Lemma SplitN2_FormatInt i rest :
  - 2 ^ 63 <= i <= 2 ^ 63 - 1 ->
  SplitN2 (FormatInt i +:+ ":" +:+ rest) = Some (FormatInt i, rest).
Proof.
  intros Hi. destruct (FormatInt_bytes i Hi) as (ds & Hne & Hall & Hb & _).
  unfold SplitN2. rewrite !bytes_of_append, Hb.
  change (bytes_of ":") with [58]. cbn [app].
  rewrite cut_colon_app.
  - by rewrite <- Hb, !of_bytes_bytes_of.
  - apply Forall_app. split.
    + destruct (i <? 0); repeat constructor. lia.
    + eapply Forall_impl; [exact Hall|]. intros b ?. simpl in *. lia.
Qed.

Lemma SplitN2_Some s part0 part1 :
  SplitN2 s = Some (part0, part1) -> s = part0 +:+ ":" +:+ part1.
Proof.
  unfold SplitN2. destruct (cut_colon (bytes_of s)) as [[x y]|] eqn:E; [|done].
  intros [= <- <-]. apply cut_colon_Some in E.
  rewrite <- (of_bytes_bytes_of s), E. by rewrite of_bytes_app.
Qed.

Section AuthFacts.

Variable Sum256 : string -> string.
Variable secret : string.

Lemma ValidateToken_tokenForUser id :
  - 2 ^ 63 <= id <= 2 ^ 63 - 1 ->
  ValidateToken Sum256 secret (tokenForUser Sum256 secret id) = Some id.
Proof.
  intros Hid. unfold ValidateToken, tokenForUser.
  rewrite decide_False.
  - rewrite Base64Facts.DecodeString_EncodeToString, SplitN2_FormatInt by done.
    rewrite ParseInt_FormatInt by done. by rewrite decide_False by (by intros H).
  - apply Base64Facts.EncodeToString_nonempty.
    intros He. apply (f_equal SplitN2) in He. by rewrite SplitN2_FormatInt in He.
Qed.

Lemma ValidateToken_Some token id :
  ValidateToken Sum256 secret token = Some id ->
  exists part0,
    Base64.DecodeString token = Some (part0 +:+ ":" +:+ signatureForID Sum256 secret id)
    /\ ParseInt part0 = Some id.
Proof.
  unfold ValidateToken. case_decide; [done|].
  destruct (Base64.DecodeString token) as [decoded|]; [|done].
  destruct (SplitN2 decoded) as [[part0 part1]|] eqn:Hs; [|done].
  destruct (ParseInt part0) as [id'|] eqn:Hp; [|done].
  case_decide as Hsig; [done|]. intros [= ->].
  exists part0. split; [|done]. apply SplitN2_Some in Hs. rewrite Hs.
  destruct (decide (part1 = signatureForID Sum256 secret id)) as [->|Hne]; [done|].
  by destruct Hsig.
Qed.

(** X26. Tokens. Every token [tokenForUser] makes for an [int64] id is
    accepted by [ValidateToken], for that id. Conversely a token is accepted
    for an id only if it is the base64 form of a decimal numeral of the id,
    a colon and the signature of that id: without the signature of a user
    no token passes for the user. *)
Theorem ValidateToken_spec id :
  (- 2 ^ 63 <= id <= 2 ^ 63 - 1 ->
     ValidateToken Sum256 secret (tokenForUser Sum256 secret id) = Some id)
  /\ (forall token, ValidateToken Sum256 secret token = Some id ->
        exists part0,
          Base64.DecodeString token
            = Some (part0 +:+ ":" +:+ signatureForID Sum256 secret id)
          /\ ParseInt part0 = Some id).
Proof.
  split; [apply ValidateToken_tokenForUser|]. intros token. apply ValidateToken_Some.
Qed.

End AuthFacts.

Lemma ValidateToken_spec_witness :
  - 2 ^ 63 <= 42 <= 2 ^ 63 - 1
  /\ ValidateToken (fun s => s) "gofirmart-secret"
       (tokenForUser (fun s => s) "gofirmart-secret" 42) = Some 42.
Proof.
  assert (H1 : - 2 ^ 63 <= 42 <= 2 ^ 63 - 1) by lia.
  split; [exact H1|].
  exact (proj1 (ValidateToken_spec (fun s => s) "gofirmart-secret" 42) H1).
Defined.

(** ** Accounts over HTTP *)

Lemma GetByLogin_unknown login s :
  ~ login_taken s login -> fst (GetByLogin login s) = inl ErrUserNotFound.
Proof.
  intros Hfree. unfold GetByLogin.
  destruct (filter _ (map_to_list (users s))) as [|[id u] l] eqn:Hf; [done|].
  exfalso. apply Hfree. exists id, u.
  assert (Hin : (id, u) ∈ filter (fun row : Z * User => Login (snd row) = login)
                           (map_to_list (users s))) by (rewrite Hf; left).
  apply list_elem_of_filter in Hin as [Hl Hin]. by apply elem_of_map_to_list in Hin.
Qed.

Lemma GetByLogin_new login u id s :
  ~ login_taken s login -> Login u = login ->
  fst (GetByLogin login (set_users (insert id u) s)) = inr (id, u).
Proof.
  intros Hfree Hu. unfold GetByLogin. cbn [users set_users].
  destruct (filter _ (map_to_list (<[id:=u]> (users s)))) as [|[i v] l] eqn:Hf.
  - assert (Hin : (id, u) ∈ filter (fun row : Z * User => Login (snd row) = login)
                             (map_to_list (<[id:=u]> (users s)))).
    { apply list_elem_of_filter. split; [done|].
      apply elem_of_map_to_list. apply lookup_insert_eq. }
    rewrite Hf in Hin. by apply elem_of_nil in Hin.
  - assert (Hin : (i, v) ∈ filter (fun row : Z * User => Login (snd row) = login)
                             (map_to_list (<[id:=u]> (users s)))) by (rewrite Hf; left).
    apply list_elem_of_filter in Hin as [Hl Hin]. apply elem_of_map_to_list in Hin.
    apply lookup_insert_Some in Hin as [[<- <-]|[_ Hin]]; [done|].
    exfalso. apply Hfree. by exists i, v.
Qed.

Lemma CreateUser_free login hash s :
  ~ login_taken s login ->
  PG.CreateUser login hash s
  = (inr (next_user_id s),
     set_users (insert (next_user_id s) (mkUser login hash 0 0))
       (mkStore (users s) (next_user_id s + 1) (orders s) (withdrawals s) (queue s))).
Proof.
  intros Hfree. unfold PG.CreateUser. cbn zeta. rewrite decide_False; [done|].
  intros (id & u & Hu & Hl). apply Hfree. by exists id, u.
Qed.

Lemma CreateUser_taken login hash s :
  login_taken s login ->
  fst (PG.CreateUser login hash s) = inl ErrUserExists
  /\ users (snd (PG.CreateUser login hash s)) = users s.
Proof.
  intros (id & u & Hu & Hl). unfold PG.CreateUser. cbn zeta. rewrite decide_True; [done|].
  by exists id, u.
Qed.

Section AccountFacts.

Variable Sum256 : string -> string.
Variable secret : string.
Variable GenerateFromPassword : string -> string -> option string.
Variable CompareHashAndPassword : string -> string -> bool.

(** X27. Registering, then logging in. For a login that is free and a
    password that [bcrypt] hashes and then accepts against the hash, both
    not blank: before the registration a login attempt is answered 401;
    [handleRegister] answers 200, stores the account with the hash and no
    points, and sets the token of the new id as cookie; from then on
    [handleLogin] with the same password answers 200 with the same token,
    with a password [bcrypt] rejects 401, and a second registration of the
    login 409 without changing the accounts; and the cookie authenticates:
    behind [authFromCookie] the balance of the new user is shown, 0 and
    0. *)
Theorem register_then_login login password salt hash s :
  TrimSpace login <> "" -> TrimSpace password <> "" ->
  GenerateFromPassword password salt = Some hash ->
  CompareHashAndPassword hash password = true ->
  ~ login_taken s login ->
  - 2 ^ 63 <= next_user_id s <= 2 ^ 63 - 1 ->
  let id := next_user_id s in
  let token := tokenForUser Sum256 secret id in
  let r := handleRegister Sum256 secret GenerateFromPassword "POST" (Some (login, password)) salt s in
  handleLogin Sum256 secret CompareHashAndPassword "POST" (Some (login, password)) s = (StatusUnauthorized, None)
  /\ fst r = (StatusOK, Some token)
  /\ users (snd r) = <[id := mkUser login hash 0 0]> (users s)
  /\ handleLogin Sum256 secret CompareHashAndPassword "POST" (Some (login, password)) (snd r) = (StatusOK, Some token)
  /\ (forall password', TrimSpace password' <> "" ->
        CompareHashAndPassword hash password' = false ->
        handleLogin Sum256 secret CompareHashAndPassword "POST" (Some (login, password')) (snd r) = (StatusUnauthorized, None))
  /\ (forall password' salt', TrimSpace password' <> "" ->
        is_Some (GenerateFromPassword password' salt') ->
        let r' := handleRegister Sum256 secret GenerateFromPassword "POST" (Some (login, password')) salt' (snd r) in
        fst r' = (StatusConflict, None) /\ users (snd r') = users (snd r))
  /\ authFromCookie (ValidateToken Sum256 secret) (Some token) (StatusUnauthorized, None)
       (fun ctxUser => handleBalance "GET" ctxUser (snd r))
     = (StatusOK, Some (0, 0)).
Proof.
  intros Hl Hp Hgen Hcmp Hfree Hid id token r.
  assert (Hdec : forall pw, TrimSpace pw <> "" ->
                   decodeAuthRequest (Some (login, pw)) = Some (login, pw)).
  { intros pw Hpw. unfold decodeAuthRequest. rewrite decide_False; [done|].
    by intros [?|?]. }
  assert (Hblank : forall pw, TrimSpace pw <> "" ->
                     ~ (TrimSpace login = "" \/ TrimSpace pw = "")).
  { intros pw Hpw [?|?]; done. }
  assert (Hr : r = ((StatusOK, Some token),
                    set_users (insert id (mkUser login hash 0 0))
                      (mkStore (users s) (id + 1) (orders s) (withdrawals s) (queue s)))).
  { subst r. unfold handleRegister.
    rewrite decide_False by (intros H; by apply H). rewrite Hdec by done.
    unfold AuthManager_Register. rewrite decide_False by (by apply Hblank).
    rewrite Hgen, CreateUser_free by done. done. }
  assert (Hlogin : forall pw s0 u i, TrimSpace pw <> "" ->
            fst (GetByLogin login s0) = inr (i, u) ->
            handleLogin Sum256 secret CompareHashAndPassword "POST" (Some (login, pw)) s0
            = if CompareHashAndPassword (PasswordHash u) pw
              then (StatusOK, Some (tokenForUser Sum256 secret i))
              else (StatusUnauthorized, None)).
  { intros pw s0 u i Hpw Hget. unfold handleLogin.
    rewrite decide_False by (intros H; by apply H). rewrite Hdec by done.
    unfold AuthManager_Login. rewrite decide_False by (by apply Hblank).
    rewrite Hget. by destruct (CompareHashAndPassword (PasswordHash u) pw). }
  rewrite Hr. cbn [fst snd].
  split.
  { unfold handleLogin.
    rewrite decide_False by (intros H; by apply H). rewrite Hdec by done.
    unfold AuthManager_Login. rewrite decide_False by (by apply Hblank).
    by rewrite GetByLogin_unknown. }
  split; [done|]. split; [done|].
  assert (Hget : forall (s1 : Store),
            fst (GetByLogin login
                   (set_users (insert id (mkUser login hash 0 0))
                      (mkStore (users s) (id + 1) (orders s) (withdrawals s) (queue s))))
            = inr (id, mkUser login hash 0 0)).
  { intros _. apply GetByLogin_new; [|done].
    intros (i & u & Hu & Hlu). apply Hfree. by exists i, u. }
  split.
  { rewrite (Hlogin password _ _ _ Hp (Hget s)). cbn [PasswordHash]. by rewrite Hcmp. }
  split.
  { intros pw Hpw Hrej. rewrite (Hlogin pw _ _ _ Hpw (Hget s)). cbn [PasswordHash].
    by rewrite Hrej. }
  split.
  { intros pw salt' Hpw [h Hh]. cbn zeta.
    unfold handleRegister.
    rewrite decide_False by (intros H; by apply H). rewrite Hdec by done.
    unfold AuthManager_Register. rewrite decide_False by (by apply Hblank).
    rewrite Hh.
    match goal with |- context [PG.CreateUser login h ?s1] =>
      destruct (CreateUser_taken login h s1) as [He Hu] end.
    { exists id, (mkUser login hash 0 0). split; [|done].
      cbn [users set_users]. apply lookup_insert_eq. }
    destruct (PG.CreateUser login h _) as [[err|i] s2]; cbn [fst snd] in *; [|done].
    injection He as ->. rewrite decide_True by done. done. }
  unfold authFromCookie. subst token.
  rewrite ValidateToken_tokenForUser by done.
  unfold handleBalance, PG.GetBalance. rewrite decide_False by (intros H; by apply H).
  cbn [users set_users]. rewrite lookup_insert_eq. done.
Qed.

End AccountFacts.

Lemma login_free_empty login : ~ login_taken empty_store login.
Proof. intros (i & u & Hu & _). simpl in Hu. by rewrite lookup_empty in Hu. Qed.

Lemma register_then_login_witness :
  TrimSpace "foo" <> "" /\ TrimSpace "pw" <> ""
  /\ (fun pw salt : string => Some (salt +:+ pw)) "pw" "salt" = Some "saltpw"
  /\ (fun h pw : string => bool_decide (h = "salt" +:+ pw)) "saltpw" "pw" = true
  /\ ~ login_taken empty_store "foo"
  /\ - 2 ^ 63 <= next_user_id empty_store <= 2 ^ 63 - 1
  /\ handleLogin (fun s => s) "gofirmart-secret"
       (fun h pw : string => bool_decide (h = "salt" +:+ pw)) "POST" (Some ("foo", "pw"))
       (snd (handleRegister (fun s => s) "gofirmart-secret"
               (fun pw salt : string => Some (salt +:+ pw)) "POST" (Some ("foo", "pw"))
               "salt" empty_store))
     = (StatusOK, Some (tokenForUser (fun s => s) "gofirmart-secret" 1)).
Proof.
  assert (H1 : TrimSpace "foo" <> "") by (vm_compute; discriminate).
  assert (H2 : TrimSpace "pw" <> "") by (vm_compute; discriminate).
  assert (H3 : (fun pw salt : string => Some (salt +:+ pw)) "pw" "salt" = Some "saltpw")
    by reflexivity.
  assert (H4 : (fun h pw : string => bool_decide (h = "salt" +:+ pw)) "saltpw" "pw" = true)
    by (vm_compute; reflexivity).
  assert (H5 : ~ login_taken empty_store "foo") by apply login_free_empty.
  assert (H6 : - 2 ^ 63 <= next_user_id empty_store <= 2 ^ 63 - 1) by (simpl; lia).
  split; [exact H1|]. split; [exact H2|]. split; [exact H3|]. split; [exact H4|].
  split; [exact H5|]. split; [exact H6|].
  exact (proj1 (proj2 (proj2 (proj2
    (register_then_login (fun s => s) "gofirmart-secret"
       (fun pw salt : string => Some (salt +:+ pw))
       (fun h pw : string => bool_decide (h = "salt" +:+ pw))
       "foo" "pw" "salt" "saltpw" empty_store H1 H2 H3 H4 H5 H6))))).
Defined.

(** ** Earning points and spending them *)

Lemma handleWithdraw_ok userID order sum now w u :
  users (store w) !! userID = Some u ->
  ValidateOrderNumber order = None -> (0 < sum)%Q -> (sum <= Balance u)%Q ->
  let r := handleWithdraw (mkWithdrawCall "POST" (Some userID) (Some (order, sum))) now w in
  fst r = StatusOK /\ users (store (snd r)) = <[userID := PG.debit sum u]> (users (store w)).
Proof.
  intros Hu Hv Hs Hle r. subst r. unfold handleWithdraw.
  cbn [wc_Method wc_UserID wc_JSON].
  rewrite decide_False by (intros H; by apply H).
  rewrite ValidateOrderNumber_trim, Hv, (proj2 (Qle_bool_gt _ _) Hs).
  rewrite WithdrawManager_Withdraw_valid by (by rewrite ?ValidateOrderNumber_trim).
  unfold call, PG.Withdraw. rewrite Hu, (proj2 (Qltb_ge _ _) Hle).
  simpl. done.
Qed.

Lemma claim_keeps scan now w :
  let w' := snd (call (PG.ClaimNextForProcessing_in scan now) w) in
  orders (store w') = orders (store w) /\ users (store w') = users (store w).
Proof.
  unfold call, PG.ClaimNextForProcessing_in. by destruct (PG.select_next scan).
Qed.

Section Journey.

Variable ToUpper : string -> string.
Hypothesis ToUpper_PROCESSED : ToUpper "PROCESSED" = "PROCESSED".


End Journey.


(** ** Listing orders, compressed *)

Section OrdersRouteFacts.

Variable ToLower : string -> string.
Variable encode_orders : list orderResponse -> list Z.
Variable validate : string -> option Z.

(** X29. A [GET] of [/api/user/orders] from a client that accepts gzip.
    Without a cookie the token check accepts, the answer is 401 with
    [Content-Encoding: gzip] in the header and no body at all, the
    compressor never made. With an accepted cookie and no order of the
    user, the answer is 204, the header untouched and nothing written.
    With orders, the answer is 200 with [Content-Type: application/json]
    and [Content-Encoding: gzip], the JSON of the user's orders, newest
    first, goes through the compressor and nothing around it, and the
    compressor is closed once. *)
Theorem orders_route_gzip acceptEncoding cookie scan :
  Contains (ToLower acceptEncoding) "gzip" = true ->
  let log := orders_route_get ToLower encode_orders validate acceptEncoding cookie scan in
  ((cookie ≫= validate) = None ->
     statuses log = [StatusUnauthorized]
     /\ header_sent ∅ log = Some {["Content-Encoding" := "gzip"]}
     /\ gz_bytes log = [] /\ raw_bytes log = [] /\ closes log = 0%nat)
  /\ (forall userID, (cookie ≫= validate) = Some userID ->
        ListUserOrders_in scan userID = [] ->
        statuses log = [StatusNoContent] /\ header_sent ∅ log = Some ∅
        /\ gz_bytes log = [] /\ raw_bytes log = [] /\ closes log = 0%nat)
  /\ (forall userID, (cookie ≫= validate) = Some userID ->
        ListUserOrders_in scan userID <> [] ->
        statuses log = [StatusOK]
        /\ header_sent ∅ log
           = Some {["Content-Type" := "application/json"; "Content-Encoding" := "gzip"]}
        /\ gz_bytes log = encode_orders (map order_item (ListUserOrders_in scan userID))
        /\ raw_bytes log = [] /\ closes log = 1%nat).
Proof.
  intros Hgz log. subst log. unfold orders_route_get, shouldUseGzip.
  rewrite decide_False by (intros H; by apply H).
  rewrite decide_False by (intros [H _]; by apply H). rewrite Hgz.
  unfold authFromCookie, handleOrders_calls, handleListOrders_calls.
  split; [|split].
  - intros Hc. destruct cookie as [v|]; cbn [mbind option_bind] in Hc.
    + rewrite Hc. vm_compute. repeat split; try done.
    + vm_compute. repeat split; try done.
  - intros userID Hc Hnone. destruct cookie as [v|]; cbn [mbind option_bind] in Hc; [|done].
    rewrite Hc, decide_True by done. rewrite decide_False by (intros H; by apply H).
    rewrite Hnone. cbn [length]. rewrite decide_True by done.
    vm_compute. repeat split; try done.
  - intros userID Hc Hsome. destruct cookie as [v|]; cbn [mbind option_bind] in Hc; [|done].
    rewrite Hc, decide_True by done. rewrite decide_False by (intros H; by apply H).
    rewrite decide_False by (by destruct (ListUserOrders_in scan userID)).
    set (json := encode_orders _).
    unfold wrapHandlerForGzip. cbn. rewrite app_nil_r.
    repeat split; try done.
Qed.

End OrdersRouteFacts.

Lemma orders_route_gzip_witness :
  Contains (ToLower_ASCII "GZip, deflate") "gzip" = true
  /\ (None ≫= fun _ : string => Some 1) = None
  /\ statuses (orders_route_get ToLower_ASCII (fun _ => []) (fun _ => Some 1)
                 "GZip, deflate" None [])
     = [StatusUnauthorized].
Proof.
  assert (H1 : Contains (ToLower_ASCII "GZip, deflate") "gzip" = true)
    by (vm_compute; reflexivity).
  assert (H2 : (None ≫= fun _ : string => Some 1) = None) by reflexivity.
  split; [exact H1|]. split; [exact H2|].
  exact (proj1 (proj1 (orders_route_gzip ToLower_ASCII (fun _ => []) (fun _ => Some 1)
                         "GZip, deflate" None [] H1) H2)).
Defined.

(** ** The secret of the tokens *)

Lemma LoadConfig_TokenSecret env flags :
  TokenSecret (LoadConfig env flags) = defaultTokenSecret.
Proof.
  unfold LoadConfig, applyFlags. cbn [TokenSecret].
  by destruct (applyEnv_spec env (mkConfig ":8080" "" "" (2 * Second) 3 defaultTokenSecret))
    as (_ & _ & _ & -> & _).
Qed.

(** X30. The tokens of every deployment are signed with the same built-in
    secret: whatever the environment and the command line of the server, a
    token made with [defaultTokenSecret] for any [int64] id is accepted by
    the server's token check, and [authFromCookie] hands that id to the
    handler behind it. *)
Theorem server_accepts_default_secret_tokens {A} Sum256 env flags id
    (unauthorized : A) (next : option Z -> A) :
  - 2 ^ 63 <= id <= 2 ^ 63 - 1 ->
  let token := tokenForUser Sum256 defaultTokenSecret id in
  server_ValidateToken Sum256 env flags token = Some id
  /\ authFromCookie (server_ValidateToken Sum256 env flags) (Some token) unauthorized next
     = next (Some id).
Proof.
  intros Hid token. subst token. unfold authFromCookie, server_ValidateToken.
  rewrite LoadConfig_TokenSecret, ValidateToken_tokenForUser by done. done.
Qed.

Lemma server_accepts_default_secret_tokens_witness :
  - 2 ^ 63 <= 7 <= 2 ^ 63 - 1
  /\ server_ValidateToken (fun s => s) (env_of "RUN_ADDRESS" ":9090") no_flags
       (tokenForUser (fun s => s) defaultTokenSecret 7) = Some 7.
Proof.
  assert (H1 : - 2 ^ 63 <= 7 <= 2 ^ 63 - 1) by lia.
  split; [exact H1|].
  exact (proj1 (server_accepts_default_secret_tokens (fun s => s)
                  (env_of "RUN_ADDRESS" ":9090") no_flags 7 StatusUnauthorized
                  (fun _ => StatusOK) H1)).
Defined.
